(** * StressView firmware: a shallow embedding of [hardware/DeviceCode.cpp]

    The development follows the firmware component by component: fixed-width
    integer helpers, the time synchroniser, the rotating hourly storage, the
    RR-interval ring buffer with its RMSSD estimator, the beat detector, the
    stress fusion engine and the BLE record packers.

    Conventions.
    - C integers are [Z]; where a value is stored into a narrower unsigned
      type the truncation is written out with [u8], [u16] and [u32]
      ([unsigned long] is 32 bits wide on the ESP32-C3 target, and the source
      itself relies on it through the constant [0xFFFFFFFF]).
    - [char] is unsigned on the RISC-V target, so the bytes of an Arduino
      [String] are numbers in [0, 255].
    - Signed [int] and [long] arithmetic is modelled without wrap-around;
      the quantities stay far inside 32 bits on the values the firmware
      produces (see [rr_sumSq_fits_long] for the largest of them).
    - Arrays are lists read with stdpp's lookup and written with its insert;
      every index the code uses is in range, which the invariants record.
    - [float] quantities are idealised as real numbers (exact arithmetic, no
      rounding). Two computations whose outcome is an integer or a boolean
      that depends on the rounding are modelled bit-exactly instead, on
      rationals rounded to 24 or 53 bits: the outlier test of
      [addRRInterval], which compares a binary32 quotient with a binary64
      literal ([rr_is_outlier]), and the adaptive peak threshold, a
      binary64 product truncated to [long] ([peak_threshold]). *)

From Stdlib Require Import ZArith QArith Reals Lra Lia List Bool.
From stdpp Require Import base list gmap.
Import ListNotations.

Open Scope Z_scope.

(* ================================================================== *)
(** * Fixed-width integers *)
(* ================================================================== *)

Definition u8 (x : Z) : Z := x mod 256.
Definition u16 (x : Z) : Z := x mod 65536.
Definition u32 (x : Z) : Z := x mod 4294967296.

Definition is_u8 (x : Z) : Prop := 0 <= x < 256.
Definition is_u16 (x : Z) : Prop := 0 <= x < 65536.
Definition is_u32 (x : Z) : Prop := 0 <= x < 4294967296.

(** Array read [a[i]] for an in-range index; out of range reads are never
    performed by the code, the default only makes the function total. *)
Definition at_index {A : Type} (dflt : A) (a : list A) (i : Z) : A :=
  default dflt (a !! Z.to_nat i).

(** Array write [a[i] = v]. *)
Definition set_index {A : Type} (a : list A) (i : Z) (v : A) : list A :=
  <[Z.to_nat i := v]> a.

(* ================================================================== *)
(** * Data model: time, hourly summaries, accumulator, flash *)
(* ================================================================== *)

(** [struct SyncedTime]. *)
Module SyncedTime.
Record t := mk {
  hour : Z;           (* uint8_t *)
  minute : Z;         (* uint8_t *)
  second : Z;         (* uint8_t *)
  day : Z;            (* uint8_t *)
  month : Z;          (* uint8_t *)
  year : Z;           (* uint16_t *)
  millisAtSync : Z;   (* unsigned long *)
  isValid : bool
}.
End SyncedTime.

(** [struct HourlySummary]. *)
Module HourlySummary.
Record t := mk {
  hour : Z;              (* uint8_t *)
  avgStress : Z;         (* uint8_t *)
  peakStress : Z;        (* uint8_t *)
  highStressMins : Z;    (* uint8_t *)
  avgHR : Z;             (* uint8_t *)
  avgHRV : Z;            (* uint16_t *)
  avgGSR : Z;            (* uint16_t *)
  sampleCount : Z;       (* uint16_t *)
  avgActivityLevel : Z   (* uint8_t *)
}.

(** The result of [memset(.., 0, ..)] followed by [.hour = i]. *)
Definition empty (i : Z) : t := mk i 0 0 0 0 0 0 0 0.

(** Every field fits the C type it is declared with. *)
Definition wf (s : t) : Prop :=
  is_u8 (hour s) /\ is_u8 (avgStress s) /\ is_u8 (peakStress s) /\
  is_u8 (highStressMins s) /\ is_u8 (avgHR s) /\ is_u16 (avgHRV s) /\
  is_u16 (avgGSR s) /\ is_u16 (sampleCount s) /\ is_u8 (avgActivityLevel s).
End HourlySummary.

(** [struct HourlyAccumulator]. *)
Module HourlyAccumulator.
Record t := mk {
  stressSum : Z;             (* uint32_t *)
  hrSum : Z;                 (* uint32_t *)
  hrvSum : Z;                (* uint32_t *)
  gsrSum : Z;                (* uint32_t *)
  sampleCount : Z;           (* uint16_t *)
  hrSampleCount : Z;         (* uint16_t *)
  peakStress : Z;            (* uint8_t *)
  highStressMins : Z;        (* uint8_t *)
  lastMinute : Z;            (* uint8_t *)
  highStressThisMinute : bool;
  activitySum : Z            (* uint32_t *)
}.

(** [memset(&hourAccum, 0, sizeof(hourAccum)); hourAccum.lastMinute = 255;] *)
Definition reset : t := mk 0 0 0 0 0 0 0 0 255 false 0.
End HourlyAccumulator.

Definition HOURS_PER_DAY : Z := 24.
Definition DAYS_TO_STORE : Z := 7.

(** The [Preferences] flash namespace. The firmware uses one [uchar] entry,
    ["currentDay"], and one blob per day, keyed ["day" + String(d)]; the
    blobs are indexed here by [d]. A blob is kept as the list of records it
    holds, so that [getBytesLength(key) == sizeof(todayData)] reads
    [length blob = 24]. *)
Record Preferences := mkPreferences {
  pref_currentDay : option Z;
  pref_days : gmap Z (list HourlySummary.t)
}.

Definition getUChar_currentDay (p : Preferences) (dflt : Z) : Z :=
  default dflt (pref_currentDay p).

Definition putUChar_currentDay (p : Preferences) (v : Z) : Preferences :=
  mkPreferences (Some v) (pref_days p).

Definition putBytes_day (p : Preferences) (d : Z) (blob : list HourlySummary.t)
  : Preferences :=
  mkPreferences (pref_currentDay p) (<[d := blob]> (pref_days p)).

(** [getBytesLength] compared with [sizeof(HourlySummary[24])], then
    [getBytes]: [Some] exactly when the sizes agree. *)
Definition getBytes_day (p : Preferences) (d : Z)
  : option (list HourlySummary.t) :=
  match pref_days p !! d with
  | Some blob => if Z.of_nat (length blob) =? HOURS_PER_DAY then Some blob else None
  | None => None
  end.

(** [memset(todayData, 0, ..); for (i..) todayData[i].hour = i;] *)
Definition emptyDay : list HourlySummary.t :=
  map (fun i => HourlySummary.empty (Z.of_nat i)) (seq 0 24).

(** The globals read and written by the time synchroniser and the storage
    manager. *)
Record Device := mkDevice {
  syncedTime : SyncedTime.t;
  lastSyncedDay : Z;                  (* uint8_t *)
  currentHour : Z;                    (* int, -1 until the first check *)
  currentDay : Z;                     (* uint8_t *)
  todayData : list HourlySummary.t;   (* HourlySummary[24] *)
  hourAccum : HourlyAccumulator.t;
  preferences : Preferences;
  bleHistoryDirty : bool
}.

(** The globals as their initialisers and [initStorage] on an erased flash
    leave them. *)
Definition initialDevice : Device :=
  mkDevice (SyncedTime.mk 0 0 0 1 1 2025 0 false) 0 (-1) 0 emptyDay
           HourlyAccumulator.reset (mkPreferences None ∅) true.

(* ================================================================== *)
(** * Time synchroniser *)
(* ================================================================== *)

(** [getCurrentTime(hour, minute, second)]; [millis] is the value the call
    to [millis()] returns. The three reference parameters are returned as a
    triple. *)
Definition getCurrentTime (syncedTime : SyncedTime.t) (millis : Z) : Z * Z * Z :=
  if negb (SyncedTime.isValid syncedTime) then (0, 0, 0)
  else
    let currentMillis := millis in
    let elapsedMillis :=
      if SyncedTime.millisAtSync syncedTime <=? currentMillis
      then u32 (currentMillis - SyncedTime.millisAtSync syncedTime)
      else u32 (u32 (u32 (4294967295 - SyncedTime.millisAtSync syncedTime)
                     + currentMillis) + 1) in
    let elapsedSeconds := elapsedMillis / 1000 in
    let totalSeconds := u32 (SyncedTime.second syncedTime + elapsedSeconds) in
    let second := u8 (totalSeconds mod 60) in
    let totalMinutes := u32 (SyncedTime.minute syncedTime + totalSeconds / 60) in
    let minute := u8 (totalMinutes mod 60) in
    let totalHours := u32 (SyncedTime.hour syncedTime + totalMinutes / 60) in
    let hour := u8 (totalHours mod 24) in
    (hour, minute, second).

(** [CommandCallbacks::onWrite]. [value] holds the bytes written to the
    command characteristic, [millis1] is the tick stored in [millisAtSync]
    and [millis2] the tick read by the nested [getCurrentTime]. The serial
    log has no effect on the state. *)
Definition onWrite (value : list Z) (millis1 millis2 : Z) (dev : Device) : Device :=
  if 0 <? Z.of_nat (length value) then
    let command := u8 (at_index 0 value 0) in
    if command =? 1 then
      if 8 <=? Z.of_nat (length value) then
        let year := u16 (Z.lor (Z.shiftl (u16 (at_index 0 value 2)) 8)
                               (u16 (at_index 0 value 1))) in
        let month := u8 (at_index 0 value 3) in
        let day := u8 (at_index 0 value 4) in
        let hour := u8 (at_index 0 value 5) in
        let minute := u8 (at_index 0 value 6) in
        let second := u8 (at_index 0 value 7) in
        if (2024 <=? year) && (year <=? 2100) &&
           (1 <=? month) && (month <=? 12) &&
           (1 <=? day) && (day <=? 31) &&
           (hour <? 24) && (minute <? 60) && (second <? 60)
        then
          let synced := SyncedTime.mk hour minute second day month year millis1 true in
          let '(currentH, _, _) := getCurrentTime synced millis2 in
          mkDevice synced day currentH (currentDay dev) (todayData dev)
                   (hourAccum dev) (preferences dev) (bleHistoryDirty dev)
        else dev
      else dev
    else if command =? 2 then
      mkDevice (syncedTime dev) (lastSyncedDay dev) (currentHour dev)
               (currentDay dev) (todayData dev) (hourAccum dev)
               (preferences dev) true
    else dev
  else dev.

(* ================================================================== *)
(** * Storage manager and hourly rollover *)
(* ================================================================== *)

(** [saveHourlyData(hour)]: finalises the accumulator into
    [todayData[hour]] and writes the whole day through to flash. *)
Definition saveHourlyData (hour : Z) (dev : Device) : Device :=
  if (hour <? 0) || (HOURS_PER_DAY <=? hour) then dev
  else
    let acc := hourAccum dev in
    if HourlyAccumulator.sampleCount acc =? 0 then dev
    else
      let n := HourlyAccumulator.sampleCount acc in
      let hn := HourlyAccumulator.hrSampleCount acc in
      let summary :=
        HourlySummary.mk
          (u8 hour)
          (u8 (HourlyAccumulator.stressSum acc / n))
          (HourlyAccumulator.peakStress acc)
          (HourlyAccumulator.highStressMins acc)
          (u8 (if 0 <? hn then HourlyAccumulator.hrSum acc / hn else 0))
          (u16 (if 0 <? hn then HourlyAccumulator.hrvSum acc / hn else 0))
          (u16 (HourlyAccumulator.gsrSum acc / n))
          n
          (u8 (HourlyAccumulator.activitySum acc / n)) in
      let today := set_index (todayData dev) hour summary in
      mkDevice (syncedTime dev) (lastSyncedDay dev) (currentHour dev)
               (currentDay dev) today acc
               (putBytes_day (preferences dev) (currentDay dev) today)
               (bleHistoryDirty dev).

(** [checkHourChange()], built without [DEBUG_FAST_HOURS]. *)
Definition checkHourChange (millis : Z) (dev : Device) : Device :=
  let newHour :=
    if SyncedTime.isValid (syncedTime dev)
    then let '(h, _, _) := getCurrentTime (syncedTime dev) millis in h
    else (millis / 3600000) mod 24 in
  if currentHour dev =? -1 then
    mkDevice (syncedTime dev) (lastSyncedDay dev) newHour (currentDay dev)
             (todayData dev) (hourAccum dev) (preferences dev)
             (bleHistoryDirty dev)
  else if negb (newHour =? currentHour dev) then
    let oldHour := currentHour dev in
    let saved := saveHourlyData (currentHour dev) dev in
    (* bleHistoryDirty = true; reset hourAccum; currentHour = newHour *)
    let '(dayRollover, lastSynced) :=
      if SyncedTime.isValid (syncedTime saved) then
        if negb (SyncedTime.day (syncedTime saved) =? lastSyncedDay saved)
        then (true, SyncedTime.day (syncedTime saved))
        else (false, lastSyncedDay saved)
      else
        if (newHour =? 0) && (oldHour =? 23)
        then (true, lastSyncedDay saved)
        else (false, lastSyncedDay saved) in
    if dayRollover then
      let nextDay := u8 ((currentDay saved + 1) mod DAYS_TO_STORE) in
      mkDevice (syncedTime saved) lastSynced newHour nextDay emptyDay
               HourlyAccumulator.reset
               (putUChar_currentDay (preferences saved) nextDay) true
    else
      mkDevice (syncedTime saved) lastSynced newHour (currentDay saved)
               (todayData saved) HourlyAccumulator.reset
               (preferences saved) true
  else dev.

(** [updateHourlyAccumulator()] writes [hourAccum] and nothing else; the
    sums it adds come from the float globals, so it is kept abstract here:
    any accumulator content may result. *)
Definition with_hourAccum (acc : HourlyAccumulator.t) (dev : Device) : Device :=
  mkDevice (syncedTime dev) (lastSyncedDay dev) (currentHour dev)
           (currentDay dev) (todayData dev) acc (preferences dev)
           (bleHistoryDirty dev).

(** States the firmware can be in: the initial one, and whatever a command
    write, an accumulator update or an hour check makes of a reachable one.
    The ticks are any values of the 32-bit counter. *)
Inductive reachable : Device -> Prop :=
| reach_init : reachable initialDevice
| reach_accum acc dev :
    reachable dev -> reachable (with_hourAccum acc dev)
| reach_write value m1 m2 dev :
    reachable dev -> is_u32 m1 -> is_u32 m2 ->
    reachable (onWrite value m1 m2 dev)
| reach_check m dev :
    reachable dev -> is_u32 m -> reachable (checkHourChange m dev).

(** [n] successive hour checks at the given ticks. *)
Definition run_checks (ticks : list Z) (dev : Device) : Device :=
  fold_left (fun d m => checkHourChange m d) ticks dev.

(** The fields of a time-sync payload as the protocol lays them out:
    [year u16 LE, month, day, hour, minute, second] after the opcode. *)
Definition sync_year (value : list Z) : Z :=
  at_index 0 value 1 + 256 * at_index 0 value 2.

Definition sync_fields_valid (value : list Z) : Prop :=
  2024 <= sync_year value <= 2100 /\
  1 <= at_index 0 value 3 <= 12 /\
  1 <= at_index 0 value 4 <= 31 /\
  at_index 0 value 5 < 24 /\
  at_index 0 value 6 < 60 /\
  at_index 0 value 7 < 60.

(** The content of a [String]: every element is a byte. *)
Definition bytes (value : list Z) : Prop := Forall is_u8 value.

(* ================================================================== *)
(** * Binary floating point *)
(* ================================================================== *)

(** [(n / d) * 2 ^ k] as a fraction of integers. *)
Definition scale2 (n d k : Z) : Z * Z :=
  if 0 <=? k then (n * 2 ^ k, d) else (n, d * 2 ^ (- k)).

(** IEEE 754 round-to-nearest, ties-to-even, of the positive rational
    [n / d] to [prec] bits of precision. [e] is the exponent of the binade
    that holds [n / d], [m] the integer significand before rounding. The
    exponent range is not modelled: every quotient formed below lies far
    inside the normal range of binary32. *)
Definition round_pos (prec n d : Z) : Q :=
  let e0 := Z.log2 n - Z.log2 d in
  let '(n0, d0) := scale2 n d (- e0) in
  let e := if d0 <=? n0 then e0 else e0 - 1 in
  let k := prec - 1 - e in
  let '(n1, d1) := scale2 n d k in
  let m := n1 / d1 in
  let r := n1 mod d1 in
  let m' := if 2 * r <? d1 then m
            else if d1 <? 2 * r then m + 1
            else if Z.even m then m else m + 1 in
  let '(n2, d2) := scale2 m' 1 (- k) in
  Qmake n2 (Z.to_pos d2).

Definition round_Q (prec : Z) (q : Q) : Q :=
  match Qnum q with
  | Z0 => 0%Q
  | Zpos n => round_pos prec (Zpos n) (Zpos (Qden q))
  | Zneg n => Qopp (round_pos prec (Zpos n) (Zpos (Qden q)))
  end.

(** Rounding to [float] (binary32, 24 bits) and to [double] (binary64,
    53 bits). *)
Definition float_of_Q : Q -> Q := round_Q 24.
Definition double_of_Q : Q -> Q := round_Q 53.

Definition Qlt_bool (x y : Q) : bool := negb (Qle_bool y x).

(** The literal [0.20] of the source: a [double]. *)
Definition DOUBLE_0_20 : Q := double_of_Q (1 # 5).

(* ================================================================== *)
(** * HRV estimator *)
(* ================================================================== *)

Definition BUFFER_SIZE : Z := 30.
Definition HRV_WARMUP_COUNT : Z := 20.

(** The HRV globals: [rrBuffer], [head], [count], [currentHRV],
    [longTermHRV]. *)
Module HRV.
Record t := mk {
  rrBuffer : list Z;     (* int[BUFFER_SIZE] *)
  head : Z;              (* int *)
  count : Z;             (* int *)
  currentHRV : R;        (* float *)
  longTermHRV : R        (* float *)
}.
End HRV.

Definition hrvLearningRate : R := 0.01%R.

Definition initialHRV : HRV.t :=
  HRV.mk (replicate 30 0) 0 0 0%R 50%R.

(** The test [abs(rrIntervalMs - prevBeat) / (float)prevBeat > 0.20].
    The absolute difference is an [int]; it and [prevBeat] are converted to
    [float], divided in [float], and the quotient is widened (exactly) to
    [double] for the comparison with the [double] literal. A zero divisor
    gives [+inf] (greater than anything) for a positive dividend and NaN
    (every comparison false) for a zero one. *)
Definition rr_is_outlier (rrIntervalMs prevBeat : Z) : bool :=
  let a := float_of_Q (inject_Z (Z.abs (rrIntervalMs - prevBeat))) in
  let p := float_of_Q (inject_Z prevBeat) in
  if Qeq_bool p 0 then negb (Qeq_bool a 0)
  else Qlt_bool DOUBLE_0_20 (float_of_Q (a / p)).

(** The index expression [(head - count + i + BUFFER_SIZE) % BUFFER_SIZE]
    of a ring of [size] slots; [%] truncates like [Z.rem]. *)
Definition ring_index (size head count i : Z) : Z :=
  Z.rem (head - count + i + size) size.

Definition rr_index (st : HRV.t) (i : Z) : Z :=
  ring_index BUFFER_SIZE (HRV.head st) (HRV.count st) i.

(** The loop of [calculateRMSSD]: the sum of the squared differences of
    neighbouring intervals, oldest first. *)
Definition rr_sumSq (st : HRV.t) : Z :=
  fold_left
    (fun sumSq i =>
       let cur := rr_index st i in
       let nxt := rr_index st (i + 1) in
       let diff := at_index 0 (HRV.rrBuffer st) nxt
                   - at_index 0 (HRV.rrBuffer st) cur in
       sumSq + diff * diff)
    (seqZ 0 (HRV.count st - 1)) 0.

(** [calculateRMSSD()]. *)
Definition calculateRMSSD (st : HRV.t) : R :=
  if HRV.count st <? 2 then 0%R
  else sqrt (IZR (rr_sumSq st) / IZR (HRV.count st - 1)).

(** [addRRInterval(rrIntervalMs)]. *)
Definition addRRInterval (rrIntervalMs : Z) (st : HRV.t) : HRV.t :=
  let rrIntervalMs :=
    if 0 <? HRV.count st then
      let prevBeat :=
        at_index 0 (HRV.rrBuffer st)
                 (Z.rem (HRV.head st - 1 + BUFFER_SIZE) BUFFER_SIZE) in
      if rr_is_outlier rrIntervalMs prevBeat then prevBeat else rrIntervalMs
    else rrIntervalMs in
  let rrBuffer := set_index (HRV.rrBuffer st) (HRV.head st) rrIntervalMs in
  let head := Z.rem (HRV.head st + 1) BUFFER_SIZE in
  let count :=
    if HRV.count st <? BUFFER_SIZE then HRV.count st + 1 else HRV.count st in
  let st' := HRV.mk rrBuffer head count (HRV.currentHRV st) (HRV.longTermHRV st) in
  if HRV_WARMUP_COUNT <=? count then
    let hrv := calculateRMSSD st' in
    HRV.mk rrBuffer head count hrv
           (hrvLearningRate * hrv + (1 - hrvLearningRate) * HRV.longTermHRV st)%R
  else st'.

(** The estimator after a sequence of intervals, fed oldest first. *)
Definition feed_intervals (rrs : list Z) (st : HRV.t) : HRV.t :=
  fold_left (fun s rr => addRRInterval rr s) rrs st.

(** The [count] live entries of a ring, oldest first. *)
Definition ring_window (size : Z) (buf : list Z) (head count : Z) : list Z :=
  map (fun i => at_index 0 buf (ring_index size head count i)) (seqZ 0 count).

(** The intervals held by the RR ring, oldest first. *)
Definition rr_window (st : HRV.t) : list Z :=
  ring_window BUFFER_SIZE (HRV.rrBuffer st) (HRV.head st) (HRV.count st).

(** The interval read by the outlier guard: the one stored last. *)
Definition rr_previous (st : HRV.t) : Z :=
  at_index 0 (HRV.rrBuffer st)
           (Z.rem (HRV.head st - 1 + BUFFER_SIZE) BUFFER_SIZE).

(** RMSSD as the specification words it: the square root of the mean of
    the squared differences of consecutive intervals. *)
Fixpoint sum_sq_diffs (l : list Z) : Z :=
  match l with
  | x :: (y :: _) as tl => (y - x) * (y - x) + sum_sq_diffs tl
  | _ => 0
  end.

Definition rmssd (l : list Z) : R :=
  sqrt (IZR (sum_sq_diffs l) / IZR (Z.of_nat (length l) - 1)).

(** What the ring is meant to hold after the intervals [rrs]: each
    interval as the outlier guard lets it through, the last [BUFFER_SIZE]
    of them. [stored_intervals] lists every stored value, oldest first. *)
Fixpoint stored_from (prev : option Z) (rrs : list Z) : list Z :=
  match rrs with
  | [] => []
  | rr :: rest =>
      let v := match prev with
               | Some p => if rr_is_outlier rr p then p else rr
               | None => rr
               end in
      v :: stored_from (Some v) rest
  end.

Definition stored_intervals (rrs : list Z) : list Z := stored_from None rrs.

Definition last_n {A : Type} (n : nat) (l : list A) : list A :=
  drop (length l - n) l.

(** Shape of a ring of [size] slots: indices in range, and the write
    cursor equal to the count until the ring is full. *)
Definition ring_shape (size : Z) (buf : list Z) (head count : Z) : Prop :=
  Z.of_nat (length buf) = size /\
  0 <= head < size /\
  0 <= count <= size /\
  (count < size -> head = count).

Definition ring_ok (st : HRV.t) : Prop :=
  ring_shape BUFFER_SIZE (HRV.rrBuffer st) (HRV.head st) (HRV.count st).

(** The value [addRRInterval] writes into the ring. *)
Definition stored_value (rr : Z) (st : HRV.t) : Z :=
  if 0 <? HRV.count st then
    if rr_is_outlier rr (rr_previous st) then rr_previous st else rr
  else rr.

(** The range check in front of [addRRInterval]. *)
Definition rr_in_range (rr : Z) : Prop := 300 <= rr <= 2000.

(** What holds of the RR ring in every state: it is well shaped and its
    live entries passed the range check. *)
Definition rr_ring_inv (h : HRV.t) : Prop :=
  ring_ok h /\ Forall rr_in_range (rr_window h).

(* ================================================================== *)
(** * Beat detector *)
(* ================================================================== *)

Definition PEAK_BUFFER_SIZE : Z := 10.

(** The globals of the beat detector, with the HRV globals it feeds. *)
Module Beat.
Record t := mk {
  peakTimes : list Z;        (* unsigned long[PEAK_BUFFER_SIZE] *)
  peakIndex : Z;             (* int *)
  peakCount : Z;             (* int *)
  currentBPM : R;            (* float *)
  lastPeakTime : Z;          (* unsigned long *)
  lastValue : Z;             (* long *)
  peakThreshold : Z;         (* long *)
  peakDetected : bool;
  runningAvg : Z;            (* long *)
  sampleCount : Z;           (* int *)
  lastBeatTime : Z;          (* unsigned long *)
  hrv : HRV.t
}.
End Beat.

Definition initialBeat : Beat.t :=
  Beat.mk (replicate 10 0) 0 0 0%R 0 0 0 false 0 0 0 initialHRV.

(** [minValue + (maxValue - minValue) * 0.6] stored into a [long]: the
    product and the sum are formed in [double], the result is truncated
    towards zero. *)
Definition peak_threshold (minValue maxValue : Z) : Z :=
  let product :=
    double_of_Q (inject_Z (maxValue - minValue) * double_of_Q (6 # 10)) in
  let total := double_of_Q (inject_Z minValue + product) in
  Z.quot (Qnum total) (Zpos (Qden total)).

(** The interval the BPM loop reads at step [i]. *)
Definition peak_interval (peakTimes : list Z) (peakIndex i : Z) : Z :=
  let prevIndex := Z.rem (peakIndex - i - 1 + PEAK_BUFFER_SIZE) PEAK_BUFFER_SIZE in
  let currIndex := Z.rem (peakIndex - i + PEAK_BUFFER_SIZE) PEAK_BUFFER_SIZE in
  u32 (at_index 0 peakTimes currIndex - at_index 0 peakTimes prevIndex).

(** The validity test the BPM loop applies: [interval > 250 && interval < 2000]. *)
Definition interval_counted (x : Z) : bool := (250 <? x) && (x <? 2000).

(** The BPM loop: [(totalInterval, validIntervals)] after
    [for (i = 1; i < peakCount; i++)]. *)
Definition sum_valid_intervals (peakTimes : list Z) (peakIndex peakCount : Z)
  : Z * Z :=
  fold_left
    (fun (acc : Z * Z) i =>
       let interval := peak_interval peakTimes peakIndex i in
       if interval_counted interval
       then (u32 (fst acc + interval), snd acc + 1)
       else acc)
    (seqZ 1 (peakCount - 1)) (0, 0).

(** The block [if (peakCount >= 3) { ... }]. *)
Definition bpm_from_peaks (peakTimes : list Z) (peakIndex peakCount : Z)
    (currentBPM : R) : R :=
  if 3 <=? peakCount then
    let '(totalInterval, validIntervals) :=
      sum_valid_intervals peakTimes peakIndex peakCount in
    if 0 <? validIntervals then
      let avgInterval := (IZR totalInterval / IZR validIntervals)%R in
      let bpm := (60000 / avgInterval)%R in
      let bpm := if Rlt_dec bpm 40 then 0%R else bpm in
      if Rgt_dec bpm 200 then 0%R else bpm
    else currentBPM
  else currentBPM.

(** The condition under which a sample is taken for a beat. *)
Definition is_peak (irValue currentTime peakThreshold : Z) (st : Beat.t) : bool :=
  (Beat.lastValue st <? irValue) && (peakThreshold <? irValue) &&
  negb (Beat.peakDetected st) &&
  (300 <? u32 (currentTime - Beat.lastPeakTime st)).

(** [detectPeakAndCalculateBPM(irValue)]. [currentTime] is the value of
    [millis()]; [minValue] and [maxValue] are the globals [updateHeartRate]
    has just recomputed from the IR buffer. *)
Definition detectPeakAndCalculateBPM (irValue currentTime minValue maxValue : Z)
    (st : Beat.t) : Beat.t :=
  let runningAvg :=
    Z.quot (Beat.runningAvg st * Beat.sampleCount st + irValue)
           (Beat.sampleCount st + 1) in
  let sampleCount :=
    if 100 <? Beat.sampleCount st + 1 then 100 else Beat.sampleCount st + 1 in
  let peakThreshold := peak_threshold minValue maxValue in
  let dropFlag (flag : bool) :=
    if irValue <? Beat.lastValue st then false else flag in
  if is_peak irValue currentTime peakThreshold st then
    let hrv :=
      if 0 <? Beat.lastBeatTime st then
        let rrInterval := u32 (currentTime - Beat.lastBeatTime st) in
        if (300 <=? rrInterval) && (rrInterval <=? 2000)
        then addRRInterval rrInterval (Beat.hrv st)
        else Beat.hrv st
      else Beat.hrv st in
    let peakTimes := set_index (Beat.peakTimes st) (Beat.peakIndex st) currentTime in
    let peakIndex := Z.rem (Beat.peakIndex st + 1) PEAK_BUFFER_SIZE in
    let peakCount :=
      if Beat.peakCount st <? PEAK_BUFFER_SIZE
      then Beat.peakCount st + 1 else Beat.peakCount st in
    let currentBPM :=
      bpm_from_peaks peakTimes peakIndex peakCount (Beat.currentBPM st) in
    Beat.mk peakTimes peakIndex peakCount currentBPM currentTime irValue
            peakThreshold (dropFlag true) runningAvg sampleCount currentTime hrv
  else
    Beat.mk (Beat.peakTimes st) (Beat.peakIndex st) (Beat.peakCount st)
            (Beat.currentBPM st) (Beat.lastPeakTime st) irValue peakThreshold
            (dropFlag (Beat.peakDetected st)) runningAvg sampleCount
            (Beat.lastBeatTime st) (Beat.hrv st).

(** The part of [wakeFromPowerOff] (and of [setup]) that resets the
    detector; the RR ring and the HRV values are left alone. *)
Definition resetDetector (st : Beat.t) : Beat.t :=
  Beat.mk (replicate 10 0) 0 0 0%R 0 0 0 false 0 0 0 (Beat.hrv st).

(** What happens to the detector: an IR sample is processed, or the device
    wakes from power-off. *)
Inductive HeartEvent :=
| Sample (irValue currentTime minValue maxValue : Z)
| WakeUp.

Definition heart_step (st : Beat.t) (ev : HeartEvent) : Beat.t :=
  match ev with
  | Sample irValue currentTime minValue maxValue =>
      detectPeakAndCalculateBPM irValue currentTime minValue maxValue st
  | WakeUp => resetDetector st
  end.

Definition run_heart (evs : list HeartEvent) (st : Beat.t) : Beat.t :=
  fold_left heart_step evs st.

(** The recorded peak times, oldest first. *)
Definition peak_window (st : Beat.t) : list Z :=
  ring_window PEAK_BUFFER_SIZE (Beat.peakTimes st) (Beat.peakIndex st)
              (Beat.peakCount st).

(** The elapsed ticks between neighbouring entries of a list of tick
    values, computed like the code does, in unsigned 32-bit arithmetic. *)
Fixpoint successive_intervals (l : list Z) : list Z :=
  match l with
  | x :: (y :: _) as tl => u32 (y - x) :: successive_intervals tl
  | _ => []
  end.

(** A valid peak-to-peak interval as the specification words it: within
    [[250 ms, 2000 ms)]. *)
Definition interval_valid (x : Z) : bool := (250 <=? x) && (x <? 2000).

Definition sum_list (l : list Z) : Z := fold_right Z.add 0 l.

(** BPM as the specification words it: 60000 over the mean of the valid
    intervals, reported as 0 when outside [[40, 200]], and the previous value
    when no interval is valid. *)
Definition bpm_spec (intervals : list Z) (previous : R) : R :=
  let valid := List.filter interval_valid intervals in
  match valid with
  | [] => previous
  | _ :: _ =>
      let bpm := (60000 / (IZR (sum_list valid)
                           / IZR (Z.of_nat (length valid))))%R in
      if Rlt_dec bpm 40 then 0%R
      else if Rgt_dec bpm 200 then 0%R else bpm
  end.

(** What holds of the detector in every state it reaches: the peak ring is
    well shaped, recorded peaks are more than 300 ticks apart, and the newest
    recorded peak is [lastPeakTime]. *)
Definition peaks_ok (st : Beat.t) : Prop :=
  ring_shape PEAK_BUFFER_SIZE (Beat.peakTimes st) (Beat.peakIndex st)
             (Beat.peakCount st) /\
  Forall (fun x => 300 < x) (successive_intervals (peak_window st)) /\
  (0 < Beat.peakCount st -> last (peak_window st) = Some (Beat.lastPeakTime st)).

(* ================================================================== *)
(** * Stress fusion engine *)
(* ================================================================== *)

Inductive ActivityLevel := STILL | LIGHT | ACTIVE | EXERCISE.

Definition HRV_ACTIVITY_MULTIPLIER (a : ActivityLevel) : R :=
  match a with
  | STILL => 1.0
  | LIGHT => 0.95
  | ACTIVE => 0.80
  | EXERCISE => 0.65
  end%R.

(** [mapFloat]. *)
Definition mapFloat (x in_min in_max out_min out_max : R) : R :=
  ((x - in_min) * (out_max - out_min) / (in_max - in_min) + out_min)%R.

(** Arduino's [constrain(amt, low, high)]:
    [(amt) < (low) ? (low) : ((amt) > (high) ? (high) : (amt))]. *)
Definition constrain (amt low high : R) : R :=
  if Rlt_dec amt low then low else if Rgt_dec amt high then high else amt.

(** Arduino's [abs(x)]: [(x) > 0 ? (x) : -(x)]. *)
Definition fabs (x : R) : R := if Rgt_dec x 0 then x else (- x)%R.

(** The globals the fusion engine reads and other components write. *)
Module Sensors.
Record t := mk {
  hrSensorActive : bool;
  count : Z;                          (* number of stored RR intervals *)
  currentHRV : R;
  longTermHRV : R;
  currentActivity : ActivityLevel;
  currentGSR : R;
  baselineGSR : R;
  currentHR : Z;                      (* uint8_t *)
  motionVariance : R
}.
End Sensors.

(** The globals and function-local statics the fusion engine owns. *)
Module Fusion.
Record t := mk {
  gsrMaxSwing : R;
  physiologicalToMotionRatio : R;
  previousHR : R;
  previousGSR : R;
  smoothedStressData : R;       (* static *)
  smoothedStressDisplay : R;    (* static *)
  previousAdjustedStress : R;   (* static *)
  stressIndex : R;
  stressIndexDisplay : R
}.
End Fusion.

Definition initialFusion : Fusion.t :=
  Fusion.mk 100 0 0 0 0 0 0 0 0.

(** The local [hrvScore]. *)
Definition hrv_score (inp : Sensors.t) : R :=
  let activityAdjustedHRVBaseline :=
    (Sensors.longTermHRV inp
     * HRV_ACTIVITY_MULTIPLIER (Sensors.currentActivity inp))%R in
  if Sensors.hrSensorActive inp && (HRV_WARMUP_COUNT <=? Sensors.count inp)
  then constrain
         (mapFloat (Sensors.currentHRV inp)
                   (activityAdjustedHRVBaseline * 0.4)
                   activityAdjustedHRVBaseline 100 0)
         0 100
  else 0%R.

(** [gsrMaxSwing] after its adaptive update. *)
Definition gsr_swing (inp : Sensors.t) (st : Fusion.t) : R :=
  let gsrDiff := fabs (Sensors.currentGSR inp - Sensors.baselineGSR inp) in
  if Rgt_dec gsrDiff (Fusion.gsrMaxSwing st)
  then (0.1 * gsrDiff + 0.9 * Fusion.gsrMaxSwing st)%R
  else Fusion.gsrMaxSwing st.

(** The local [gsrScore]. *)
Definition gsr_score (inp : Sensors.t) (st : Fusion.t) : R :=
  let gsrDiff := fabs (Sensors.currentGSR inp - Sensors.baselineGSR inp) in
  constrain (gsrDiff / gsr_swing inp st * 100) 0 100.

(** [physiologicalToMotionRatio] as the cycle leaves it. *)
Definition pmr (inp : Sensors.t) (st : Fusion.t) : R :=
  let hrChange := fabs (IZR (Sensors.currentHR inp) - Fusion.previousHR st) in
  let gsrChange := fabs (Sensors.currentGSR inp - Fusion.previousGSR st) in
  let normalizedMotion := (Sensors.motionVariance inp + 0.001)%R in
  if Rgt_dec normalizedMotion 0.001
  then constrain ((hrChange * 0.5 + gsrChange * 0.5) / normalizedMotion) 0 1000
  else ((hrChange + gsrChange) * 10.0)%R.

(** The local [activityWeight]. *)
Definition activity_weight (activity : ActivityLevel) (ratio : R) : R :=
  match activity with
  | EXERCISE => if Rgt_dec ratio 50.0 then 0.4 else 0.3
  | ACTIVE => if Rgt_dec ratio 30.0 then 0.6 else 0.5
  | LIGHT => if Rgt_dec ratio 20.0 then 0.9 else 0.8
  | STILL => if Rgt_dec ratio 15.0 then 1.1 else 1.0
  end%R.

(** The local [adjustedStress], after [constrain]. *)
Definition adjusted_stress (inp : Sensors.t) (st : Fusion.t) : R :=
  let hrvScore := hrv_score inp in
  let gsrScore := gsr_score inp st in
  let rawStress :=
    if Sensors.hrSensorActive inp && (HRV_WARMUP_COUNT <=? Sensors.count inp)
    then (0.6 * hrvScore + 0.4 * gsrScore)%R
    else gsrScore in
  let activityWeight :=
    activity_weight (Sensors.currentActivity inp) (pmr inp st) in
  constrain (rawStress * activityWeight) 0 100.

(** [calculateStressIndex()]: the state it leaves and the value it
    returns. [stressIndex] is written by the caller. *)
Definition calculateStressIndex (inp : Sensors.t) (st : Fusion.t) : Fusion.t * R :=
  let adjustedStress := adjusted_stress inp st in
  let DATA_ALPHA := 0.90%R in
  let smoothedStressData :=
    (DATA_ALPHA * adjustedStress
     + (1.0 - DATA_ALPHA) * Fusion.smoothedStressData st)%R in
  let changeRate := fabs (adjustedStress - Fusion.smoothedStressDisplay st) in
  let changeAcceleration :=
    fabs (adjustedStress - Fusion.previousAdjustedStress st) in
  let anxietyDetected :=
    (if Rgt_dec adjustedStress 60.0 then true else false) &&
    (if Rgt_dec changeRate 10.0 then true else false) &&
    (if Rgt_dec changeAcceleration 6.0 then true else false) in
  let displayAlpha := if anxietyDetected then 0.90%R else 0.40%R in
  let smoothedStressDisplay :=
    (displayAlpha * adjustedStress
     + (1.0 - displayAlpha) * Fusion.smoothedStressDisplay st)%R in
  (Fusion.mk (gsr_swing inp st) (pmr inp st)
             (IZR (Sensors.currentHR inp)) (Sensors.currentGSR inp)
             smoothedStressData smoothedStressDisplay adjustedStress
             (Fusion.stressIndex st) smoothedStressDisplay,
   smoothedStressData).

(** One evaluation cycle of [loop()]:
    [stressIndex = calculateStressIndex();]. *)
Definition fusion_cycle (st : Fusion.t) (inp : Sensors.t) : Fusion.t :=
  let '(st', result) := calculateStressIndex inp st in
  Fusion.mk (Fusion.gsrMaxSwing st') (Fusion.physiologicalToMotionRatio st')
            (Fusion.previousHR st') (Fusion.previousGSR st')
            (Fusion.smoothedStressData st') (Fusion.smoothedStressDisplay st')
            (Fusion.previousAdjustedStress st') result
            (Fusion.stressIndexDisplay st').

Definition run_fusion (inputs : list Sensors.t) (st : Fusion.t) : Fusion.t :=
  fold_left fusion_cycle inputs st.

Definition percent (x : R) : Prop := (0 <= x <= 100)%R.

(* ================================================================== *)
(** * Protocol codec *)
(* ================================================================== *)

(** The ten stores of one iteration of [packTodayData]. *)
Definition packTodayEntry (buffer : list Z) (offset : Z) (rec : HourlySummary.t)
  : list Z :=
  let buffer := set_index buffer (offset + 0) (HourlySummary.hour rec) in
  let buffer := set_index buffer (offset + 1) (HourlySummary.avgStress rec) in
  let buffer := set_index buffer (offset + 2) (HourlySummary.peakStress rec) in
  let buffer := set_index buffer (offset + 3) (HourlySummary.highStressMins rec) in
  let buffer := set_index buffer (offset + 4) (HourlySummary.avgHR rec) in
  let buffer := set_index buffer (offset + 5)
                  (u8 (Z.land (HourlySummary.avgHRV rec) 255)) in
  let buffer := set_index buffer (offset + 6)
                  (u8 (Z.land (Z.shiftr (HourlySummary.avgHRV rec) 8) 255)) in
  let buffer := set_index buffer (offset + 7)
                  (u8 (Z.land (HourlySummary.avgGSR rec) 255)) in
  let buffer := set_index buffer (offset + 8)
                  (u8 (Z.land (Z.shiftr (HourlySummary.avgGSR rec) 8) 255)) in
  set_index buffer (offset + 9)
    (u8 (Z.lor (if 0 <? HourlySummary.sampleCount rec then 1 else 0)
               (Z.shiftl (Z.land (HourlySummary.avgActivityLevel rec) 3) 1))).

(** [packTodayData(buffer)]. *)
Definition packTodayData (todayData : list HourlySummary.t) (buffer : list Z)
  : list Z :=
  fold_left
    (fun buffer i =>
       let offset := i * 10 in
       packTodayEntry buffer offset (at_index (HourlySummary.empty 0) todayData i))
    (seqZ 0 HOURS_PER_DAY) buffer.

(** One hour of the today record as the companion application reads it. *)
Record TodayEntry := mkTodayEntry {
  te_hour : Z;
  te_avgStress : Z;
  te_peakStress : Z;
  te_highStressMins : Z;
  te_avgHR : Z;
  te_avgHRV : Z;
  te_avgGSR : Z;
  te_valid : bool;
  te_activity : Z
}.

(** The today-record layout of the specification, ten bytes per hour:
    [hour, avgStress, peakStress, highStressMins, avgHR, avgHRV u16 LE,
    avgGSR u16 LE, flags (b0 valid, b1-2 activity)]. *)
Definition today_layout (rec : HourlySummary.t) : list Z :=
  [HourlySummary.hour rec; HourlySummary.avgStress rec;
   HourlySummary.peakStress rec; HourlySummary.highStressMins rec;
   HourlySummary.avgHR rec;
   HourlySummary.avgHRV rec mod 256; HourlySummary.avgHRV rec / 256;
   HourlySummary.avgGSR rec mod 256; HourlySummary.avgGSR rec / 256;
   (if 0 <? HourlySummary.sampleCount rec then 1 else 0)
   + 2 * HourlySummary.avgActivityLevel rec].

(** Modelled from the spec: the reader of the today record. The firmware
    only writes the record; the companion application that parses it is not
    among the sources, so the decoder follows the layout of the
    specification field by field. *)
Definition decodeTodayEntry (buffer : list Z) (offset : Z) : TodayEntry :=
  let b k := at_index 0 buffer (offset + k) in
  mkTodayEntry (b 0) (b 1) (b 2) (b 3) (b 4)
               (b 5 + 256 * b 6) (b 7 + 256 * b 8)
               (Z.testbit (b 9) 0)
               (Z.land (Z.shiftr (b 9) 1) 3).

Definition decodeToday (buffer : list Z) : list TodayEntry :=
  map (fun i => decodeTodayEntry buffer (i * 10)) (seqZ 0 HOURS_PER_DAY).

(** The fields of an hourly summary that the today record carries. *)
Definition today_view (rec : HourlySummary.t) : TodayEntry :=
  mkTodayEntry (HourlySummary.hour rec) (HourlySummary.avgStress rec)
               (HourlySummary.peakStress rec) (HourlySummary.highStressMins rec)
               (HourlySummary.avgHR rec) (HourlySummary.avgHRV rec)
               (HourlySummary.avgGSR rec)
               (0 <? HourlySummary.sampleCount rec)
               (HourlySummary.avgActivityLevel rec).

(** The records a today record can carry: every field fits its C type
    and the activity level is one of the four enumerators. *)
Definition today_ok (rec : HourlySummary.t) : Prop :=
  HourlySummary.wf rec /\ 0 <= HourlySummary.avgActivityLevel rec <= 3.

(** A day of summaries for the examples: even hours hold data. *)
Definition sampleDay : list HourlySummary.t :=
  map (fun i =>
         HourlySummary.mk (Z.of_nat i) 40 80 5 72 300 2000
                          (if Nat.even i then 3600 else 0)
                          (Z.of_nat (i mod 4)))
      (seq 0 24).

(** The locals of one iteration of [packWeekData]. *)
Module DayStats.
Record t := mk {
  stressSum : Z;    (* uint32_t *)
  hrSum : Z;        (* uint32_t *)
  hrvSum : Z;       (* uint32_t *)
  peakStress : Z;   (* uint8_t *)
  peakHour : Z;     (* uint8_t *)
  highMins : Z;     (* uint8_t *)
  validHours : Z    (* int *)
}.

Definition zero : t := mk 0 0 0 0 0 0 0.
End DayStats.

(** The body of the loop over the hours of a stored day. *)
Definition aggregate_hour (dayData : list HourlySummary.t)
    (acc : DayStats.t) (h : Z) : DayStats.t :=
  let rec := at_index (HourlySummary.empty 0) dayData h in
  if 0 <? HourlySummary.sampleCount rec then
    let higher := DayStats.peakStress acc <? HourlySummary.peakStress rec in
    DayStats.mk
      (u32 (DayStats.stressSum acc + HourlySummary.avgStress rec))
      (u32 (DayStats.hrSum acc + HourlySummary.avgHR rec))
      (u32 (DayStats.hrvSum acc + HourlySummary.avgHRV rec))
      (if higher then HourlySummary.peakStress rec else DayStats.peakStress acc)
      (if higher then u8 h else DayStats.peakHour acc)
      (u8 (DayStats.highMins acc + HourlySummary.highStressMins rec))
      (DayStats.validHours acc + 1)
  else acc.

(** The statistics of day [d]: zero unless a blob of the right size is
    stored. *)
Definition aggregate_day (stored : option (list HourlySummary.t)) : DayStats.t :=
  match stored with
  | Some dayData =>
      fold_left (aggregate_hour dayData) (seqZ 0 HOURS_PER_DAY) DayStats.zero
  | None => DayStats.zero
  end.

(** The ten stores that end an iteration of [packWeekData]. *)
Definition packWeekEntry (buffer : list Z) (offset d : Z) (s : DayStats.t)
  : list Z :=
  let valid := 0 <? DayStats.validHours s in
  let buffer := set_index buffer (offset + 0) (u8 d) in
  let buffer := set_index buffer (offset + 1)
    (u8 (if valid then DayStats.stressSum s / DayStats.validHours s else 0)) in
  let buffer := set_index buffer (offset + 2) (DayStats.peakStress s) in
  let buffer := set_index buffer (offset + 3) (DayStats.peakHour s) in
  let buffer := set_index buffer (offset + 4) (DayStats.highMins s) in
  let buffer := set_index buffer (offset + 5)
    (u8 (if valid then DayStats.hrSum s / DayStats.validHours s else 0)) in
  let buffer := set_index buffer (offset + 6)
    (u8 (if valid
         then Z.land (DayStats.hrvSum s / DayStats.validHours s) 255 else 0)) in
  let buffer := set_index buffer (offset + 7)
    (u8 (if valid
         then Z.land (Z.shiftr (DayStats.hrvSum s / DayStats.validHours s) 8) 255
         else 0)) in
  let buffer := set_index buffer (offset + 8) 0 in
  set_index buffer (offset + 9) (if valid then 1 else 0).

(** [packWeekData(buffer)]. *)
Definition packWeekData (preferences : Preferences) (buffer : list Z) : list Z :=
  fold_left
    (fun buffer d =>
       let offset := d * 10 in
       packWeekEntry buffer offset d
                     (aggregate_day (getBytes_day preferences d)))
    (seqZ 0 DAYS_TO_STORE) buffer.

(** The hours of a day that hold data. *)
Definition hour_valid (rec : HourlySummary.t) : bool :=
  0 <? HourlySummary.sampleCount rec.

Definition valid_hours (dayData : list HourlySummary.t) : list HourlySummary.t :=
  List.filter hour_valid dayData.

(** The sum of a field over the valid hours. *)
Definition sum_over (f : HourlySummary.t -> Z) (dayData : list HourlySummary.t) : Z :=
  sum_list (map f (valid_hours dayData)).

(** What the loop of [packWeekData] has computed once it has gone through
    the hours [done]: the sums and the number of the valid hours, the
    high-stress minutes modulo 256, the largest peak among the valid hours
    and the first hour that reaches it. *)
Definition stats_of (done : list HourlySummary.t) (s : DayStats.t) : Prop :=
  DayStats.stressSum s = sum_over HourlySummary.avgStress done /\
  DayStats.hrSum s = sum_over HourlySummary.avgHR done /\
  DayStats.hrvSum s = sum_over HourlySummary.avgHRV done /\
  DayStats.validHours s = Z.of_nat (length (valid_hours done)) /\
  DayStats.highMins s = sum_over HourlySummary.highStressMins done mod 256 /\
  (forall rec, In rec (valid_hours done) ->
               HourlySummary.peakStress rec <= DayStats.peakStress s) /\
  ((DayStats.peakStress s = 0 /\ DayStats.peakHour s = 0) \/
   (exists rec,
      done !! Z.to_nat (DayStats.peakHour s) = Some rec /\
      hour_valid rec = true /\
      HourlySummary.peakStress rec = DayStats.peakStress s /\
      forall h' rec', (h' < Z.to_nat (DayStats.peakHour s))%nat ->
                      done !! h' = Some rec' -> hour_valid rec' = true ->
                      HourlySummary.peakStress rec' < DayStats.peakStress s)).

(** The ten bytes [packWeekData] writes for day [d]. *)
Definition week_layout (d : Z) (s : DayStats.t) : list Z :=
  let valid := 0 <? DayStats.validHours s in
  [u8 d;
   u8 (if valid then DayStats.stressSum s / DayStats.validHours s else 0);
   DayStats.peakStress s; DayStats.peakHour s; DayStats.highMins s;
   u8 (if valid then DayStats.hrSum s / DayStats.validHours s else 0);
   u8 (if valid
       then Z.land (DayStats.hrvSum s / DayStats.validHours s) 255 else 0);
   u8 (if valid
       then Z.land (Z.shiftr (DayStats.hrvSum s / DayStats.validHours s) 8) 255
       else 0);
   0;
   if valid then 1 else 0].

(** A day in which hours 8 to 12 were spent entirely above the
    high-stress threshold. *)
Definition stressfulDay : list HourlySummary.t :=
  map (fun i =>
         if (8 <=? i)%nat && (i <=? 12)%nat
         then HourlySummary.mk (Z.of_nat i) 75 90 60 80 30 2000 3600 0
         else HourlySummary.empty (Z.of_nat i))
      (seq 0 24).

Definition stressfulWeek : Preferences :=
  mkPreferences (Some 0) (<[0 := stressfulDay]> ∅).

(** A scenario for the midnight transition with a synced clock: the sync
    command for 2024-06-15 23:30:00 arrives at tick 1000, one minute of
    samples is accumulated, and the hour is checked at the tick where the
    clock reads 00:00:00, then once per hour. *)
Definition syncedBeforeMidnight : Device :=
  with_hourAccum
    (HourlyAccumulator.mk 3000 4200 2400 120000 60 60 80 1 30 false 0)
    (onWrite [1; 232; 7; 6; 15; 23; 30; 0] 1000 1000 initialDevice).

Definition hourlyTicks (first : Z) (n : nat) : list Z :=
  map (fun k => first + 3600000 * Z.of_nat k) (seq 0 n).

(* ================================================================== *)
(** * Conversions from [float] to the integer types *)
(* ================================================================== *)

(** [(long)x] of a [float]: the fraction is discarded, towards zero. *)
Definition trunc (x : R) : Z :=
  if Rle_dec 0 x then Int_part x else - Int_part (- x).

(** [(uint8_t)x], [(uint16_t)x] and [(uint32_t)x] of a [float]. C defines
    the conversion only when the truncated value fits the target type; the
    wrap-around written here is what the RISC-V target does beyond that, and
    the theorems below state the ranges in which it is not reached. *)
Definition u8_of_float (x : R) : Z := u8 (trunc x).
Definition u16_of_float (x : R) : Z := u16 (trunc x).
Definition u32_of_float (x : R) : Z := u32 (trunc x).

(* ================================================================== *)
(** * Storage manager: start-up, erase, power-off *)
(* ================================================================== *)

(** [loadTodayData()]. *)
Definition loadTodayData (dev : Device) : Device :=
  let today :=
    match getBytes_day (preferences dev) (currentDay dev) with
    | Some blob => blob
    | None => emptyDay
    end in
  mkDevice (syncedTime dev) (lastSyncedDay dev) (currentHour dev)
           (currentDay dev) today (hourAccum dev) (preferences dev)
           (bleHistoryDirty dev).

(** [initStorage()]. *)
Definition initStorage (dev : Device) : Device :=
  let day := getUChar_currentDay (preferences dev) 0 in
  let dev :=
    mkDevice (syncedTime dev) (lastSyncedDay dev) (currentHour dev) day
             (todayData dev) (hourAccum dev) (preferences dev)
             (bleHistoryDirty dev) in
  with_hourAccum HourlyAccumulator.reset (loadTodayData dev).

(** The globals after a power cycle: their initialisers, then the part of
    [setup()] that touches them, [initStorage()], on the flash as the
    previous run left it. *)
Definition powerOn (flash : Preferences) : Device :=
  initStorage
    (mkDevice (SyncedTime.mk 0 0 0 1 1 2025 0 false) 0 (-1) 0
              (replicate 24 (HourlySummary.empty 0))
              (HourlyAccumulator.mk 0 0 0 0 0 0 0 0 0 false 0)
              flash true).

(** [preferences.remove("day" + String(d))]. *)
Definition remove_day (p : Preferences) (d : Z) : Preferences :=
  mkPreferences (pref_currentDay p) (delete d (pref_days p)).

(** [clearAllData()]. *)
Definition clearAllData (dev : Device) : Device :=
  let flash := fold_left remove_day (seqZ 0 DAYS_TO_STORE) (preferences dev) in
  mkDevice (syncedTime dev) (lastSyncedDay dev) (currentHour dev)
           (currentDay dev) emptyDay HourlyAccumulator.reset flash
           (bleHistoryDirty dev).

(** What [enterPowerOff()] does to the globals of the storage manager; the
    rest of it switches peripherals off. *)
Definition enterPowerOff (dev : Device) : Device :=
  if 0 <=? currentHour dev then saveHourlyData (currentHour dev) dev else dev.

(** The enumerators of [ActivityLevel] as integers. *)
Definition activity_code (a : ActivityLevel) : Z :=
  match a with STILL => 0 | LIGHT => 1 | ACTIVE => 2 | EXERCISE => 3 end.

(** [updateHourlyAccumulator()]. [inp] holds the sensor globals,
    [stressIndex] the data-path stress value, [millis] the tick that the
    call reads, directly or through [getCurrentTime]. The function writes
    [hourAccum] only, so its result is [with_hourAccum] of the new
    accumulator. *)
Definition updateHourlyAccumulator (calibrationComplete : bool)
    (inp : Sensors.t) (stressIndex : R) (millis : Z) (dev : Device) : Device :=
  if negb calibrationComplete then dev
  else
    let acc := hourAccum dev in
    let stressSum :=
      u32 (HourlyAccumulator.stressSum acc + u32_of_float stressIndex) in
    let gsrSum :=
      u32 (HourlyAccumulator.gsrSum acc
           + u32_of_float (Sensors.currentGSR inp)) in
    let hrValid := Sensors.hrSensorActive inp && (0 <? Sensors.currentHR inp) in
    let hrSum :=
      if hrValid
      then u32 (HourlyAccumulator.hrSum acc + u32 (Sensors.currentHR inp))
      else HourlyAccumulator.hrSum acc in
    let hrvSum :=
      if hrValid
      then u32 (HourlyAccumulator.hrvSum acc
                + u32_of_float (Sensors.currentHRV inp))
      else HourlyAccumulator.hrvSum acc in
    let hrSampleCount :=
      if hrValid then u16 (HourlyAccumulator.hrSampleCount acc + 1)
      else HourlyAccumulator.hrSampleCount acc in
    let activitySum :=
      u32 (HourlyAccumulator.activitySum acc
           + u32 (activity_code (Sensors.currentActivity inp))) in
    let sampleCount := u16 (HourlyAccumulator.sampleCount acc + 1) in
    let peakStress :=
      if HourlyAccumulator.peakStress acc <? u8_of_float stressIndex
      then u8_of_float stressIndex else HourlyAccumulator.peakStress acc in
    let currentMinute :=
      if SyncedTime.isValid (syncedTime dev)
      then let '(_, m, _) := getCurrentTime (syncedTime dev) millis in m
      else u8 ((millis / 60000) mod 60) in
    let minuteChanged := negb (currentMinute =? HourlyAccumulator.lastMinute acc) in
    let highStressMins :=
      if minuteChanged && HourlyAccumulator.highStressThisMinute acc
      then u8 (HourlyAccumulator.highStressMins acc + 1)
      else HourlyAccumulator.highStressMins acc in
    let flag :=
      if minuteChanged then false
      else HourlyAccumulator.highStressThisMinute acc in
    let lastMinute :=
      if minuteChanged then currentMinute
      else HourlyAccumulator.lastMinute acc in
    let highStressThisMinute :=
      if Rgt_dec stressIndex 70 then true else flag in
    with_hourAccum
      (HourlyAccumulator.mk stressSum hrSum hrvSum gsrSum sampleCount
                            hrSampleCount peakStress highStressMins lastMinute
                            highStressThisMinute activitySum)
      dev.

(** One reading handed to [updateHourlyAccumulator]. *)
Module Reading.
Record t := mk {
  calibrationComplete : bool;
  sensors : Sensors.t;
  stressIndex : R;
  millis : Z
}.
End Reading.

Definition accumulate (dev : Device) (r : Reading.t) : Device :=
  updateHourlyAccumulator (Reading.calibrationComplete r) (Reading.sensors r)
                          (Reading.stressIndex r) (Reading.millis r) dev.

(** What happens to the globals of the storage manager while the firmware
    runs: a write to the command characteristic, a one-second accumulator
    update, an hour check, a power-off by the button, and a power cycle,
    after which [setup()] starts from the flash. Sequences of operations
    are not restricted to the order in which [loop()] issues them; what
    holds after all sequences holds after those. *)
Inductive Operation :=
| Command (value : list Z) (millis1 millis2 : Z)
| Accumulate (r : Reading.t)
| HourCheck (millis : Z)
| PowerOff
| PowerCycle.

Definition operate (dev : Device) (op : Operation) : Device :=
  match op with
  | Command value millis1 millis2 => onWrite value millis1 millis2 dev
  | Accumulate r => accumulate dev r
  | HourCheck millis => checkHourChange millis dev
  | PowerOff => enterPowerOff dev
  | PowerCycle => powerOn (preferences dev)
  end.

Definition run_device (ops : list Operation) (dev : Device) : Device :=
  fold_left operate ops dev.

(** A day of summaries as the arrays hold it: 24 records, the record at
    index [i] carrying hour [i]. *)
Definition day_shape (day : list HourlySummary.t) : Prop :=
  length day = 24%nat /\
  forall i rec, day !! i = Some rec -> HourlySummary.hour rec = Z.of_nat i.

(** What holds of the storage globals and of the flash in every state. *)
Definition storage_ok (dev : Device) : Prop :=
  0 <= currentDay dev < DAYS_TO_STORE /\
  -1 <= currentHour dev < HOURS_PER_DAY /\
  day_shape (todayData dev) /\
  getUChar_currentDay (preferences dev) 0 = currentDay dev /\
  forall d blob, pref_days (preferences dev) !! d = Some blob ->
                 0 <= d < DAYS_TO_STORE /\ day_shape blob.

(** A device at hour 23 of day 0, never synced, whose flash still holds
    under day 1 the data recorded a week earlier. *)
Definition weekOldDevice : Device :=
  mkDevice (SyncedTime.mk 0 0 0 1 1 2025 0 false) 0 23 0 emptyDay
           HourlyAccumulator.reset
           (mkPreferences (Some 0) (<[1 := sampleDay]> ∅)) true.

(** The fields of a synced clock are a calendar time of day. *)
Definition clock_ok (t : SyncedTime.t) : Prop :=
  SyncedTime.isValid t = true ->
  SyncedTime.hour t < 24 /\ SyncedTime.minute t < 60 /\
  SyncedTime.second t < 60 /\
  1 <= SyncedTime.day t <= 31 /\ 1 <= SyncedTime.month t <= 12 /\
  2024 <= SyncedTime.year t <= 2100.

(** A reading whose values lie where the sensors put them: a stress index
    in percent, and HRV and GSR values that fit 16 bits. *)
Definition reading_ok (r : Reading.t) : Prop :=
  (0 <= Reading.stressIndex r <= 100)%R /\
  (0 <= Sensors.currentHRV (Reading.sensors r) <= 65535)%R /\
  (0 <= Sensors.currentGSR (Reading.sensors r) <= 65535)%R /\
  is_u8 (Sensors.currentHR (Reading.sensors r)).

(** A reading for the examples: calibrated, heart sensor active, 72 BPM,
    a stress index of 55 percent. *)
Definition sampleReading : Reading.t :=
  Reading.mk true (Sensors.mk true 25 40 50 STILL 2000 2000 72 0) 55 1000.

(** The accumulator while its counters have not wrapped: every sum is
    bounded by the count of its samples times the largest sample. *)
Definition accum_ok (acc : HourlyAccumulator.t) : Prop :=
  0 <= HourlyAccumulator.hrSampleCount acc <= HourlyAccumulator.sampleCount acc /\
  HourlyAccumulator.sampleCount acc <= 65535 /\
  0 <= HourlyAccumulator.peakStress acc <= 100 /\
  0 <= HourlyAccumulator.stressSum acc
    <= HourlyAccumulator.peakStress acc * HourlyAccumulator.sampleCount acc /\
  0 <= HourlyAccumulator.hrSum acc <= 255 * HourlyAccumulator.hrSampleCount acc /\
  0 <= HourlyAccumulator.hrvSum acc <= 65535 * HourlyAccumulator.hrSampleCount acc /\
  0 <= HourlyAccumulator.gsrSum acc <= 65535 * HourlyAccumulator.sampleCount acc /\
  0 <= HourlyAccumulator.activitySum acc <= 3 * HourlyAccumulator.sampleCount acc /\
  is_u8 (HourlyAccumulator.highStressMins acc).

(* ================================================================== *)
(** * Stress fusion engine: activity caps *)
(* ================================================================== *)


(* ================================================================== *)
(** * History characteristics *)
(* ================================================================== *)

(** The storage globals with the two transmit buffers. *)
Module History.
Record t := mk {
  device : Device;
  bleTodayBuffer : list Z;   (* uint8_t[240] *)
  bleWeekBuffer : list Z     (* uint8_t[70] *)
}.
End History.

(** [WeekReadCallback::onRead]: the state it leaves and the value it sets
    on the characteristic. *)
Definition weekOnRead (st : History.t) : History.t * list Z :=
  let dev := History.device st in
  if bleHistoryDirty dev then
    let buffer := packWeekData (preferences dev) (History.bleWeekBuffer st) in
    (History.mk
       (mkDevice (syncedTime dev) (lastSyncedDay dev) (currentHour dev)
                 (currentDay dev) (todayData dev) (hourAccum dev)
                 (preferences dev) false)
       (History.bleTodayBuffer st) buffer,
     buffer)
  else (st, History.bleWeekBuffer st).

(** What happens to the history state: a storage operation, or a read of
    the week characteristic. *)
Inductive HistoryEvent :=
| Storage (op : Operation)
| WeekRead.

Definition history_step (st : History.t) (ev : HistoryEvent) : History.t :=
  match ev with
  | Storage PowerCycle =>
      History.mk (powerOn (preferences (History.device st)))
                 (replicate 240 0) (replicate 70 0)
  | Storage op =>
      History.mk (operate (History.device st) op)
                 (History.bleTodayBuffer st) (History.bleWeekBuffer st)
  | WeekRead => fst (weekOnRead st)
  end.

Definition run_history (evs : list HistoryEvent) (st : History.t) : History.t :=
  fold_left history_step evs st.

Definition initialHistory : History.t :=
  History.mk initialDevice (replicate 240 0) (replicate 70 0).

(** A state in which the week record has been read since the last hour
    change (the dirty flag is clear), one hour into the day, with a minute
    of samples accumulated. *)
Definition cachedHistory : History.t :=
  History.mk
    (mkDevice (SyncedTime.mk 0 0 0 1 1 2025 0 false) 0 1 0 emptyDay
              (HourlyAccumulator.mk 3000 4200 2400 120000 60 60 80 1 30 false 0)
              (mkPreferences None ∅) false)
    (replicate 240 0)
    (concat (map (fun d => [d; 0; 0; 0; 0; 0; 0; 0; 0; 0]) (seqZ 0 7))).

(** The week buffer is a faithful cache: 70 bytes, and equal to the pack
    of the flash whenever the dirty flag is clear. *)
Definition cache_ok (st : History.t) : Prop :=
  length (History.bleWeekBuffer st) = 70%nat /\
  (bleHistoryDirty (History.device st) = false ->
   History.bleWeekBuffer st
   = packWeekData (preferences (History.device st)) (History.bleWeekBuffer st)).

(** The week record of a flash content: the seven day entries in order. *)
Definition week_record (p : Preferences) : list Z :=
  concat (map (fun d => week_layout d (aggregate_day (getBytes_day p d)))
              (seqZ 0 DAYS_TO_STORE)).

(* ================================================================== *)
(** * Heart-rate sampling *)
(* ================================================================== *)

Definition IR_BUFFER_SIZE : Z := 128.

(** The globals of [updateHeartRate] with those of the beat detector. *)
Module Heart.
Record t := mk {
  irBuffer : list Z;       (* long[IR_BUFFER_SIZE] *)
  irBufferIndex : Z;       (* int *)
  maxValue : Z;            (* long *)
  minValue : Z;            (* long *)
  rawIR : Z;               (* long *)
  lastIRRead : Z;          (* static unsigned long *)
  currentHR : Z;           (* uint8_t *)
  beat : Beat.t
}.
End Heart.

Definition initialHeart : Heart.t :=
  Heart.mk (replicate 128 0) 0 0 100000 0 0 0 initialBeat.

(** The scan of the IR buffer: [(maxValue, minValue)] after the loop. *)
Definition ir_range (irBuffer : list Z) : Z * Z :=
  fold_left
    (fun (acc : Z * Z) i =>
       let v := at_index 0 irBuffer i in
       let maxValue := if fst acc <? v then v else fst acc in
       let minValue := if (v <? snd acc) && (0 <? v) then v else snd acc in
       (maxValue, minValue))
    (seqZ 0 IR_BUFFER_SIZE)
    (at_index 0 irBuffer 0, at_index 0 irBuffer 0).

(** [updateHeartRate()]. [currentMillis] is the tick the function reads on
    entry, [irValue] the sample the sensor returns and [currentTime] the
    tick read inside [detectPeakAndCalculateBPM]. *)
Definition updateHeartRate (currentMillis irValue currentTime : Z)
    (st : Heart.t) : Heart.t :=
  if 20 <=? u32 (currentMillis - Heart.lastIRRead st) then
    let irBuffer :=
      set_index (Heart.irBuffer st) (Heart.irBufferIndex st) irValue in
    let irBufferIndex := Z.rem (Heart.irBufferIndex st + 1) IR_BUFFER_SIZE in
    let scanned := ir_range irBuffer in
    let minValue := snd scanned in
    let maxValue :=
      if fst scanned =? minValue then minValue + 1 else fst scanned in
    let beat :=
      detectPeakAndCalculateBPM irValue currentTime minValue maxValue
                                (Heart.beat st) in
    Heart.mk irBuffer irBufferIndex maxValue minValue irValue currentMillis
             (u8_of_float (Beat.currentBPM beat)) beat
  else st.

(** The reset of the heart-rate globals in [wakeFromPowerOff] (taken when
    the sensor is active). *)
Definition wakeHeart (st : Heart.t) : Heart.t :=
  Heart.mk (replicate 128 0) 0 0 100000 (Heart.rawIR st) (Heart.lastIRRead st)
           0 (resetDetector (Heart.beat st)).

Inductive HeartTick :=
| IRSample (currentMillis irValue currentTime : Z)
| Wake.

Definition heart_tick (st : Heart.t) (ev : HeartTick) : Heart.t :=
  match ev with
  | IRSample currentMillis irValue currentTime =>
      updateHeartRate currentMillis irValue currentTime st
  | Wake => wakeHeart st
  end.

Definition run_heart_rate (evs : list HeartTick) (st : Heart.t) : Heart.t :=
  fold_left heart_tick evs st.

(** The values [currentBPM] takes: no reading, or a rate within the
    accepted band. *)
Definition bpm_ok (bpm : R) : Prop := (bpm = 0 \/ 40 <= bpm <= 200)%R.

(** The differences [RR(i+1) - RR(i)] that [calculateRMSSD] squares. *)
Fixpoint successive_differences (l : list Z) : list Z :=
  match l with
  | x :: (y :: _) as tl => (y - x) :: successive_differences tl
  | _ => []
  end.

(** The range of the HRV globals. *)
Definition hrv_range (h : HRV.t) : Prop :=
  (0 <= HRV.currentHRV h <= 1700)%R /\ (0 < HRV.longTermHRV h <= 1700)%R.

(** A run of samples none of which is lower than the one before it,
    starting at level [prev]. *)
Fixpoint non_falling (prev : Z) (evs : list HeartEvent) : Prop :=
  match evs with
  | [] => True
  | Sample irValue _ _ _ :: rest => prev <= irValue /\ non_falling irValue rest
  | WakeUp :: _ => False
  end.

(** The sampling globals in any state: a full IR buffer and a cursor
    inside it. *)
Definition ir_ok (st : Heart.t) : Prop :=
  length (Heart.irBuffer st) = 128%nat /\
  0 <= Heart.irBufferIndex st < IR_BUFFER_SIZE.

(* ================================================================== *)
(** * Skin-conductance sampling *)
(* ================================================================== *)

Definition GSR_BUFFER_SIZE : Z := 50.
Definition GSR_ALPHA : R := 0.01%R.

Module GSR.
Record t := mk {
  gsrBuffer : list Z;   (* int[GSR_BUFFER_SIZE] *)
  gsrHead : Z;          (* int *)
  gsrCount : Z;         (* int *)
  currentGSR : R;       (* float *)
  baselineGSR : R;      (* float *)
  rawGSR : Z            (* int *)
}.
End GSR.

(** The GSR globals when calibration ends with the given baseline. *)
Definition initialGSR (baseline : R) : GSR.t :=
  GSR.mk (replicate 50 0) 0 0 0%R baseline 0.

(** [updateGSR()]; [reading] is the value [analogRead] returns. *)
Definition updateGSR (reading : Z) (st : GSR.t) : GSR.t :=
  let gsrBuffer := set_index (GSR.gsrBuffer st) (GSR.gsrHead st) reading in
  let gsrHead := Z.rem (GSR.gsrHead st + 1) GSR_BUFFER_SIZE in
  let gsrCount :=
    if GSR.gsrCount st <? GSR_BUFFER_SIZE then GSR.gsrCount st + 1
    else GSR.gsrCount st in
  let sum :=
    fold_left (fun sum i => sum + at_index 0 gsrBuffer i) (seqZ 0 gsrCount) 0 in
  let currentGSR := (IZR sum / IZR gsrCount)%R in
  let baselineGSR :=
    (GSR_ALPHA * currentGSR + (1.0 - GSR_ALPHA) * GSR.baselineGSR st)%R in
  GSR.mk gsrBuffer gsrHead gsrCount currentGSR baselineGSR reading.

Definition feed_gsr (readings : list Z) (st : GSR.t) : GSR.t :=
  fold_left (fun s r => updateGSR r s) readings st.

(** The arithmetic mean of a list of readings. *)
Definition mean (l : list Z) : R :=
  (IZR (sum_list l) / IZR (Z.of_nat (length l)))%R.

(** The globals of the GSR calibration. *)
Module Calibration.
Record t := mk {
  calibrationComplete : bool;
  calibrationStartTime : Z;   (* unsigned long *)
  lastGSRSampleTime : Z;      (* unsigned long *)
  calibrationSum : Z;         (* long *)
  calibrationReadings : Z;    (* int *)
  baselineGSR : R;            (* float *)
  rawGSR : Z                  (* int *)
}.
End Calibration.

(** The calibration globals when [setup()] returns at tick [start]. *)
Definition initialCalibration (start : Z) : Calibration.t :=
  Calibration.mk false start 0 0 0 0%R 0.

(** The calibration block at the head of [loop()]. [currentMillis] is the
    tick of the pass, [reading] the value [analogRead] returns when the
    block samples the sensor. *)
Definition calibrate (st : Calibration.t) (pass : Z * Z) : Calibration.t :=
  let '(currentMillis, reading) := pass in
  if Calibration.calibrationComplete st then st
  else if u32 (currentMillis - Calibration.calibrationStartTime st) <? 5000 then
    if 20 <=? u32 (currentMillis - Calibration.lastGSRSampleTime st) then
      Calibration.mk false (Calibration.calibrationStartTime st) currentMillis
                     (Calibration.calibrationSum st + reading)
                     (Calibration.calibrationReadings st + 1)
                     (Calibration.baselineGSR st) reading
    else st
  else
    Calibration.mk true (Calibration.calibrationStartTime st)
                   (Calibration.lastGSRSampleTime st)
                   (Calibration.calibrationSum st)
                   (Calibration.calibrationReadings st)
                   (if 0 <? Calibration.calibrationReadings st
                    then (IZR (Calibration.calibrationSum st)
                          / IZR (Calibration.calibrationReadings st))%R
                    else Calibration.baselineGSR st)
                   (Calibration.rawGSR st).

Definition run_calibration (passes : list (Z * Z)) (st : Calibration.t)
  : Calibration.t :=
  fold_left calibrate passes st.

(** Passes of the loop at ticks that do not go back and do not wrap,
    starting at [prev], with readings in [[0, hi]]. *)
Fixpoint ascending (hi prev : Z) (passes : list (Z * Z)) : Prop :=
  match passes with
  | [] => True
  | (tick, reading) :: rest =>
      prev <= tick < 4294967296 /\ 0 <= reading <= hi /\ ascending hi tick rest
  end.

(** What holds of the calibration globals after a pass at tick [now]. *)
Definition calibration_ok (hi now : Z) (st : Calibration.t) : Prop :=
  0 <= Calibration.calibrationStartTime st <= now /\
  0 <= Calibration.lastGSRSampleTime st <= now /\
  0 <= Calibration.calibrationReadings st <= 250 /\
  0 <= Calibration.calibrationSum st <= hi * Calibration.calibrationReadings st /\
  (0 < Calibration.calibrationReadings st ->
   Calibration.calibrationStartTime st
   + 20 * (Calibration.calibrationReadings st - 1)
   <= Calibration.lastGSRSampleTime st
   < Calibration.calibrationStartTime st + 5000) /\
  (0 <= Calibration.baselineGSR st <= IZR hi)%R.

(* ================================================================== *)
(** * Motion *)
(* ================================================================== *)

Definition MOTION_BUFFER_SIZE : Z := 50.

Module Motion.
Record t := mk {
  motionBuffer : list R;          (* float[MOTION_BUFFER_SIZE] *)
  motionBufferIndex : Z;          (* int *)
  motionVariance : R;             (* float *)
  lastMotionUpdate : Z;           (* unsigned long *)
  motionDetected : bool;
  currentActivity : ActivityLevel
}.
End Motion.

(** The motion globals as [initMPU] leaves them when the sensor is ready
    (the only case in which [updateMotion] runs): the buffer is filled with
    1 g. *)
Definition initialMotion : Motion.t :=
  Motion.mk (replicate 50 1%R) 0 0%R 0 false STILL.

(** [updateMotion()]; [ax], [ay], [az] are the accelerations the sensor
    returns. *)
Definition updateMotion (currentMillis : Z) (ax ay az : R) (st : Motion.t)
  : Motion.t :=
  if u32 (currentMillis - Motion.lastMotionUpdate st) <? 20 then st
  else
    let accelMag := sqrt (ax * ax + ay * ay + az * az) in
    let motionBuffer :=
      set_index (Motion.motionBuffer st) (Motion.motionBufferIndex st) accelMag in
    let motionBufferIndex :=
      Z.rem (Motion.motionBufferIndex st + 1) MOTION_BUFFER_SIZE in
    let sums :=
      fold_left
        (fun (acc : R * R) i =>
           let v := at_index 0%R motionBuffer i in
           (fst acc + v, snd acc + v * v)%R)
        (seqZ 0 MOTION_BUFFER_SIZE) (0%R, 0%R) in
    let mean := (fst sums / IZR MOTION_BUFFER_SIZE)%R in
    let motionVariance := (snd sums / IZR MOTION_BUFFER_SIZE - mean * mean)%R in
    Motion.mk motionBuffer motionBufferIndex motionVariance currentMillis
              (if Rgt_dec motionVariance 0.02 then true else false)
              (Motion.currentActivity st).

(** The classification of [updateActivityLevel()]. *)
Definition activity_of (motionVariance : R) : ActivityLevel :=
  if Rlt_dec motionVariance 0.005 then STILL
  else if Rlt_dec motionVariance 0.03 then LIGHT
  else if Rlt_dec motionVariance 0.15 then ACTIVE
  else EXERCISE.

(** [updateActivityLevel()]. *)
Definition updateActivityLevel (st : Motion.t) : Motion.t :=
  Motion.mk (Motion.motionBuffer st) (Motion.motionBufferIndex st)
            (Motion.motionVariance st) (Motion.lastMotionUpdate st)
            (Motion.motionDetected st) (activity_of (Motion.motionVariance st)).

(** The motion part of one pass of [loop()]:
    [updateMotion(); updateActivityLevel();]. *)
Definition motion_cycle (st : Motion.t) (sample : Z * (R * R * R)) : Motion.t :=
  let '(currentMillis, (ax, ay, az)) := sample in
  updateActivityLevel (updateMotion currentMillis ax ay az st).

Definition run_motion (samples : list (Z * (R * R * R))) (st : Motion.t)
  : Motion.t :=
  fold_left motion_cycle samples st.

(* ================================================================== *)
(** * Live packet *)
(* ================================================================== *)

(** The globals [updateBLEData] reads. *)
Module Live.
Record t := mk {
  deviceConnected : bool;
  stressIndex : R;
  currentHR : Z;              (* uint8_t *)
  currentHRV : R;
  currentGSR : R;
  hrSensorActive : bool;
  calibrationComplete : bool;
  motionDetected : bool;
  currentActivity : ActivityLevel;
  mpuReady : bool
}.
End Live.

(** The status byte of the live packet. *)
Definition status_byte (st : Live.t) : Z :=
  u8 (Z.lor
        (Z.lor
           (Z.lor
              (Z.lor (if Live.hrSensorActive st then 1 else 0)
                     (if Live.calibrationComplete st then 2 else 0))
              (if Live.motionDetected st then 4 else 0))
           (Z.shiftl (Z.land (activity_code (Live.currentActivity st)) 3) 3))
        (if Live.mpuReady st then 128 else 0)).

(** [updateBLEData()]: the seven bytes it notifies, or nothing when no
    client is connected. *)
Definition updateBLEData (st : Live.t) : option (list Z) :=
  if negb (Live.deviceConnected st) then None
  else
    Some [u8_of_float (constrain (Live.stressIndex st) 0 100);
          Live.currentHR st;
          u8 (Z.land (u16_of_float (Live.currentHRV st)) 255);
          u8 (Z.land (Z.shiftr (u16_of_float (Live.currentHRV st)) 8) 255);
          u8 (Z.land (u16_of_float (Live.currentGSR st)) 255);
          u8 (Z.land (Z.shiftr (u16_of_float (Live.currentGSR st)) 8) 255);
          status_byte st].

(* ================================================================== *)
(** * Button and power state *)
(* ================================================================== *)

(** [enum State] and the two levels [digitalRead] returns. *)
Inductive State := DASHBOARD | BREATHE | INFO.
Inductive Level := LOW | HIGH.

Definition level_eqb (a b : Level) : bool :=
  match a, b with
  | LOW, LOW | HIGH, HIGH => true
  | _, _ => false
  end.

Definition is_INFO (s : State) : bool :=
  match s with INFO => true | _ => false end.

(** The UI globals the button block of [loop()] reads and writes. *)
Module Button.
Record t := mk {
  currentState : State;
  buttonState : Level;              (* int *)
  lastButtonState : Level;          (* int *)
  lastDebounceTime : Z;             (* unsigned long *)
  buttonPressStartTime : Z;         (* unsigned long *)
  buttonHeldForPowerOff : bool;
  devicePoweredOff : bool
}.
End Button.

(** The power function the button block calls, if any. *)
Inductive PowerAction := CallEnterPowerOff | CallWakeFromPowerOff.

(** The UI globals when [setup()] returns at tick [start]. *)
Definition initialButton (start : Z) : Button.t :=
  Button.mk DASHBOARD HIGH HIGH start 0 false false.

(** One pass of [loop()] through the button block. [systemReady] is the
    flag the calibration block sets, [currentMillis] the tick of the pass
    and [reading] the level of the button pin. The result holds the globals
    after the block, [devicePoweredOff] as [enterPowerOff] or
    [wakeFromPowerOff] leaves it, and the power function that was called. *)
Definition handleButton (systemReady : bool) (currentMillis : Z)
    (reading : Level) (st : Button.t) : Button.t * option PowerAction :=
  if negb systemReady then (st, None)
  else
    let lastDebounceTime :=
      if negb (level_eqb reading (Button.lastButtonState st))
      then currentMillis else Button.lastDebounceTime st in
    if 50 <? u32 (currentMillis - lastDebounceTime) then
      let changed := negb (level_eqb reading (Button.buttonState st)) in
      let buttonState := if changed then reading else Button.buttonState st in
      let pressed := changed && level_eqb buttonState LOW in
      let released := changed && level_eqb buttonState HIGH in
      let buttonPressStartTime :=
        if pressed then currentMillis else Button.buttonPressStartTime st in
      let held :=
        if pressed then false else Button.buttonHeldForPowerOff st in
      let currentState :=
        if released
           && (u32 (currentMillis - buttonPressStartTime) <? 10000)
           && negb (Button.devicePoweredOff st)
        then
          match Button.currentState st with
          | INFO => DASHBOARD
          | DASHBOARD => BREATHE
          | BREATHE => DASHBOARD
          end
        else Button.currentState st in
      if level_eqb buttonState LOW
         && (10000 <=? u32 (currentMillis - buttonPressStartTime))
         && negb held
      then
        if Button.devicePoweredOff st then
          (Button.mk currentState buttonState reading lastDebounceTime
                     buttonPressStartTime true false,
           Some CallWakeFromPowerOff)
        else if is_INFO currentState then
          (Button.mk currentState buttonState reading lastDebounceTime
                     buttonPressStartTime true true,
           Some CallEnterPowerOff)
        else
          (Button.mk INFO buttonState reading lastDebounceTime
                     buttonPressStartTime true false,
           None)
      else
        (Button.mk currentState buttonState reading lastDebounceTime
                   buttonPressStartTime held (Button.devicePoweredOff st),
         None)
    else
      (Button.mk (Button.currentState st) (Button.buttonState st) reading
                 lastDebounceTime (Button.buttonPressStartTime st)
                 (Button.buttonHeldForPowerOff st) (Button.devicePoweredOff st),
       None).

(** The button block over successive passes, each given as
    [(systemReady, currentMillis, reading)]. *)
Definition button_pass (st : Button.t) (pass : bool * Z * Level) : Button.t :=
  let '(systemReady, currentMillis, reading) := pass in
  fst (handleButton systemReady currentMillis reading st).

Definition run_buttons (passes : list (bool * Z * Level)) (st : Button.t)
  : Button.t :=
  fold_left button_pass passes st.


(* ================================================================== *)
(** * Theorems *)
(* ================================================================== *)

(** ** Time synchroniser *)

Lemma u32_small (x : Z) : 0 <= x < 4294967296 -> u32 x = x.
Proof. intros H. unfold u32. apply Z.mod_small. exact H. Qed.

Lemma u8_small (x : Z) : 0 <= x < 256 -> u8 x = x.
Proof. intros H. unfold u8. apply Z.mod_small. exact H. Qed.

Lemma u16_small (x : Z) : 0 <= x < 65536 -> u16 x = x.
Proof. intros H. unfold u16. apply Z.mod_small. exact H. Qed.

(** The two branches of the rollover test compute the same thing: the
    difference of the ticks modulo [2^32]. *)
Lemma elapsed_modular (sync now : Z) :
  is_u32 sync -> is_u32 now ->
  (if sync <=? now then u32 (now - sync)
   else u32 (u32 (u32 (4294967295 - sync) + now) + 1))
  = (now - sync) mod 4294967296.
Proof.
  unfold is_u32. intros Hs Hn.
  destruct (Z.leb_spec sync now) as [Hle | Hlt].
  - reflexivity.
  - rewrite (u32_small (4294967295 - sync)) by lia.
    rewrite (u32_small (4294967295 - sync + now)) by lia.
    unfold u32.
    replace (4294967295 - sync + now + 1) with (now - sync + 1 * 4294967296) by lia.
    rewrite Z.mod_add by lia. reflexivity.
Qed.

(** Carrying seconds into minutes and minutes into hours is the same as
    splitting the total number of seconds since midnight. *)
Lemma carry_chain (h m s e : Z) :
  0 <= s -> 0 <= e -> 0 <= m ->
  let total := h * 3600 + m * 60 + s + e in
  (s + e) mod 60 = total mod 60 /\
  (m + (s + e) / 60) mod 60 = (total / 60) mod 60 /\
  (h + (m + (s + e) / 60) / 60) mod 24 = (total / 3600) mod 24.
Proof.
  intros Hs He Hm total. subst total.
  assert (E1 : (h * 3600 + m * 60 + s + e) / 60 = h * 60 + m + (s + e) / 60).
  { replace (h * 3600 + m * 60 + s + e) with ((s + e) + (h * 60 + m) * 60) by lia.
    rewrite Z.div_add by lia. lia. }
  assert (E2 : (h * 3600 + m * 60 + s + e) / 3600 = h + (m + (s + e) / 60) / 60).
  { replace 3600 with (60 * 60) at 2 by reflexivity.
    rewrite <- Z.div_div by lia. rewrite E1.
    replace (h * 60 + m + (s + e) / 60) with ((m + (s + e) / 60) + h * 60) by lia.
    rewrite Z.div_add by lia. lia. }
  repeat split.
  - replace (h * 3600 + m * 60 + s + e) with ((s + e) + (h * 60 + m) * 60) by lia.
    rewrite Z.mod_add by lia. reflexivity.
  - rewrite E1.
    replace (h * 60 + m + (s + e) / 60) with ((m + (s + e) / 60) + h * 60) by lia.
    rewrite Z.mod_add by lia. reflexivity.
  - rewrite E2. reflexivity.
Qed.

(** C7. Before a sync [getCurrentTime] reports 0:0:0. After a sync it
    reports the synced wall clock advanced by the whole seconds elapsed since
    the sync tick, the elapsed ticks being [(now - sync) mod 2^32] whether or
    not the counter has wrapped below the sync tick; seconds carry into
    minutes, minutes into hours, and the hour is reduced modulo 24. The
    function returns only hour, minute and second, so nothing is carried
    into the date. *)
Theorem getCurrentTime_spec (s : SyncedTime.t) (now : Z) :
  is_u8 (SyncedTime.hour s) -> is_u8 (SyncedTime.minute s) ->
  is_u8 (SyncedTime.second s) -> is_u32 (SyncedTime.millisAtSync s) ->
  is_u32 now ->
  getCurrentTime s now =
    if SyncedTime.isValid s then
      let elapsedMillis := (now - SyncedTime.millisAtSync s) mod 4294967296 in
      let total := SyncedTime.hour s * 3600 + SyncedTime.minute s * 60
                   + SyncedTime.second s + elapsedMillis / 1000 in
      ((total / 3600) mod 24, (total / 60) mod 60, total mod 60)
    else (0, 0, 0).
Proof.
  intros Hh Hm Hs Hsync Hnow. unfold getCurrentTime.
  destruct (SyncedTime.isValid s); [cbn [negb] | reflexivity].
  rewrite elapsed_modular by assumption.
  set (e := ((now - SyncedTime.millisAtSync s) mod 4294967296) / 1000).
  assert (He : 0 <= e < 4294968).
  { subst e. pose proof (Z.mod_pos_bound (now - SyncedTime.millisAtSync s) 4294967296).
    split; [apply Z.div_pos; lia | apply Z.div_lt_upper_bound; lia]. }
  unfold is_u8 in *.
  set (sec := SyncedTime.second s) in *.
  set (mi := SyncedTime.minute s) in *.
  set (ho := SyncedTime.hour s) in *.
  rewrite (u32_small (sec + e)) by lia.
  assert (Hq : 0 <= (sec + e) / 60 < 4294967296 - 256).
  { split; [apply Z.div_pos; lia | apply Z.div_lt_upper_bound; lia]. }
  rewrite (u32_small (mi + (sec + e) / 60)) by lia.
  assert (Hq2 : 0 <= (mi + (sec + e) / 60) / 60 < 4294967296 - 256).
  { split; [apply Z.div_pos; lia | apply Z.div_lt_upper_bound; lia]. }
  rewrite (u32_small (ho + (mi + (sec + e) / 60) / 60)) by lia.
  rewrite !u8_small
    by (match goal with |- 0 <= ?a mod ?b < _ =>
          pose proof (Z.mod_pos_bound a b); lia end).
  destruct (carry_chain ho mi sec e) as (E1 & E2 & E3); try lia.
  cbv zeta. rewrite E1, E2, E3. reflexivity.
Qed.

(** The theorem at a sync of 23:59:58 taken at tick [2^32 - 500], read
    back 2.5 s later, after the tick counter has wrapped to 2000. *)
Lemma getCurrentTime_spec_witness :
  let s := SyncedTime.mk 23 59 58 15 6 2024 4294966796 true in
  is_u32 2000 /\
  getCurrentTime s 2000 =
    if SyncedTime.isValid s then
      let elapsedMillis := (2000 - SyncedTime.millisAtSync s) mod 4294967296 in
      let total := SyncedTime.hour s * 3600 + SyncedTime.minute s * 60
                   + SyncedTime.second s + elapsedMillis / 1000 in
      ((total / 3600) mod 24, (total / 60) mod 60, total mod 60)
    else (0, 0, 0).
Proof.
  intros s. split; [unfold is_u32; lia |].
  apply (getCurrentTime_spec s 2000); subst s; cbn; unfold is_u8, is_u32; lia.
Defined.

(** ** Inbound commands *)

Lemma bytes_at_index (value : list Z) (i : Z) :
  bytes value -> is_u8 (at_index 0 value i).
Proof.
  intros Hb. unfold at_index.
  destruct (value !! Z.to_nat i) as [b |] eqn:E; cbn.
  - eapply Forall_lookup_1; eauto.
  - unfold is_u8. lia.
Qed.

Lemma land_shifted_byte (lo hi : Z) :
  is_u8 lo -> Z.land (hi * 256) lo = 0.
Proof.
  unfold is_u8. intros Hlo.
  change 256 with (2 ^ 8). rewrite <- Z.shiftl_mul_pow2 by lia.
  apply Z.bits_inj'. intros n Hn. rewrite Z.land_spec, Z.bits_0.
  destruct (Z.ltb_spec n 8).
  - rewrite Z.shiftl_spec_low by lia. reflexivity.
  - rewrite (Z.bits_above_log2 lo n); [apply andb_false_r | lia |].
    destruct (Z.eq_dec lo 0) as [-> | Hne]; [cbn; lia |].
    apply Z.lt_le_trans with 8; [| lia].
    apply Z.log2_lt_pow2; [lia | change (2 ^ 8) with 256; lia].
Qed.

(** Little-endian assembly: [(hi << 8) | lo] is [lo + 256 * hi]. *)
Lemma lor_shifted_byte (lo hi : Z) :
  is_u8 lo -> Z.lor (hi * 256) lo = lo + 256 * hi.
Proof.
  intros Hlo. pose proof (land_shifted_byte lo hi Hlo) as L.
  rewrite <- Z.lxor_lor by exact L.
  rewrite <- Z.add_nocarry_lxor by exact L. lia.
Qed.

Lemma year_le (lo hi : Z) :
  is_u8 lo -> is_u8 hi ->
  u16 (Z.lor (Z.shiftl (u16 hi) 8) (u16 lo)) = lo + 256 * hi.
Proof.
  intros Hlo Hhi. pose proof Hlo as Hlo'. pose proof Hhi as Hhi'.
  unfold is_u8 in Hlo', Hhi'.
  rewrite (u16_small hi), (u16_small lo) by lia.
  rewrite Z.shiftl_mul_pow2 by lia. change (2 ^ 8) with 256.
  rewrite lor_shifted_byte by assumption. apply u16_small. lia.
Qed.

(** Evaluates the array reads at concrete lists and indices. *)
Ltac compute_reads :=
  repeat match goal with
  | |- context [@at_index ?A ?d ?l ?i] =>
      let v := eval vm_compute in (@at_index A d l i) in
      change (@at_index A d l i) with v
  end.

Ltac solve_bytes :=
  unfold bytes;
  repeat (apply List.Forall_cons; [unfold is_u8; lia |]); apply List.Forall_nil.

(** The validation test of [onWrite], on the decoded fields. *)
Lemma sync_validation_reflect (value : list Z) :
  bytes value ->
  let year := u16 (Z.lor (Z.shiftl (u16 (at_index 0 value 2)) 8)
                         (u16 (at_index 0 value 1))) in
  ((2024 <=? year) && (year <=? 2100) &&
   (1 <=? u8 (at_index 0 value 3)) && (u8 (at_index 0 value 3) <=? 12) &&
   (1 <=? u8 (at_index 0 value 4)) && (u8 (at_index 0 value 4) <=? 31) &&
   (u8 (at_index 0 value 5) <? 24) && (u8 (at_index 0 value 6) <? 60) &&
   (u8 (at_index 0 value 7) <? 60)) = true
  <-> sync_fields_valid value.
Proof.
  intros Hb year. subst year.
  rewrite year_le by (apply bytes_at_index; exact Hb).
  rewrite !u8_small by (apply bytes_at_index; exact Hb).
  unfold sync_fields_valid, sync_year.
  rewrite !andb_true_iff, !Z.leb_le, !Z.ltb_lt. tauto.
Qed.

(** C3. A command whose opcode is [0x01] is ignored, leaving the whole
    device state (hence [syncedTime] with its [isValid] flag,
    [lastSyncedDay] and [currentHour]) as it was, when it is shorter than
    8 bytes or a decoded field is out of range; when all fields are in range
    [syncedTime] is replaced by the payload fields, stamped with the current
    tick and marked valid. *)
Theorem onWrite_time_sync (value : list Z) (m1 m2 : Z) (dev : Device) :
  bytes value ->
  at_index 0 value 0 = 1 ->
  ((length value < 8)%nat \/ ~ sync_fields_valid value ->
   onWrite value m1 m2 dev = dev) /\
  ((8 <= length value)%nat -> sync_fields_valid value ->
   syncedTime (onWrite value m1 m2 dev) =
     SyncedTime.mk (at_index 0 value 5) (at_index 0 value 6)
                   (at_index 0 value 7) (at_index 0 value 4)
                   (at_index 0 value 3) (sync_year value) m1 true).
Proof.
  intros Hb Hop.
  pose proof (sync_validation_reflect value Hb) as Hv. cbv zeta in Hv.
  unfold onWrite. rewrite Hop. change (u8 1 =? 1) with true. cbv iota.
  destruct (0 <? Z.of_nat (length value)) eqn:Hlen0.
  2:{ split; [reflexivity |]. intros Hlen. apply Z.ltb_ge in Hlen0. lia. }
  split.
  - intros [Hshort | Hbad].
    + destruct (Z.leb_spec 8 (Z.of_nat (length value))); [lia | reflexivity].
    + destruct (8 <=? Z.of_nat (length value)); [| reflexivity].
      match goal with |- (if ?c then _ else _) = _ =>
        assert (Hc : c = false)
          by (apply not_true_is_false; intros Hc; apply Hbad, Hv, Hc)
      end.
      rewrite Hc. reflexivity.
  - intros Hlen Hok.
    destruct (Z.leb_spec 8 (Z.of_nat (length value))); [| lia].
    apply Hv in Hok. rewrite Hok.
    destruct (getCurrentTime _ m2) as [[h m] s]. cbn [syncedTime].
    rewrite year_le by (apply bytes_at_index; exact Hb).
    rewrite !u8_small by (apply bytes_at_index; exact Hb).
    reflexivity.
Qed.

(** The theorem at the sync command for 2024-06-15 14:30:00 and at a
    command whose month byte is 13. *)
Lemma onWrite_time_sync_witness :
  syncedTime (onWrite [1; 232; 7; 6; 15; 14; 30; 0] 5000 5000 initialDevice)
    = SyncedTime.mk 14 30 0 15 6 2024 5000 true /\
  onWrite [1; 232; 7; 13; 15; 14; 30; 0] 5000 5000 initialDevice = initialDevice.
Proof.
  split.
  - apply (onWrite_time_sync [1; 232; 7; 6; 15; 14; 30; 0] 5000 5000 initialDevice).
    + solve_bytes.
    + reflexivity.
    + cbn. lia.
    + unfold sync_fields_valid, sync_year. compute_reads. lia.
  - apply (onWrite_time_sync [1; 232; 7; 13; 15; 14; 30; 0] 5000 5000 initialDevice).
    + solve_bytes.
    + reflexivity.
    + right. unfold sync_fields_valid, sync_year. compute_reads. lia.
Defined.

(** ** Hour change and day rollover *)

Lemma saveHourlyData_frame (h : Z) (dev : Device) :
  syncedTime (saveHourlyData h dev) = syncedTime dev /\
  lastSyncedDay (saveHourlyData h dev) = lastSyncedDay dev /\
  currentDay (saveHourlyData h dev) = currentDay dev /\
  pref_currentDay (preferences (saveHourlyData h dev))
    = pref_currentDay (preferences dev).
Proof.
  unfold saveHourlyData.
  destruct ((h <? 0) || (HOURS_PER_DAY <=? h)); [tauto |].
  destruct (HourlyAccumulator.sampleCount (hourAccum dev) =? 0); cbn; tauto.
Qed.

(** Once the clock is synced, the day the sync handler remembers is the day
    of the synced date: [onWrite] sets both from the same byte and nothing
    else writes [syncedTime.day]. *)
Lemma synced_day_tracked (dev : Device) :
  reachable dev ->
  SyncedTime.isValid (syncedTime dev) = true ->
  SyncedTime.day (syncedTime dev) = lastSyncedDay dev.
Proof.
  induction 1 as [| acc dev Hr IH | value m1 m2 dev Hr IH Hm1 Hm2 | m dev Hr IH Hm].
  - cbn. discriminate.
  - exact IH.
  - unfold onWrite.
    repeat match goal with
    | |- context [if ?c then _ else _] => destruct c
    end; try exact IH.
    destruct (getCurrentTime _ m2) as [[h mi] s]. cbn. reflexivity.
  - unfold checkHourChange.
    destruct (saveHourlyData_frame (currentHour dev) dev) as (Es & El & _).
    set (newHour := if SyncedTime.isValid (syncedTime dev) then _ else _).
    destruct (currentHour dev =? -1); [exact IH |].
    destruct (newHour =? currentHour dev); cbn [negb]; [exact IH |].
    rewrite Es, El.
    destruct (SyncedTime.isValid (syncedTime dev)) eqn:Ev.
    + destruct (SyncedTime.day (syncedTime dev) =? lastSyncedDay dev) eqn:Ed;
        cbn; intros _; [apply IH; reflexivity | reflexivity].
    + destruct ((_ =? 0) && (currentHour dev =? 23)); cbn; congruence.
Qed.

(** With a synced clock no hour check ever advances the day index: the
    synced branch of [checkHourChange] only compares [syncedTime.day] with
    [lastSyncedDay], and these agree in every reachable state. *)
Lemma checkHourChange_synced_day_fixed (m : Z) (dev : Device) :
  reachable dev ->
  SyncedTime.isValid (syncedTime dev) = true ->
  currentDay (checkHourChange m dev) = currentDay dev /\
  pref_currentDay (preferences (checkHourChange m dev))
    = pref_currentDay (preferences dev).
Proof.
  intros Hr Hv. pose proof (synced_day_tracked dev Hr Hv) as Hd.
  unfold checkHourChange.
  destruct (saveHourlyData_frame (currentHour dev) dev) as (Es & El & Ec & Ep).
  set (newHour := if SyncedTime.isValid (syncedTime dev) then _ else _).
  destruct (currentHour dev =? -1); [cbn; tauto |].
  destruct (newHour =? currentHour dev); cbn [negb]; [tauto |].
  rewrite Es, El, Hv, Hd, Z.eqb_refl. cbn. tauto.
Qed.

(** Without a sync, the transition from hour 23 to hour 0 advances the day
    index modulo 7, persists it and empties the day buffer. *)
Lemma checkHourChange_unsynced_midnight (m : Z) (dev : Device) :
  SyncedTime.isValid (syncedTime dev) = false ->
  currentHour dev = 23 ->
  (m / 3600000) mod 24 = 0 ->
  is_u8 (currentDay dev) ->
  let dev' := checkHourChange m dev in
  currentDay dev' = (currentDay dev + 1) mod 7 /\
  pref_currentDay (preferences dev') = Some ((currentDay dev + 1) mod 7) /\
  todayData dev' = emptyDay /\
  currentHour dev' = 0.
Proof.
  intros Hv Hh Hm Hd dev'. subst dev'. unfold checkHourChange.
  destruct (saveHourlyData_frame (currentHour dev) dev) as (Es & El & Ec & Ep).
  rewrite Hv, Hh, Hm. cbn [Z.eqb negb andb].
  rewrite Hh in Es, Ec. rewrite Es, Hv, Ec. cbn.
  unfold DAYS_TO_STORE.
  rewrite u8_small by (pose proof (Z.mod_pos_bound (currentDay dev + 1) 7); lia).
  tauto.
Qed.

(** C2 (the code departs from the claim). With a synced clock the hour
    check that sees the hour go from 23 to 0 saves hour 23 and resets the
    accumulator, but the day index stays where it was, nothing is persisted
    under ["currentDay"], and the day buffer still holds the record of hour
    23; after 24 hourly transitions the day index is still [d], not
    [(d + 1) mod 7]. *)
Theorem synced_midnight_no_rollover :
  let dev := syncedBeforeMidnight in
  let dev' := checkHourChange 1801000 dev in
  reachable dev /\
  SyncedTime.isValid (syncedTime dev) = true /\
  currentHour dev = 23 /\ currentHour dev' = 0 /\
  currentDay dev = 0 /\ currentDay dev' = 0 /\
  pref_currentDay (preferences dev') = None /\
  HourlySummary.sampleCount (at_index (HourlySummary.empty 0) (todayData dev') 23) = 60 /\
  todayData dev' <> emptyDay /\
  currentHour (run_checks (hourlyTicks 1801000 24) dev) = 23 /\
  currentDay (run_checks (hourlyTicks 1801000 24) dev) = 0.
Proof.
  cbv zeta. split.
  { unfold syncedBeforeMidnight. apply reach_accum, reach_write.
    - apply reach_init.
    - unfold is_u32. lia.
    - unfold is_u32. lia. }
  split; [reflexivity |].
  split; [reflexivity |].
  split; [vm_compute; reflexivity |].
  split; [reflexivity |].
  split; [vm_compute; reflexivity |].
  split; [vm_compute; reflexivity |].
  split; [vm_compute; reflexivity |].
  split; [| split; vm_compute; reflexivity].
  intros E.
  assert (H : HourlySummary.sampleCount
                (at_index (HourlySummary.empty 0)
                   (todayData (checkHourChange 1801000 syncedBeforeMidnight)) 23)
              = 60) by (vm_compute; reflexivity).
  rewrite E in H. vm_compute in H. discriminate H.
Qed.

(** The unsynced clock, by contrast, does roll the day over: 24 hourly
    transitions after the first check at boot move the day index from 0
    to 1, persist it and leave an empty day buffer. *)
Lemma unsynced_day_rollover :
  let dev := run_checks (60000 :: hourlyTicks 3600000 24) initialDevice in
  currentHour dev = 0 /\ currentDay dev = 1 /\
  pref_currentDay (preferences dev) = Some 1 /\ todayData dev = emptyDay.
Proof. vm_compute. repeat split; reflexivity. Qed.

(** ** Ring buffers *)

Lemma at_index_set_same {A : Type} (d : A) (l : list A) (i : Z) (x : A) :
  0 <= i < Z.of_nat (length l) -> at_index d (set_index l i x) i = x.
Proof.
  intros H. unfold at_index, set_index.
  rewrite list_lookup_insert_eq by lia. reflexivity.
Qed.

Lemma at_index_set_other {A : Type} (d : A) (l : list A) (i j : Z) (x : A) :
  0 <= i -> 0 <= j -> i <> j -> at_index d (set_index l i x) j = at_index d l j.
Proof.
  intros Hi Hj Hne. unfold at_index, set_index.
  rewrite list_lookup_insert_ne by lia. reflexivity.
Qed.

Lemma last_n_short {A : Type} (n : nat) (l : list A) :
  (length l <= n)%nat -> last_n n l = l.
Proof.
  intros H. unfold last_n. replace (length l - n)%nat with 0%nat by lia.
  reflexivity.
Qed.

Lemma last_n_length {A : Type} (n : nat) (l : list A) :
  length (last_n n l) = Nat.min n (length l).
Proof. unfold last_n. rewrite length_drop. lia. Qed.

Lemma last_n_snoc {A : Type} (n : nat) (l : list A) (x : A) :
  (1 <= n)%nat -> last_n n (last_n n l ++ [x]) = last_n n (l ++ [x]).
Proof.
  intros Hn. destruct (Nat.le_gt_cases (length l) n) as [Hle | Hgt].
  - rewrite (last_n_short n l) by exact Hle. reflexivity.
  - unfold last_n at 1 3. rewrite !length_app, last_n_length. cbn [length].
    replace (Nat.min n (length l) + 1 - n)%nat with 1%nat by lia.
    unfold last_n.
    rewrite !drop_app_le by (rewrite ?length_drop; lia).
    rewrite drop_drop. do 2 f_equal. lia.
Qed.

Lemma last_n_last {A : Type} (n : nat) (l : list A) :
  (1 <= n)%nat -> last (last_n n l) = last l.
Proof.
  intros Hn. rewrite !last_lookup, last_n_length. unfold last_n.
  rewrite lookup_drop. f_equal. lia.
Qed.

Lemma rem_add_size (x n : Z) : 0 <= x < n -> Z.rem (x + n) n = x.
Proof.
  intros H. rewrite Z.rem_mod_nonneg by lia.
  replace (x + n) with (x + 1 * n) by lia.
  rewrite Z.mod_add by lia. apply Z.mod_small. exact H.
Qed.

Lemma rem_succ (x n : Z) :
  0 <= x < n -> Z.rem (x + 1) n = if x + 1 <? n then x + 1 else 0.
Proof.
  intros H. destruct (Z.ltb_spec (x + 1) n) as [Hlt | Hge].
  - apply Z.rem_small. lia.
  - replace (x + 1) with n by lia. apply Z.rem_same. lia.
Qed.

Lemma mod_wrap (x n : Z) :
  0 <= x < 2 * n -> 0 < n -> x mod n = if x <? n then x else x - n.
Proof.
  intros H Hn. destruct (Z.ltb_spec x n) as [Hlt | Hge].
  - apply Z.mod_small. lia.
  - replace x with ((x - n) + 1 * n) at 1 by lia.
    rewrite Z.mod_add by lia. apply Z.mod_small. lia.
Qed.

Lemma ring_index_fresh (size c i : Z) :
  0 <= i < size -> ring_index size c c i = i.
Proof.
  intros H. unfold ring_index.
  replace (c - c + i + size) with (i + size) by lia.
  apply rem_add_size. exact H.
Qed.

Lemma ring_index_fresh_push (size c i : Z) :
  0 <= c < size -> 0 <= i <= c ->
  ring_index size (Z.rem (c + 1) size) (c + 1) i = i.
Proof.
  intros Hc Hi. unfold ring_index. rewrite rem_succ by lia.
  destruct (Z.ltb_spec (c + 1) size) as [Hlt | Hge].
  - replace (c + 1 - (c + 1) + i + size) with (i + size) by lia.
    apply rem_add_size. lia.
  - replace (0 - (c + 1) + i + size) with i by lia.
    apply Z.rem_small. lia.
Qed.

Lemma ring_index_full (size h i : Z) :
  0 <= h < size -> 0 <= i < size ->
  ring_index size h size i = if h + i <? size then h + i else h + i - size.
Proof.
  intros Hh Hi. unfold ring_index.
  replace (h - size + i + size) with (h + i) by lia.
  rewrite Z.rem_mod_nonneg by lia. apply mod_wrap; lia.
Qed.

Section Ring.
Variable size : Z.
Hypothesis size_pos : 0 < size.

Lemma ring_window_length (buf : list Z) (head count : Z) :
  length (ring_window size buf head count) = Z.to_nat count.
Proof. unfold ring_window. rewrite length_map, length_seqZ. reflexivity. Qed.

Lemma ring_window_lookup (buf : list Z) (head count : Z) (i : nat) :
  (i < Z.to_nat count)%nat ->
  ring_window size buf head count !! i
    = Some (at_index 0 buf (ring_index size head count (Z.of_nat i))).
Proof.
  intros Hi. unfold ring_window.
  rewrite list_lookup_fmap, lookup_seqZ_lt by lia. cbn. reflexivity.
Qed.

(** Writing at the cursor, advancing it and bumping the count (as every
    ring of the firmware does) appends the value to the window and keeps
    the newest [size] entries. *)
Lemma ring_window_push (buf : list Z) (head count v : Z) :
  ring_shape size buf head count ->
  ring_window size (set_index buf head v) (Z.rem (head + 1) size)
              (if count <? size then count + 1 else count)
    = last_n (Z.to_nat size) (ring_window size buf head count ++ [v]).
Proof.
  intros (Hl & Hh & Hc & Hw).
  apply list_eq. intros i.
  destruct (Z.ltb_spec count size) as [Hlt | Hge].
  - (* not full: head = count, nothing is dropped *)
    specialize (Hw Hlt).
    rewrite last_n_short
      by (rewrite length_app, ring_window_length; cbn; lia).
    destruct (Nat.lt_ge_cases i (Z.to_nat (count + 1))) as [Hi | Hi].
    + rewrite ring_window_lookup by lia.
      subst head. rewrite ring_index_fresh_push by lia.
      destruct (Nat.eq_dec i (Z.to_nat count)) as [-> | Hne].
      * rewrite lookup_app_r by (rewrite ring_window_length; lia).
        rewrite ring_window_length, Nat.sub_diag.
        rewrite Z2Nat.id by lia.
        rewrite at_index_set_same by lia. reflexivity.
      * rewrite lookup_app_l by (rewrite ring_window_length; lia).
        rewrite ring_window_lookup by lia.
        rewrite at_index_set_other by lia.
        rewrite ring_index_fresh by lia. reflexivity.
    + rewrite !lookup_ge_None_2; [reflexivity | |].
      * rewrite length_app, ring_window_length. cbn. lia.
      * rewrite ring_window_length. lia.
  - (* full: the oldest entry is overwritten *)
    assert (Hfull : count = size) by lia. subst count.
    unfold last_n. rewrite length_app, ring_window_length. cbn [length].
    replace (Z.to_nat size + 1 - Z.to_nat size)%nat with 1%nat by lia.
    rewrite lookup_drop.
    destruct (Nat.lt_ge_cases i (Z.to_nat size)) as [Hi | Hi].
    + rewrite ring_window_lookup by lia.
      pose proof (rem_succ head size Hh) as Hr.
      assert (Hr' : 0 <= Z.rem (head + 1) size < size)
        by (rewrite Hr; destruct (head + 1 <? size) eqn:E;
            [apply Z.ltb_lt in E |]; lia).
      rewrite (ring_index_full size (Z.rem (head + 1) size)) by lia.
      destruct (Nat.eq_dec (S i) (Z.to_nat size)) as [Hlast | Hne].
      * rewrite lookup_app_r by (rewrite ring_window_length; lia).
        rewrite ring_window_length.
        match goal with |- _ = [v] !! ?k => replace k with 0%nat by lia end.
        match goal with |- Some (at_index _ _ ?k) = _ =>
          replace k with head
            by (rewrite Hr;
                repeat match goal with
                       | |- context [?a <? ?b] => destruct (Z.ltb_spec a b)
                       end; lia)
        end.
        rewrite at_index_set_same by lia. reflexivity.
      * rewrite lookup_app_l by (rewrite ring_window_length; lia).
        rewrite ring_window_lookup by lia.
        rewrite (ring_index_full size head) by lia.
        assert (Ek : (if Z.rem (head + 1) size + Z.of_nat i <? size
                      then Z.rem (head + 1) size + Z.of_nat i
                      else Z.rem (head + 1) size + Z.of_nat i - size)
                     = (if head + Z.of_nat (S i) <? size
                        then head + Z.of_nat (S i)
                        else head + Z.of_nat (S i) - size))
          by (rewrite Hr;
              repeat match goal with
                     | |- context [?a <? ?b] => destruct (Z.ltb_spec a b)
                     end; lia).
        rewrite Ek.
        rewrite at_index_set_other
          by (repeat match goal with
                     | |- context [?a <? ?b] => destruct (Z.ltb_spec a b)
                     end; lia).
        reflexivity.
    + rewrite !lookup_ge_None_2; [reflexivity | |].
      * rewrite length_app, ring_window_length. cbn. lia.
      * rewrite ring_window_length. lia.
Qed.

Lemma ring_shape_push (buf : list Z) (head count v : Z) :
  ring_shape size buf head count ->
  ring_shape size (set_index buf head v) (Z.rem (head + 1) size)
             (if count <? size then count + 1 else count).
Proof.
  intros (Hl & Hh & Hc & Hw). unfold ring_shape, set_index.
  rewrite length_insert.
  destruct (Z.ltb_spec count size) as [Hlt | Hge].
  - specialize (Hw Hlt). subst head. rewrite rem_succ by lia.
    destruct (Z.ltb_spec (count + 1) size); repeat split; lia.
  - rewrite rem_succ by lia.
    destruct (Z.ltb_spec (head + 1) size); repeat split; lia.
Qed.

(** The entry just before the cursor is the newest one. *)
Lemma ring_window_last (buf : list Z) (head count : Z) :
  0 < count ->
  last (ring_window size buf head count)
    = Some (at_index 0 buf (Z.rem (head - 1 + size) size)).
Proof.
  intros Hpos. rewrite last_lookup, ring_window_length.
  rewrite ring_window_lookup by lia.
  unfold ring_index. do 3 f_equal. lia.
Qed.
End Ring.

(** ** HRV estimator *)

Lemma addRRInterval_ring (rr : Z) (st : HRV.t) :
  HRV.rrBuffer (addRRInterval rr st)
    = set_index (HRV.rrBuffer st) (HRV.head st) (stored_value rr st) /\
  HRV.head (addRRInterval rr st) = Z.rem (HRV.head st + 1) BUFFER_SIZE /\
  HRV.count (addRRInterval rr st)
    = (if HRV.count st <? BUFFER_SIZE then HRV.count st + 1 else HRV.count st).
Proof.
  unfold addRRInterval, stored_value, rr_previous.
  destruct (HRV_WARMUP_COUNT <=? _); cbn; repeat split.
Qed.

Lemma ring_ok_initial : ring_ok initialHRV.
Proof. unfold ring_ok, ring_shape, BUFFER_SIZE. cbn. repeat split; lia. Qed.

Lemma ring_ok_add (rr : Z) (st : HRV.t) :
  ring_ok st -> ring_ok (addRRInterval rr st).
Proof.
  intros Hok. destruct (addRRInterval_ring rr st) as (Eb & Eh & Ec).
  unfold ring_ok. rewrite Eb, Eh, Ec.
  apply ring_shape_push; [reflexivity | exact Hok].
Qed.

(** Adding an interval appends the stored value to the window and keeps
    the newest [BUFFER_SIZE] entries. *)
Lemma rr_window_add (rr : Z) (st : HRV.t) :
  ring_ok st ->
  rr_window (addRRInterval rr st)
    = last_n 30 (rr_window st ++ [stored_value rr st]).
Proof.
  intros Hok. destruct (addRRInterval_ring rr st) as (Eb & Eh & Ec).
  unfold rr_window. rewrite Eb, Eh, Ec.
  apply (ring_window_push BUFFER_SIZE); [reflexivity | exact Hok].
Qed.

Lemma rr_window_length (st : HRV.t) :
  length (rr_window st) = Z.to_nat (HRV.count st).
Proof. apply ring_window_length. Qed.

Lemma rr_previous_last (st : HRV.t) :
  0 < HRV.count st -> last (rr_window st) = Some (rr_previous st).
Proof. intros Hpos. apply ring_window_last. exact Hpos. Qed.

Lemma stored_value_spec (rr : Z) (st : HRV.t) :
  0 <= HRV.count st ->
  stored_value rr st
    = match last (rr_window st) with
      | Some p => if rr_is_outlier rr p then p else rr
      | None => rr
      end.
Proof.
  intros Hc. unfold stored_value.
  destruct (Z.ltb_spec 0 (HRV.count st)) as [Hpos | Hz].
  - rewrite (rr_previous_last st Hpos). reflexivity.
  - assert (E : rr_window st = []).
    { apply nil_length_inv. rewrite rr_window_length. lia. }
    rewrite E. reflexivity.
Qed.

Lemma feed_intervals_cons (rr : Z) (rrs : list Z) (st : HRV.t) :
  feed_intervals (rr :: rrs) st = feed_intervals rrs (addRRInterval rr st).
Proof. reflexivity. Qed.

Lemma feed_intervals_snoc (rrs : list Z) (rr : Z) (st : HRV.t) :
  feed_intervals (rrs ++ [rr]) st = addRRInterval rr (feed_intervals rrs st).
Proof. unfold feed_intervals. rewrite fold_left_app. reflexivity. Qed.

(** The ring holds the newest [BUFFER_SIZE] values of the stored sequence. *)
Lemma feed_intervals_window (rrs : list Z) (st : HRV.t) (hist : list Z) :
  ring_ok st ->
  rr_window st = last_n 30 hist ->
  rr_window (feed_intervals rrs st)
    = last_n 30 (hist ++ stored_from (last hist) rrs).
Proof.
  revert st hist. induction rrs as [| rr rrs IH]; intros st hist Hok Hw.
  - cbn. rewrite app_nil_r. exact Hw.
  - rewrite feed_intervals_cons. cbn [stored_from].
    set (v := match last hist with
              | Some p => if rr_is_outlier rr p then p else rr
              | None => rr
              end).
    rewrite (IH (addRRInterval rr st) (hist ++ [v])).
    + rewrite last_snoc, <- app_assoc. reflexivity.
    + apply ring_ok_add, Hok.
    + rewrite rr_window_add by exact Hok.
      rewrite stored_value_spec by (destruct Hok as (_ & _ & Hc & _); lia).
      rewrite Hw, last_n_last by lia. fold v.
      apply last_n_snoc. lia.
Qed.

Lemma feed_intervals_count (rrs : list Z) (st : HRV.t) :
  0 <= HRV.count st <= 30 ->
  HRV.count (feed_intervals rrs st)
    = Z.min 30 (HRV.count st + Z.of_nat (length rrs)).
Proof.
  revert st. induction rrs as [| rr rrs IH]; intros st Hc.
  - cbn. lia.
  - rewrite feed_intervals_cons.
    destruct (addRRInterval_ring rr st) as (_ & _ & Ec). unfold BUFFER_SIZE in Ec.
    rewrite IH; rewrite Ec; destruct (Z.ltb_spec (HRV.count st) 30);
      cbn [length]; lia.
Qed.

Lemma sum_sq_diffs_loop (f : Z -> Z) (n : nat) (m acc : Z) :
  fold_left (fun sumSq i => sumSq + (f (i + 1) - f i) * (f (i + 1) - f i))
            (seqZ m (Z.of_nat n)) acc
  = acc + sum_sq_diffs (map f (seqZ m (Z.of_nat n + 1))).
Proof.
  revert m acc. induction n as [| n IH]; intros m acc.
  - rewrite (seqZ_nil m (Z.of_nat 0)) by lia.
    rewrite (seqZ_cons m (Z.of_nat 0 + 1)) by lia.
    rewrite seqZ_nil by lia. cbn. lia.
  - rewrite (seqZ_cons m (Z.of_nat (S n))) by lia.
    rewrite (seqZ_cons m (Z.of_nat (S n) + 1)) by lia.
    replace (Z.pred (Z.of_nat (S n))) with (Z.of_nat n) by lia.
    replace (Z.pred (Z.of_nat (S n) + 1)) with (Z.of_nat n + 1) by lia.
    cbn [fold_left map]. rewrite IH.
    rewrite (seqZ_cons (Z.succ m) (Z.of_nat n + 1)) by lia.
    cbn [map sum_sq_diffs].
    replace (m + 1) with (Z.succ m) by lia. lia.
Qed.

(** The loop of [calculateRMSSD] adds up the squared successive
    differences of the window. *)
Lemma rr_sumSq_window (st : HRV.t) :
  1 <= HRV.count st -> rr_sumSq st = sum_sq_diffs (rr_window st).
Proof.
  intros Hc. unfold rr_sumSq, rr_window, ring_window.
  pose proof (sum_sq_diffs_loop
                (fun i => at_index 0 (HRV.rrBuffer st) (rr_index st i))
                (Z.to_nat (HRV.count st - 1)) 0 0) as H.
  rewrite Z2Nat.id in H by lia.
  replace (HRV.count st - 1 + 1) with (HRV.count st) in H by lia.
  cbn beta in H. rewrite H. reflexivity.
Qed.

Lemma calculateRMSSD_window (st : HRV.t) :
  2 <= HRV.count st -> calculateRMSSD st = rmssd (rr_window st).
Proof.
  intros Hc. unfold calculateRMSSD, rmssd.
  destruct (Z.ltb_spec (HRV.count st) 2) as [Hlt | _]; [lia |].
  rewrite rr_sumSq_window, rr_window_length, Z2Nat.id by lia. reflexivity.
Qed.

Lemma calculateRMSSD_nonneg (st : HRV.t) : (0 <= calculateRMSSD st)%R.
Proof.
  unfold calculateRMSSD. destruct (HRV.count st <? 2).
  - lra.
  - apply sqrt_pos.
Qed.

(** The estimate and the baseline are written only once the warm-up count
    is reached; then the estimate is the RMSSD of the ring as it stands after
    the insertion and the baseline moves towards it by [hrvLearningRate]. *)
Lemma addRRInterval_hrv (rr : Z) (st : HRV.t) :
  let st' := addRRInterval rr st in
  (HRV.count st' < HRV_WARMUP_COUNT ->
   HRV.currentHRV st' = HRV.currentHRV st /\
   HRV.longTermHRV st' = HRV.longTermHRV st) /\
  (HRV_WARMUP_COUNT <= HRV.count st' ->
   HRV.currentHRV st' = calculateRMSSD st' /\
   HRV.longTermHRV st'
     = (hrvLearningRate * HRV.currentHRV st'
        + (1 - hrvLearningRate) * HRV.longTermHRV st)%R).
Proof.
  cbv zeta. unfold addRRInterval.
  match goal with |- context [HRV_WARMUP_COUNT <=? ?c] =>
    destruct (Z.leb_spec HRV_WARMUP_COUNT c) as [Hge | Hlt] end;
    cbn [HRV.count HRV.currentHRV HRV.longTermHRV]; split; intros H;
    try lia; split; reflexivity.
Qed.

(** C4. After any sequence of RR intervals fed to a fresh estimator, the
    ring holds the newest 30 stored intervals in order; while fewer than
    20 intervals have been stored [currentHRV] and the baseline keep their
    initial values (0 and 50); from the 20th on [currentHRV] is the RMSSD of
    the ring, the square root of the sum of the squared differences of
    consecutive intervals divided by the number of pairs; and the value is
    not negative. *)
Theorem hrv_is_rmssd_after_warmup (rrs : list Z) :
  let st := feed_intervals rrs initialHRV in
  rr_window st = last_n 30 (stored_intervals rrs) /\
  ((length rrs < 20)%nat ->
   HRV.currentHRV st = HRV.currentHRV initialHRV /\
   HRV.longTermHRV st = HRV.longTermHRV initialHRV) /\
  ((20 <= length rrs)%nat ->
   HRV.currentHRV st = calculateRMSSD st /\
   calculateRMSSD st = rmssd (rr_window st)) /\
  (0 <= calculateRMSSD st)%R /\
  (0 <= HRV.currentHRV st)%R.
Proof.
  cbv zeta.
  assert (Hcount : forall l, HRV.count (feed_intervals l initialHRV)
                             = Z.min 30 (Z.of_nat (length l))).
  { intros l. rewrite feed_intervals_count by (cbn; lia). cbn. lia. }
  split; [| split; [| split; [| split]]].
  - apply (feed_intervals_window rrs initialHRV []).
    + apply ring_ok_initial.
    + reflexivity.
  - induction rrs as [| rr rrs IH] using rev_ind; intros Hlen.
    + split; reflexivity.
    + rewrite length_app in Hlen. cbn in Hlen.
      rewrite feed_intervals_snoc.
      destruct (addRRInterval_hrv rr (feed_intervals rrs initialHRV))
        as [Hbefore _].
      rewrite <- feed_intervals_snoc in Hbefore.
      destruct Hbefore as [E1 E2].
      { rewrite Hcount, length_app. cbn. unfold HRV_WARMUP_COUNT. lia. }
      rewrite <- feed_intervals_snoc, E1, E2. apply IH. lia.
  - intros Hlen.
    assert (Hc : 20 <= HRV.count (feed_intervals rrs initialHRV))
      by (rewrite Hcount; lia).
    split; [| apply calculateRMSSD_window; lia].
    destruct rrs as [| rr rrs _] using rev_ind; [cbn in Hlen; lia |].
    rewrite feed_intervals_snoc in *.
    apply (addRRInterval_hrv rr (feed_intervals rrs initialHRV)).
    exact Hc.
  - apply calculateRMSSD_nonneg.
  - induction rrs as [| rr rrs IH] using rev_ind.
    + cbn. lra.
    + rewrite feed_intervals_snoc.
      destruct (addRRInterval_hrv rr (feed_intervals rrs initialHRV))
        as [Hbefore Hafter].
      destruct (Z.lt_ge_cases
                  (HRV.count (addRRInterval rr (feed_intervals rrs initialHRV)))
                  HRV_WARMUP_COUNT) as [Hlt | Hge].
      * destruct (Hbefore Hlt) as [E _]. rewrite E. exact IH.
      * destruct (Hafter Hge) as [E _]. rewrite E. apply calculateRMSSD_nonneg.
Qed.

(** Twenty intervals of 800 ms: the 20th triggers the first estimate, which
    is 0, the RMSSD of a constant window. *)
Lemma hrv_is_rmssd_after_warmup_witness :
  (20 <= length (replicate 20 800))%nat /\
  HRV.currentHRV (feed_intervals (replicate 20 800) initialHRV) = 0%R.
Proof.
  split; [cbn; lia |].
  destruct (hrv_is_rmssd_after_warmup (replicate 20 800))
    as (Hw & _ & Hafter & _).
  destruct Hafter as [E1 E2]; [cbn; lia |].
  rewrite E1, E2, Hw.
  replace (last_n 30 (stored_intervals (replicate 20 800)))
    with (replicate 20 800) by (vm_compute; reflexivity).
  unfold rmssd.
  replace (sum_sq_diffs (replicate 20 800)) with 0 by (vm_compute; reflexivity).
  unfold Rdiv. rewrite Rmult_0_l. apply sqrt_0.
Defined.

(** ** Binary rounding *)

(** The rounding function on values whose binary32 and binary64
    encodings are well known: [0.1f = 0x3DCCCCCD], [1/3 -> 0x3EAAAAAB],
    [0.1 = 0x3FB999999999999A], [0.6 = 0x3FE3333333333333], and the ties
    [2^24 + 1 -> 2^24], [2^24 + 3 -> 2^24 + 4]. *)
Lemma round_Q_known_values :
  float_of_Q (1 # 10) = (13421773 # 134217728)%Q /\
  float_of_Q (1 # 3) = (11184811 # 33554432)%Q /\
  double_of_Q (1 # 10) = (7205759403792794 # 72057594037927936)%Q /\
  double_of_Q (6 # 10) = (5404319552844595 # 9007199254740992)%Q /\
  Qeq_bool (float_of_Q (inject_Z 16777217)) (inject_Z 16777216) = true /\
  Qeq_bool (float_of_Q (inject_Z 16777219)) (inject_Z 16777220) = true /\
  Qeq_bool (float_of_Q (inject_Z (-1000))) (inject_Z (-1000)) = true.
Proof. vm_compute. repeat split. Qed.

Lemma pow2_pos (k : Z) : 0 <= k -> 0 < 2 ^ k.
Proof. intros H. apply Z.pow_pos_nonneg; lia. Qed.

Lemma pow2_add (a b : Z) : 0 <= a -> 0 <= b -> 2 ^ (a + b) = 2 ^ a * 2 ^ b.
Proof. intros Ha Hb. apply Z.pow_add_r; assumption. Qed.

(** [scale2] keeps the denominator positive and multiplies the fraction by
    [2 ^ k]; two scalings of the same fraction differ by a power of two. *)
Lemma scale2_shift (n d j t : Z) :
  0 < d -> 0 <= t ->
  let '(n0, d0) := scale2 n d j in
  let '(n1, d1) := scale2 n d (j + t) in
  0 < d0 /\ 0 < d1 /\ n1 * d0 = n0 * d1 * 2 ^ t.
Proof.
  intros Hd Ht. unfold scale2.
  destruct (Z.leb_spec 0 j) as [Hj | Hj];
    destruct (Z.leb_spec 0 (j + t)) as [Hjt | Hjt]; try lia.
  - rewrite pow2_add by lia. repeat split; try lia.
  - pose proof (pow2_pos (- j)).
    assert (E : 2 ^ t = 2 ^ (j + t) * 2 ^ (- j))
      by (rewrite <- pow2_add by lia; f_equal; lia).
    repeat split; try nia; try (rewrite E; ring).
  - pose proof (pow2_pos (- j)). pose proof (pow2_pos (- (j + t))).
    assert (E : 2 ^ (- j) = 2 ^ (- (j + t)) * 2 ^ t)
      by (rewrite <- pow2_add by lia; f_equal; lia).
    repeat split; try nia; try (rewrite E; ring).
Qed.

(** The binade found by [round_pos]: after scaling by [2 ^ k] the fraction
    lies in [[2 ^ (prec - 1), 2 ^ prec)]. *)
Lemma round_pos_binade (prec n d : Z) :
  0 < prec -> 0 < n -> 0 < d ->
  let e0 := Z.log2 n - Z.log2 d in
  let '(n0, d0) := scale2 n d (- e0) in
  let e := if d0 <=? n0 then e0 else e0 - 1 in
  let k := prec - 1 - e in
  let '(n1, d1) := scale2 n d k in
  0 < d1 /\ 2 ^ (prec - 1) * d1 <= n1 < 2 ^ prec * d1.
Proof.
  intros Hprec Hn Hd e0.
  destruct (Z.log2_spec n Hn) as [Hn1 Hn2].
  destruct (Z.log2_spec d Hd) as [Hd1 Hd2].
  pose proof (Z.log2_nonneg n) as Hln. pose proof (Z.log2_nonneg d) as Hld.
  rewrite Z.pow_succ_r in Hn2, Hd2 by assumption.
  set (ln := Z.log2 n) in *. set (ld := Z.log2 d) in *.
  (* the fraction scaled by 2^(-e0) lies strictly between 1/2 and 2 *)
  assert (Hmid : let '(n0, d0) := scale2 n d (- e0) in
                 0 < d0 /\ d0 < 2 * n0 /\ n0 < 2 * d0).
  { unfold scale2, e0.
    destruct (Z.leb_spec 0 (- (ln - ld))) as [Hj | Hj].
    - assert (E : 2 ^ ld = 2 ^ ln * 2 ^ (- (ln - ld)))
        by (rewrite <- pow2_add by lia; f_equal; lia).
      pose proof (pow2_pos (- (ln - ld))). nia.
    - assert (E : 2 ^ ln = 2 ^ ld * 2 ^ (- - (ln - ld)))
        by (rewrite <- pow2_add by lia; f_equal; lia).
      pose proof (pow2_pos (- - (ln - ld))). nia. }
  destruct (scale2 n d (- e0)) as [n0 d0] eqn:E0.
  destruct Hmid as (Hd0 & Hlo & Hhi).
  cbv zeta.
  assert (Hp : 2 ^ prec = 2 * 2 ^ (prec - 1)).
  { replace prec with (Z.succ (prec - 1)) at 1 by lia.
    apply Z.pow_succ_r. lia. }
  pose proof (pow2_pos (prec - 1)) as Hpp.
  destruct (Z.leb_spec d0 n0) as [Hge | Hlt].
  - pose proof (scale2_shift n d (- e0) (prec - 1) Hd) as H.
    rewrite E0 in H.
    replace (prec - 1 - e0) with (- e0 + (prec - 1)) by lia.
    destruct (scale2 n d (- e0 + (prec - 1))) as [n1 d1].
    destruct H as (_ & Hd1' & Heq); [lia |].
    split; [exact Hd1' |]. rewrite Hp. nia.
  - pose proof (scale2_shift n d (- e0) prec Hd) as H.
    rewrite E0 in H.
    replace (prec - 1 - (e0 - 1)) with (- e0 + prec) by lia.
    destruct (scale2 n d (- e0 + prec)) as [n1 d1].
    destruct H as (_ & Hd1' & Heq); [lia |].
    split; [exact Hd1' |]. rewrite Hp in *. nia.
Qed.

(** What [round_pos] returns: a significand [m] of at most [prec] bits
    (or the next power of two) within one half of the scaled fraction. *)
Lemma round_pos_spec (prec n d : Z) :
  0 < prec -> 0 < n -> 0 < d ->
  exists k m n1 d1,
    scale2 n d k = (n1, d1) /\ 0 < d1 /\
    2 ^ (prec - 1) * d1 <= n1 < 2 ^ prec * d1 /\
    2 ^ (prec - 1) <= m <= 2 ^ prec /\
    2 * m * d1 - d1 <= 2 * n1 <= 2 * m * d1 + d1 /\
    round_pos prec n d
    = (let '(n2, d2) := scale2 m 1 (- k) in Qmake n2 (Z.to_pos d2)).
Proof.
  intros Hprec Hn Hd.
  pose proof (round_pos_binade prec n d Hprec Hn Hd) as Hb.
  unfold round_pos. cbv zeta in Hb |- *.
  destruct (scale2 n d (- (Z.log2 n - Z.log2 d))) as [n0 d0].
  set (k := prec - 1 - (if d0 <=? n0 then Z.log2 n - Z.log2 d
                        else Z.log2 n - Z.log2 d - 1)) in *.
  destruct (scale2 n d k) as [n1 d1] eqn:E1.
  destruct Hb as (Hd1 & Hlo & Hhi).
  pose proof (Z.div_mod n1 d1 ltac:(lia)) as Hdm.
  pose proof (Z.mod_pos_bound n1 d1 Hd1) as Hr.
  set (m := n1 / d1) in *. set (r := n1 mod d1) in *.
  assert (Hm : 2 ^ (prec - 1) <= m < 2 ^ prec).
  { split.
    - apply Z.div_le_lower_bound; [exact Hd1 | lia].
    - apply Z.div_lt_upper_bound; [exact Hd1 | lia]. }
  exists k.
  exists (if 2 * r <? d1 then m
          else if d1 <? 2 * r then m + 1
          else if Z.even m then m else m + 1).
  exists n1, d1.
  split; [exact E1 |]. split; [exact Hd1 |]. split; [lia |].
  split; [| split; [| reflexivity]].
  - destruct (2 * r <? d1); [lia |]. destruct (d1 <? 2 * r); [lia |].
    destruct (Z.even m); lia.
  - destruct (Z.ltb_spec (2 * r) d1); [nia |].
    destruct (Z.ltb_spec d1 (2 * r)); [nia |].
    destruct (Z.even m); nia.
Qed.

Lemma DOUBLE_0_20_value :
  DOUBLE_0_20 = (7205759403792794 # 36028797018963968)%Q.
Proof. vm_compute. reflexivity. Qed.

Lemma Qlt_bool_literal (num den : Z) :
  0 < den ->
  Qlt_bool (7205759403792794 # 36028797018963968) (Qmake num (Z.to_pos den))
  = negb (num * 36028797018963968 <=? 7205759403792794 * den).
Proof.
  intros Hden. unfold Qlt_bool, Qle_bool. cbn [Qnum Qden].
  rewrite Z2Pos.id by exact Hden. reflexivity.
Qed.

(** The [float] quotient of two positive integers against the literal
    [0.20]: above it as soon as the exact quotient is at least one fifth,
    not above it when the exact quotient is at most 0.1999. *)
Lemma float_quotient_vs_fifth (n d : Z) :
  0 < n -> 0 < d ->
  (d <= 5 * n -> Qlt_bool DOUBLE_0_20 (round_pos 24 n d) = true) /\
  (10000 * n <= 1999 * d -> Qlt_bool DOUBLE_0_20 (round_pos 24 n d) = false).
Proof.
  intros Hn Hd.
  destruct (round_pos_spec 24 n d ltac:(lia) Hn Hd)
    as (k & m & n1 & d1 & Es & Hd1 & Hbin & Hm & Hnear & ->).
  change (2 ^ (24 - 1)) with 8388608 in *. change (2 ^ 24) with 16777216 in *.
  rewrite DOUBLE_0_20_value.
  unfold scale2 in Es |- *.
  destruct (Z.leb_spec 0 k) as [Hk | Hk].
  - (* k >= 0: n1 = n * 2^k, d1 = d *)
    injection Es as <- <-.
    pose proof (pow2_pos k Hk) as HT.
    destruct (Z.leb_spec 0 (- k)) as [Hk0 | Hkpos].
    + (* k = 0 *)
      assert (k = 0) by lia. subst k. change (2 ^ 0) with 1 in *.
      change (2 ^ (- 0)) with 1.
      rewrite (Qlt_bool_literal (m * 1) 1) by lia.
      split; intros H; [apply negb_true_iff, Z.leb_gt | exfalso]; lia.
    + replace (- - k) with k by lia.
      rewrite (Qlt_bool_literal m (1 * 2 ^ k)) by lia.
      destruct (Z_le_gt_dec k 25) as [Hsmall | Hbig].
      * assert (HT' : 2 ^ k <= 2 ^ 25) by (apply Z.pow_le_mono_r; lia).
        change (2 ^ 25) with 33554432 in HT'.
        split; intros H; [apply negb_true_iff, Z.leb_gt | exfalso]; nia.
      * destruct (Z.eq_dec k 26) as [-> | Hne].
        -- change (2 ^ 26) with 67108864 in *.
           split; intros H;
             [apply negb_true_iff, Z.leb_gt | apply negb_false_iff, Z.leb_le];
             nia.
        -- assert (HT' : 2 ^ 27 <= 2 ^ k) by (apply Z.pow_le_mono_r; lia).
           change (2 ^ 27) with 134217728 in HT'.
           split; intros H;
             [exfalso | apply negb_false_iff, Z.leb_le]; nia.
  - (* k < 0: n1 = n, d1 = d * 2^(-k) *)
    injection Es as <- <-.
    pose proof (pow2_pos (- k) ltac:(lia)) as HT.
    destruct (Z.leb_spec 0 (- k)) as [_ | Hbad]; [| lia].
    rewrite (Qlt_bool_literal (m * 2 ^ (- k)) 1) by lia.
    split; intros H; [apply negb_true_iff, Z.leb_gt | exfalso]; nia.
Qed.

Lemma forallb_seqZ (f : Z -> bool) (lo n : Z) :
  forallb f (seqZ lo n) = true ->
  forall x, lo <= x < lo + n -> f x = true.
Proof.
  intros H x Hx. rewrite forallb_forall in H. apply H.
  apply list_elem_of_In, elem_of_seqZ. lia.
Qed.

(** The [float] quotient of two fractions that stand for the integers [A]
    and [P]. *)
Lemma float_div_vs_fifth (a p : Q) (A P : Z) :
  0 <= A -> 0 < P ->
  Qnum a = A * Zpos (Qden a) -> Qnum p = P * Zpos (Qden p) ->
  (P <= 5 * A -> Qlt_bool DOUBLE_0_20 (float_of_Q (a / p)) = true) /\
  (10000 * A <= 1999 * P -> Qlt_bool DOUBLE_0_20 (float_of_Q (a / p)) = false).
Proof.
  intros HA HP Ha Hp. destruct a as [na da], p as [np dp].
  cbn [Qnum Qden] in Ha, Hp.
  destruct np as [| x | x]; try lia.
  unfold Qdiv, Qmult, Qinv, float_of_Q, round_Q. cbn [Qnum Qden].
  destruct (na * Zpos dp) as [| y | y] eqn:Ey; try lia.
  - assert (A = 0) by nia. subst A.
    split; intros H; [lia | vm_compute; reflexivity].
  - pose proof (float_quotient_vs_fifth (Zpos y) (Zpos (da * x))
                  ltac:(lia) ltac:(lia)) as [H1 H2].
    rewrite Pos2Z.inj_mul in H1, H2.
    split; intros H; [apply H1 | apply H2]; nia.
Qed.

(** Integers up to 2000 convert exactly to [float]. *)
Lemma float_of_small_int (z : Z) :
  0 <= z <= 2000 ->
  Qnum (float_of_Q (inject_Z z))
  = z * Zpos (Qden (float_of_Q (inject_Z z))).
Proof.
  intros Hz. apply Z.eqb_eq.
  apply (forallb_seqZ
           (fun x => Qnum (float_of_Q (inject_Z x))
                     =? x * Zpos (Qden (float_of_Q (inject_Z x)))) 0 2001).
  - vm_compute. reflexivity.
  - lia.
Qed.

(** On the intervals that pass the range check, the outlier test is true
    exactly when the deviation is at least one fifth of the predecessor:
    20 % and more, not only more than 20 %. *)
Lemma rr_is_outlier_iff (rrIntervalMs prevBeat : Z) :
  rr_in_range prevBeat -> rr_in_range rrIntervalMs ->
  rr_is_outlier rrIntervalMs prevBeat
  = (prevBeat <=? 5 * Z.abs (rrIntervalMs - prevBeat)).
Proof.
  unfold rr_in_range. intros Hp Hr. unfold rr_is_outlier. cbv zeta.
  set (A := Z.abs (rrIntervalMs - prevBeat)).
  assert (HA : 0 <= A <= 2000) by (subst A; lia).
  pose proof (float_of_small_int A HA) as Ea.
  pose proof (float_of_small_int prevBeat ltac:(lia)) as Ep.
  assert (Hnz : Qeq_bool (float_of_Q (inject_Z prevBeat)) 0 = false).
  { unfold Qeq_bool. cbn [Qnum Qden]. rewrite Ep. apply Z.eqb_neq. nia. }
  rewrite Hnz.
  destruct (float_div_vs_fifth _ _ A prevBeat ltac:(lia) ltac:(lia) Ea Ep)
    as [H1 H2].
  destruct (Z.leb_spec prevBeat (5 * A)) as [Hge | Hlt].
  - apply H1. exact Hge.
  - apply H2. lia.
Qed.

(** ** Outlier guard *)

(** The [double] literal [0.20] and the [float] nearest to one fifth: the
    literal lies strictly below the [float]. *)
Lemma float_fifth_above_literal :
  DOUBLE_0_20 = (7205759403792794 # 36028797018963968)%Q /\
  float_of_Q (1 # 5) = (13421773 # 67108864)%Q /\
  Qlt_bool DOUBLE_0_20 (float_of_Q (1 # 5)) = true.
Proof. vm_compute. repeat split. Qed.

(** C5 (the code departs from the claim). With 1000 ms stored last, an
    interval of 1200 ms deviates by exactly 20 %, which is not more than
    20 %, yet the guard fires and 1000 is stored in its place; the same
    happens for 800 ms. The quotient [200 / 1000.0f] is the [float] nearest
    to 0.2, which is larger than the [double] literal [0.20]. Deviations
    just below 20 % are stored unchanged and deviations above are replaced,
    as is an interval added to the empty ring. *)
Theorem outlier_guard_fires_at_exactly_20_percent :
  let st := feed_intervals [1000] initialHRV in
  rr_window st = [1000] /\
  rr_is_outlier 1200 1000 = true /\
  rr_window (addRRInterval 1200 st) = [1000; 1000] /\
  rr_window (addRRInterval 800 st) = [1000; 1000] /\
  rr_window (addRRInterval 1199 st) = [1000; 1199] /\
  rr_window (addRRInterval 801 st) = [1000; 801] /\
  rr_window (addRRInterval 1201 st) = [1000; 1000] /\
  rr_window (addRRInterval 799 st) = [1000; 1000].
Proof.
  cbv zeta.
  assert (Hok : ring_ok (feed_intervals [1000] initialHRV))
    by apply ring_ok_add, ring_ok_initial.
  assert (Hw : rr_window (feed_intervals [1000] initialHRV) = [1000]).
  { rewrite (feed_intervals_window [1000] initialHRV []);
      [reflexivity | apply ring_ok_initial | reflexivity]. }
  split; [exact Hw |].
  split; [vm_compute; reflexivity |].
  repeat split; rewrite rr_window_add by exact Hok;
    rewrite stored_value_spec by (cbn; lia); rewrite Hw;
    vm_compute; reflexivity.
Qed.

(** An interval added to the empty ring is stored as it is. *)
Lemma first_interval_stored_unchanged (rr : Z) :
  rr_window (addRRInterval rr initialHRV) = [rr].
Proof.
  rewrite rr_window_add by apply ring_ok_initial. reflexivity.
Qed.

(** The slot is never discarded: every call stores one value. *)
Lemma addRRInterval_stores_one (rr : Z) (st : HRV.t) :
  ring_ok st ->
  rr_window (addRRInterval rr st)
    = last_n 30 (rr_window st
                 ++ [match last (rr_window st) with
                     | Some p => if rr_is_outlier rr p then p else rr
                     | None => rr
                     end]).
Proof.
  intros Hok. rewrite rr_window_add by exact Hok.
  rewrite stored_value_spec by (destruct Hok as (_ & _ & Hc & _); lia).
  reflexivity.
Qed.

(** ** Range of the stored intervals *)

(** Every interval that passes the range check converts to a non-zero
    [float]: the divisor of the outlier test is never zero. *)
Lemma float_of_interval_nonzero (p : Z) :
  rr_in_range p -> Qeq_bool (float_of_Q (inject_Z p)) 0 = false.
Proof.
  unfold rr_in_range. intros Hp.
  pose proof (float_of_small_int p ltac:(lia)) as Ep.
  unfold Qeq_bool. cbn [Qnum Qden]. rewrite Ep. apply Z.eqb_neq. nia.
Qed.

Lemma Forall_last_n {A : Type} (P : A -> Prop) (n : nat) (l : list A) :
  Forall P l -> Forall P (last_n n l).
Proof. intros H. unfold last_n. apply Forall_drop. exact H. Qed.

Lemma rr_ring_inv_add (rr : Z) (h : HRV.t) :
  rr_in_range rr -> rr_ring_inv h -> rr_ring_inv (addRRInterval rr h).
Proof.
  intros Hrr [Hok Hall]. split; [apply ring_ok_add, Hok |].
  rewrite addRRInterval_stores_one by exact Hok.
  apply Forall_last_n, Forall_app. split; [exact Hall |].
  apply Forall_singleton.
  destruct (last (rr_window h)) as [p |] eqn:El; [| exact Hrr].
  destruct (rr_is_outlier rr p); [| exact Hrr].
  rewrite Forall_forall in Hall. apply Hall.
  apply last_Some_elem_of. exact El.
Qed.

(** The detector either leaves the HRV globals alone or adds one interval
    that passed the range check. *)
Lemma detect_hrv_cases (irValue currentTime minValue maxValue : Z) (st : Beat.t) :
  let st' := detectPeakAndCalculateBPM irValue currentTime minValue maxValue st in
  Beat.hrv st' = Beat.hrv st \/
  exists rr, rr_in_range rr /\ Beat.hrv st' = addRRInterval rr (Beat.hrv st).
Proof.
  cbv zeta. unfold detectPeakAndCalculateBPM.
  destruct (is_peak _ _ _ st); cbn [Beat.hrv]; [| left; reflexivity].
  destruct (0 <? Beat.lastBeatTime st); [| left; reflexivity].
  set (rr := u32 (currentTime - Beat.lastBeatTime st)).
  destruct ((300 <=? rr) && (rr <=? 2000)) eqn:E; [| left; reflexivity].
  right. exists rr. split; [| reflexivity].
  apply andb_true_iff in E. destruct E as [E1 E2].
  apply Z.leb_le in E1, E2. unfold rr_in_range. lia.
Qed.

Lemma run_heart_snoc (evs : list HeartEvent) (ev : HeartEvent) (st : Beat.t) :
  run_heart (evs ++ [ev]) st = heart_step (run_heart evs st) ev.
Proof. unfold run_heart. rewrite fold_left_app. reflexivity. Qed.

Lemma rr_ring_inv_run (evs : list HeartEvent) :
  rr_ring_inv (Beat.hrv (run_heart evs initialBeat)).
Proof.
  induction evs as [| ev evs IH] using rev_ind.
  - split; [apply ring_ok_initial | apply Forall_nil_2].
  - rewrite run_heart_snoc.
    destruct ev as [irValue currentTime minValue maxValue |]; cbn [heart_step].
    + destruct (detect_hrv_cases irValue currentTime minValue maxValue
                  (run_heart evs initialBeat)) as [E | (rr & Hrr & E)];
        rewrite E; [exact IH | apply rr_ring_inv_add; assumption].
    + exact IH.
Qed.

(** In every reachable state the guard replaces the new interval by its
    predecessor exactly when it deviates from it by 20 % or more. *)
Lemma stored_value_in_range (rr : Z) (h : HRV.t) :
  rr_ring_inv h -> rr_in_range rr -> 0 < HRV.count h ->
  stored_value rr h
  = if rr_previous h <=? 5 * Z.abs (rr - rr_previous h)
    then rr_previous h else rr.
Proof.
  intros [Hok Hall] Hrr Hpos. unfold stored_value.
  destruct (Z.ltb_spec 0 (HRV.count h)) as [_ | Hbad]; [| lia].
  rewrite rr_is_outlier_iff; [reflexivity | | exact Hrr].
  rewrite Forall_forall in Hall. apply Hall.
  apply last_Some_elem_of, rr_previous_last, Hpos.
Qed.

Lemma sum_sq_diffs_bound (l : list Z) :
  Forall rr_in_range l ->
  0 <= sum_sq_diffs l <= 2890000 * Z.of_nat (length l).
Proof.
  induction 1 as [| x l Hx Hl IH]; [cbn; lia |].
  destruct l as [| y l]; [cbn; lia |].
  apply Forall_inv in Hl. unfold rr_in_range in Hx, Hl.
  change (sum_sq_diffs (x :: y :: l))
    with ((y - x) * (y - x) + sum_sq_diffs (y :: l)).
  assert (Hsq : 0 <= (y - x) * (y - x) <= 2890000).
  { pose proof (Z.mul_nonneg_nonneg (1700 - (y - x)) (1700 + (y - x))
                  ltac:(lia) ltac:(lia)).
    pose proof (Z.square_nonneg (y - x)). lia. }
  rewrite !length_cons, !Nat2Z.inj_succ in *. lia.
Qed.

(** The sum of squares formed by [calculateRMSSD] fits a 32-bit [long] in
    every reachable state, so modelling it as an unbounded integer loses
    nothing. *)
Lemma rr_sumSq_fits_long (evs : list HeartEvent) :
  0 <= rr_sumSq (Beat.hrv (run_heart evs initialBeat)) < 2147483648.
Proof.
  destruct (rr_ring_inv_run evs) as [Hok Hall].
  set (h := Beat.hrv (run_heart evs initialBeat)) in *.
  destruct Hok as (_ & _ & Hc & _). unfold BUFFER_SIZE in Hc.
  destruct (Z.lt_ge_cases (HRV.count h) 1) as [Hz | Hpos].
  - unfold rr_sumSq. rewrite seqZ_nil by lia. cbn. lia.
  - rewrite rr_sumSq_window by exact Hpos.
    pose proof (sum_sq_diffs_bound _ Hall) as Hb.
    rewrite rr_window_length in Hb. lia.
Qed.

(** C10. Whatever samples the detector has processed, every interval in
    the RR ring lies in [[300, 2000]]; so the predecessor the outlier guard
    divides by is at least 300, and it converts to a non-zero [float]; and
    whenever RMSSD is computed, be it from [addRRInterval] (count at least
    20) or past the guard of [calculateRMSSD] (count at least 2), the
    divisor [count - 1] is positive. *)
Theorem rr_ring_in_range_no_zero_divisor (evs : list HeartEvent) :
  let h := Beat.hrv (run_heart evs initialBeat) in
  Forall rr_in_range (rr_window h) /\
  (0 < HRV.count h ->
   rr_in_range (rr_previous h) /\ rr_previous h <> 0 /\
   Qeq_bool (float_of_Q (inject_Z (rr_previous h))) 0 = false) /\
  (HRV_WARMUP_COUNT <= HRV.count h -> 0 < HRV.count h - 1) /\
  ((HRV.count h <? 2) = false -> 0 < HRV.count h - 1).
Proof.
  cbv zeta. destruct (rr_ring_inv_run evs) as [Hok Hall].
  split; [exact Hall |]. split; [| split].
  - intros Hpos.
    assert (Hp : rr_in_range (rr_previous (Beat.hrv (run_heart evs initialBeat)))).
    { rewrite Forall_forall in Hall. apply Hall.
      apply last_Some_elem_of, rr_previous_last, Hpos. }
    split; [exact Hp |]. split.
    + unfold rr_in_range in Hp. lia.
    + apply float_of_interval_nonzero, Hp.
  - unfold HRV_WARMUP_COUNT. lia.
  - intros H. apply Z.ltb_ge in H. lia.
Qed.

(** ** Beat detector: BPM *)

Lemma successive_intervals_map (f : Z -> Z) (n : nat) (m : Z) :
  successive_intervals (map f (seqZ m (Z.of_nat n + 1)))
  = map (fun j => u32 (f (j + 1) - f j)) (seqZ m (Z.of_nat n)).
Proof.
  revert m. induction n as [| n IH]; intros m.
  - rewrite (seqZ_cons m (Z.of_nat 0 + 1)) by lia.
    rewrite !seqZ_nil by lia. reflexivity.
  - rewrite (seqZ_cons m (Z.of_nat (S n) + 1)) by lia.
    rewrite (seqZ_cons m (Z.of_nat (S n))) by lia.
    replace (Z.pred (Z.of_nat (S n) + 1)) with (Z.of_nat n + 1) by lia.
    replace (Z.pred (Z.of_nat (S n))) with (Z.of_nat n) by lia.
    specialize (IH (Z.succ m)).
    rewrite (seqZ_cons (Z.succ m) (Z.of_nat n + 1)) in * by lia.
    cbn [map successive_intervals] in *. rewrite IH.
    replace (m + 1) with (Z.succ m) by lia. reflexivity.
Qed.

(** The intervals the BPM loop visits, newest first, are the successive
    intervals of the recorded peaks read backwards. *)
Lemma loop_intervals_rev (peakTimes : list Z) (peakIndex peakCount : Z) :
  1 <= peakCount ->
  map (peak_interval peakTimes peakIndex) (seqZ 1 (peakCount - 1))
  = reverse (successive_intervals
               (ring_window PEAK_BUFFER_SIZE peakTimes peakIndex peakCount)).
Proof.
  intros Hc. unfold ring_window.
  set (f := fun i => at_index 0 peakTimes
                       (ring_index PEAK_BUFFER_SIZE peakIndex peakCount i)).
  pose proof (successive_intervals_map f (Z.to_nat (peakCount - 1)) 0) as E.
  rewrite Z2Nat.id in E by lia.
  replace (peakCount - 1 + 1) with peakCount in E by lia.
  rewrite E. clear E.
  apply list_eq. intros i.
  destruct (Nat.lt_ge_cases i (Z.to_nat (peakCount - 1))) as [Hi | Hi].
  - rewrite list_lookup_fmap, lookup_seqZ_lt by lia.
    rewrite reverse_lookup by (rewrite length_map, length_seqZ; exact Hi).
    rewrite length_map, length_seqZ.
    rewrite list_lookup_fmap, lookup_seqZ_lt by lia.
    cbn [fmap option_fmap option_map]. f_equal.
    unfold peak_interval, f, ring_index. do 3 f_equal; f_equal; lia.
  - rewrite !lookup_ge_None_2; [reflexivity | |].
    + rewrite length_reverse, length_map, length_seqZ. lia.
    + rewrite length_map, length_seqZ. lia.
Qed.

Lemma sum_list_app (l1 l2 : list Z) :
  sum_list (l1 ++ l2) = sum_list l1 + sum_list l2.
Proof.
  unfold sum_list. induction l1 as [| x l1 IH]; cbn; [reflexivity | lia].
Qed.

Lemma filter_reverse_sum (p : Z -> bool) (l : list Z) :
  sum_list (List.filter p (reverse l)) = sum_list (List.filter p l) /\
  length (List.filter p (reverse l)) = length (List.filter p l).
Proof.
  induction l as [| x l [IHs IHl]]; [split; reflexivity |].
  rewrite reverse_cons, List.filter_app, sum_list_app, length_app.
  cbn [List.filter].
  destruct (p x); cbn [length];
    change (sum_list []) with 0;
    try change (sum_list [x]) with (x + 0);
    try change (sum_list (x :: List.filter p l))
          with (x + sum_list (List.filter p l));
    split; lia.
Qed.

Lemma fold_left_over_map {A B C : Type} (step : A -> B -> A) (g : C -> B)
    (l : list C) (a : A) :
  fold_left (fun acc i => step acc (g i)) l a = fold_left step (map g l) a.
Proof. revert a. induction l as [| x l IH]; intros a; cbn; [reflexivity | apply IH]. Qed.

Lemma sum_valid_fold (l : list Z) (t v : Z) :
  0 <= t -> t + 2000 * Z.of_nat (length l) < 4294967296 ->
  fold_left
    (fun (acc : Z * Z) x =>
       if interval_counted x then (u32 (fst acc + x), snd acc + 1) else acc)
    l (t, v)
  = (t + sum_list (List.filter interval_counted l),
     v + Z.of_nat (length (List.filter interval_counted l))).
Proof.
  revert t v. induction l as [| x l IH]; intros t v Ht Hb.
  - cbn. f_equal; lia.
  - cbn [fold_left List.filter length] in *.
    destruct (interval_counted x) eqn:Ex.
    + unfold interval_counted in Ex. apply andb_true_iff in Ex.
      destruct Ex as [E1 E2]. apply Z.ltb_lt in E1, E2.
      cbn [fst snd]. rewrite u32_small by lia.
      rewrite IH by lia.
      change (sum_list (x :: List.filter interval_counted l))
        with (x + sum_list (List.filter interval_counted l)).
      cbn [length]. f_equal; lia.
    + rewrite IH by lia. reflexivity.
Qed.

(** The BPM loop returns the sum and the number of the counted intervals
    among the successive intervals of the recorded peaks. *)
Lemma sum_valid_intervals_window (peakTimes : list Z) (peakIndex peakCount : Z) :
  1 <= peakCount <= 10 ->
  let counted :=
    List.filter interval_counted
      (successive_intervals
         (ring_window PEAK_BUFFER_SIZE peakTimes peakIndex peakCount)) in
  sum_valid_intervals peakTimes peakIndex peakCount
  = (sum_list counted, Z.of_nat (length counted)).
Proof.
  intros Hc counted. subst counted. unfold sum_valid_intervals.
  rewrite (fold_left_over_map
             (fun (acc : Z * Z) x =>
                if interval_counted x then (u32 (fst acc + x), snd acc + 1)
                else acc)
             (peak_interval peakTimes peakIndex)).
  rewrite sum_valid_fold.
  - rewrite loop_intervals_rev by lia.
    destruct (filter_reverse_sum interval_counted
                (successive_intervals
                   (ring_window PEAK_BUFFER_SIZE peakTimes peakIndex peakCount)))
      as [Es El].
    rewrite Es, El. f_equal.
  - lia.
  - rewrite length_map, length_seqZ. lia.
Qed.

Lemma filter_counted_valid (l : list Z) :
  Forall (fun x => 300 < x) l ->
  List.filter interval_counted l = List.filter interval_valid l.
Proof.
  induction 1 as [| x l Hx _ IH]; [reflexivity |].
  cbn [List.filter]. rewrite IH.
  replace (interval_valid x) with (interval_counted x); [reflexivity |].
  unfold interval_counted, interval_valid. f_equal.
  destruct (Z.ltb_spec 250 x), (Z.leb_spec 250 x); try reflexivity; lia.
Qed.

(** On a well-shaped peak ring whose recorded peaks are more than 300
    ticks apart, the BPM block computes the BPM of the specification. *)
Lemma bpm_from_peaks_spec (peakTimes : list Z) (peakIndex peakCount : Z)
    (currentBPM : R) :
  3 <= peakCount <= 10 ->
  Forall (fun x => 300 < x)
         (successive_intervals
            (ring_window PEAK_BUFFER_SIZE peakTimes peakIndex peakCount)) ->
  bpm_from_peaks peakTimes peakIndex peakCount currentBPM
  = bpm_spec (successive_intervals
                (ring_window PEAK_BUFFER_SIZE peakTimes peakIndex peakCount))
             currentBPM.
Proof.
  intros Hc Hspaced. unfold bpm_from_peaks, bpm_spec.
  destruct (Z.leb_spec 3 peakCount) as [_ | Hlt]; [| lia].
  rewrite sum_valid_intervals_window by lia. cbv zeta.
  rewrite (filter_counted_valid _ Hspaced).
  destruct (List.filter interval_valid _) as [| x valid]; [reflexivity |].
  destruct (Z.ltb_spec 0 (Z.of_nat (length (x :: valid)))) as [_ | Hbad];
    [| cbn [length] in Hbad; lia].
  set (bpm := (60000 / (IZR (sum_list (x :: valid))
                        / IZR (Z.of_nat (length (x :: valid)))))%R).
  destruct (Rlt_dec bpm 40) as [Hlow | Hok].
  - destruct (Rgt_dec 0 200); [lra | reflexivity].
  - reflexivity.
Qed.

(** ** Beat detector: spacing of the recorded peaks *)

Lemma successive_intervals_snoc (l : list Z) (x : Z) :
  successive_intervals (l ++ [x])
  = successive_intervals l
    ++ match last l with Some y => [u32 (x - y)] | None => [] end.
Proof.
  induction l as [| a l IH]; [reflexivity |].
  destruct l as [| b l]; [reflexivity |].
  change ((a :: b :: l) ++ [x]) with (a :: ((b :: l) ++ [x])).
  change (successive_intervals (a :: ((b :: l) ++ [x])))
    with (u32 (b - a) :: successive_intervals ((b :: l) ++ [x])).
  rewrite IH. reflexivity.
Qed.

Lemma successive_intervals_drop (k : nat) (l : list Z) :
  successive_intervals (drop k l) = drop k (successive_intervals l).
Proof.
  revert l. induction k as [| k IH]; intros l; [reflexivity |].
  destruct l as [| a l]; [reflexivity |].
  destruct l as [| b l].
  - cbn. rewrite drop_nil. reflexivity.
  - change (drop (S k) (a :: b :: l)) with (drop k (b :: l)).
    rewrite IH. reflexivity.
Qed.

Lemma peaks_ok_initial : peaks_ok initialBeat.
Proof.
  unfold peaks_ok, peak_window, ring_shape, PEAK_BUFFER_SIZE. cbn.
  repeat split; try lia. apply Forall_nil_2.
Qed.

Lemma peaks_ok_reset (st : Beat.t) : peaks_ok (resetDetector st).
Proof. apply peaks_ok_initial. Qed.

(** The fields a detected beat writes. *)
Lemma detect_beat (irValue currentTime minValue maxValue : Z) (st : Beat.t) :
  is_peak irValue currentTime (peak_threshold minValue maxValue) st = true ->
  let st' := detectPeakAndCalculateBPM irValue currentTime minValue maxValue st in
  Beat.peakTimes st'
    = set_index (Beat.peakTimes st) (Beat.peakIndex st) currentTime /\
  Beat.peakIndex st' = Z.rem (Beat.peakIndex st + 1) PEAK_BUFFER_SIZE /\
  Beat.peakCount st'
    = (if Beat.peakCount st <? PEAK_BUFFER_SIZE
       then Beat.peakCount st + 1 else Beat.peakCount st) /\
  Beat.lastPeakTime st' = currentTime /\
  Beat.currentBPM st'
    = bpm_from_peaks (Beat.peakTimes st') (Beat.peakIndex st')
                     (Beat.peakCount st') (Beat.currentBPM st).
Proof.
  intros Hp. cbv zeta. unfold detectPeakAndCalculateBPM. rewrite Hp. cbn.
  repeat split.
Qed.

(** Without a beat the peak ring, the BPM and the HRV globals stay. *)
Lemma detect_no_beat (irValue currentTime minValue maxValue : Z) (st : Beat.t) :
  is_peak irValue currentTime (peak_threshold minValue maxValue) st = false ->
  let st' := detectPeakAndCalculateBPM irValue currentTime minValue maxValue st in
  Beat.peakTimes st' = Beat.peakTimes st /\
  Beat.peakIndex st' = Beat.peakIndex st /\
  Beat.peakCount st' = Beat.peakCount st /\
  Beat.lastPeakTime st' = Beat.lastPeakTime st /\
  Beat.currentBPM st' = Beat.currentBPM st /\
  Beat.hrv st' = Beat.hrv st.
Proof.
  intros Hp. cbv zeta. unfold detectPeakAndCalculateBPM. rewrite Hp. cbn.
  repeat split.
Qed.

Lemma peak_window_beat (irValue currentTime minValue maxValue : Z) (st : Beat.t) :
  peaks_ok st ->
  is_peak irValue currentTime (peak_threshold minValue maxValue) st = true ->
  peak_window (detectPeakAndCalculateBPM irValue currentTime minValue maxValue st)
  = last_n 10 (peak_window st ++ [currentTime]).
Proof.
  intros (Hshape & _) Hp.
  destruct (detect_beat irValue currentTime minValue maxValue st Hp)
    as (Et & Ei & Ec & _).
  unfold peak_window. rewrite Et, Ei, Ec.
  apply (ring_window_push PEAK_BUFFER_SIZE); [reflexivity | exact Hshape].
Qed.

Lemma peaks_ok_detect (irValue currentTime minValue maxValue : Z) (st : Beat.t) :
  peaks_ok st ->
  peaks_ok (detectPeakAndCalculateBPM irValue currentTime minValue maxValue st).
Proof.
  intros Hok.
  destruct (is_peak irValue currentTime (peak_threshold minValue maxValue) st)
    eqn:Hp.
  - pose proof (peak_window_beat _ _ _ _ st Hok Hp) as Hw.
    destruct (detect_beat irValue currentTime minValue maxValue st Hp)
      as (Et & Ei & Ec & El & _).
    destruct Hok as (Hshape & Hspaced & Hlast).
    unfold peaks_ok. rewrite Hw. split; [| split].
    + rewrite Et, Ei, Ec.
      apply ring_shape_push; [reflexivity | exact Hshape].
    + unfold last_n. rewrite successive_intervals_drop.
      apply Forall_drop. rewrite successive_intervals_snoc.
      apply Forall_app. split; [exact Hspaced |].
      destruct (last (peak_window st)) as [y |] eqn:Ey; [| apply Forall_nil_2].
      apply Forall_singleton.
      assert (Hpos : 0 < Beat.peakCount st).
      { destruct (Z.lt_ge_cases 0 (Beat.peakCount st)) as [H | H]; [exact H |].
        assert (E : peak_window st = []).
        { apply nil_length_inv. unfold peak_window.
          rewrite ring_window_length. lia. }
        rewrite E in Ey. discriminate Ey. }
      assert (Ey' : y = Beat.lastPeakTime st)
        by (specialize (Hlast Hpos); congruence).
      subst y.
      unfold is_peak in Hp. rewrite !andb_true_iff in Hp.
      destruct Hp as (_ & Hgap). apply Z.ltb_lt in Hgap. exact Hgap.
    + intros _. rewrite last_n_last, last_snoc, El by lia. reflexivity.
  - destruct (detect_no_beat irValue currentTime minValue maxValue st Hp)
      as (Et & Ei & Ec & El & _).
    unfold peaks_ok, peak_window in *. rewrite Et, Ei, Ec, El. exact Hok.
Qed.

Lemma peaks_ok_run (evs : list HeartEvent) :
  peaks_ok (run_heart evs initialBeat).
Proof.
  induction evs as [| ev evs IH] using rev_ind.
  - apply peaks_ok_initial.
  - rewrite run_heart_snoc. destruct ev; cbn [heart_step].
    + apply peaks_ok_detect, IH.
    + apply peaks_ok_reset.
Qed.

(** C6. On every beat the detector registers, in any state it can reach,
    once three or more peak times are recorded: the BPM is 60000 over the
    mean of the consecutive peak-to-peak intervals that lie in
    [[250, 2000)]; a value below 40 or above 200 is replaced by 0; and if no
    interval is valid the previous BPM is kept. *)
Theorem bpm_on_detected_beat (evs : list HeartEvent)
    (irValue currentTime minValue maxValue : Z) :
  let st := run_heart evs initialBeat in
  let st' := detectPeakAndCalculateBPM irValue currentTime minValue maxValue st in
  is_peak irValue currentTime (peak_threshold minValue maxValue) st = true ->
  3 <= Beat.peakCount st' ->
  Beat.currentBPM st'
  = bpm_spec (successive_intervals (peak_window st')) (Beat.currentBPM st).
Proof.
  intros st st' Hp Hc.
  pose proof (peaks_ok_run evs) as Hok. fold st in Hok.
  pose proof (peaks_ok_detect irValue currentTime minValue maxValue st Hok)
    as Hok'. fold st' in Hok'.
  destruct (detect_beat irValue currentTime minValue maxValue st Hp)
    as (_ & _ & _ & _ & Eb). fold st' in Eb.
  rewrite Eb. destruct Hok' as ((_ & _ & Hcount & _) & Hspaced & _).
  apply bpm_from_peaks_spec.
  - unfold PEAK_BUFFER_SIZE in Hcount. lia.
  - exact Hspaced.
Qed.

(** Three beats 800 ms apart: the third one yields 75 BPM. *)
Lemma bpm_on_detected_beat_witness :
  let evs := [Sample 1000 1000 0 500; Sample 900 1020 0 500;
              Sample 1000 1800 0 500; Sample 900 1820 0 500] in
  let st := run_heart evs initialBeat in
  let st' := detectPeakAndCalculateBPM 1000 2600 0 500 st in
  is_peak 1000 2600 (peak_threshold 0 500) st = true /\
  3 <= Beat.peakCount st' /\
  Beat.currentBPM st' = 75%R.
Proof.
  intros evs st st'.
  assert (Hp : is_peak 1000 2600 (peak_threshold 0 500) st = true)
    by (vm_compute; reflexivity).
  assert (Hc : 3 <= Beat.peakCount st') by (vm_compute; discriminate).
  split; [exact Hp |]. split; [exact Hc |].
  subst st st'.
  rewrite (bpm_on_detected_beat evs 1000 2600 0 500 Hp Hc).
  match goal with |- bpm_spec ?l _ = _ =>
    replace l with [800; 800] by (vm_compute; reflexivity) end.
  unfold bpm_spec.
  replace (List.filter interval_valid [800; 800]) with [800; 800]
    by (vm_compute; reflexivity).
  cbv beta iota zeta.
  replace (sum_list [800; 800]) with 1600 by (vm_compute; reflexivity).
  replace (Z.of_nat (length [800; 800])) with 2 by (vm_compute; reflexivity).
  replace (60000 / (1600 / 2))%R with 75%R by (field_simplify; lra).
  destruct (Rlt_dec 75 40); [lra |].
  destruct (Rgt_dec 75 200); [lra | reflexivity].
Defined.

(** ** Stress fusion engine *)

Lemma constrain_range (amt low high : R) :
  (low <= high)%R -> (low <= constrain amt low high <= high)%R.
Proof.
  intros H. unfold constrain.
  destruct (Rlt_dec amt low); [lra |].
  destruct (Rgt_dec amt high); lra.
Qed.

(** The adjusted stress is clamped whatever the sensors report. *)
Lemma adjusted_stress_percent (inp : Sensors.t) (st : Fusion.t) :
  percent (adjusted_stress inp st).
Proof. unfold percent, adjusted_stress. apply constrain_range. lra. Qed.

(** One cycle keeps both smoothed values, hence both outputs, in
    [[0, 100]]. *)
Lemma fusion_cycle_percent (st : Fusion.t) (inp : Sensors.t) :
  percent (Fusion.smoothedStressData st) ->
  percent (Fusion.smoothedStressDisplay st) ->
  let st' := fusion_cycle st inp in
  percent (Fusion.smoothedStressData st') /\
  percent (Fusion.smoothedStressDisplay st') /\
  Fusion.stressIndex st' = Fusion.smoothedStressData st' /\
  Fusion.stressIndexDisplay st' = Fusion.smoothedStressDisplay st' /\
  snd (calculateStressIndex inp st) = Fusion.stressIndex st'.
Proof.
  intros Hd Hs. cbv zeta. unfold fusion_cycle, calculateStressIndex.
  cbn [Fusion.smoothedStressData Fusion.smoothedStressDisplay
       Fusion.stressIndex Fusion.stressIndexDisplay snd].
  pose proof (adjusted_stress_percent inp st) as Ha.
  set (a := adjusted_stress inp st) in *.
  unfold percent in *.
  repeat split; try lra.
  - match goal with |- context [if ?c then 0.90%R else 0.40%R] =>
      destruct c end; lra.
  - match goal with |- context [if ?c then 0.90%R else 0.40%R] =>
      destruct c end; lra.
Qed.

(** C1. Starting from 0 and 0, after any number of evaluation cycles on
    any sensor readings, the data-path value [stressIndex] (the value
    [calculateStressIndex] returned last) and the display-path value
    [stressIndexDisplay] lie in [[0, 100]]; the adjusted stress of every
    cycle is clamped to [[0, 100]] before it is smoothed. *)
Theorem stress_index_percent (inputs : list Sensors.t) :
  let st := run_fusion inputs initialFusion in
  percent (Fusion.stressIndex st) /\
  percent (Fusion.stressIndexDisplay st) /\
  (forall inp, percent (adjusted_stress inp st)) /\
  (forall inp, percent (snd (calculateStressIndex inp st)) /\
               percent (Fusion.stressIndexDisplay
                          (fst (calculateStressIndex inp st)))).
Proof.
  cbv zeta.
  assert (Hinv : percent (Fusion.smoothedStressData (run_fusion inputs initialFusion)) /\
                 percent (Fusion.smoothedStressDisplay (run_fusion inputs initialFusion)) /\
                 percent (Fusion.stressIndex (run_fusion inputs initialFusion)) /\
                 percent (Fusion.stressIndexDisplay (run_fusion inputs initialFusion))).
  { induction inputs as [| inp inputs IH] using rev_ind.
    - unfold percent. cbn. repeat split; lra.
    - unfold run_fusion in *. rewrite fold_left_app. cbn [fold_left].
      destruct IH as (Hd & Hs & _).
      destruct (fusion_cycle_percent _ inp Hd Hs) as (Hd' & Hs' & Ei & Ed & _).
      rewrite Ei, Ed. tauto. }
  destruct Hinv as (Hd & Hs & Hi & Hdisp).
  split; [exact Hi |]. split; [exact Hdisp |].
  split; [intros inp; apply adjusted_stress_percent |].
  intros inp.
  destruct (fusion_cycle_percent _ inp Hd Hs) as (Hd' & Hs' & Ei & Ed & Er).
  rewrite Er, Ei. split; [exact Hd' |].
  unfold fusion_cycle in Ed, Hs'.
  destruct (calculateStressIndex inp (run_fusion inputs initialFusion))
    as [st' r] eqn:E.
  cbn [fst]. cbn in Ed, Hs'. rewrite Ed. exact Hs'.
Qed.

(** Decides the comparisons of a closed real expression, innermost first. *)
Ltac no_test t :=
  lazymatch t with
  | context [Rgt_dec _ _] => fail
  | context [Rlt_dec _ _] => fail
  | _ => idtac
  end.

Ltac rcases :=
  repeat match goal with
  | |- context [Rlt_dec ?a ?b] =>
      no_test a; no_test b;
      destruct (Rlt_dec a b); [try (exfalso; lra) | try (exfalso; lra)]
  | |- context [Rgt_dec ?a ?b] =>
      no_test a; no_test b;
      destruct (Rgt_dec a b); [try (exfalso; lra) | try (exfalso; lra)]
  end.

(** An extreme reading: no heart-rate sensor, GSR a thousand swings away
    from its baseline, no motion. The adjusted stress is clamped to 100 and
    the first data-path value is 90. *)
Lemma extreme_gsr_is_clamped :
  let inp := Sensors.mk false 0 0 50 STILL 100000 0 0 0 in
  adjusted_stress inp initialFusion = 100%R /\
  snd (calculateStressIndex inp initialFusion) = 90%R.
Proof.
  cbv zeta.
  assert (Ha : adjusted_stress (Sensors.mk false 0 0 50 STILL 100000 0 0 0)
                               initialFusion = 100%R).
  { unfold adjusted_stress, gsr_score, gsr_swing, pmr, activity_weight,
           hrv_score, constrain, fabs.
    cbn [Sensors.hrSensorActive Sensors.count Sensors.currentGSR
         Sensors.baselineGSR Sensors.currentHR Sensors.motionVariance
         Sensors.currentActivity Fusion.gsrMaxSwing Fusion.previousHR
         Fusion.previousGSR initialFusion andb].
    rcases. lra. }
  split; [exact Ha |].
  unfold calculateStressIndex. cbn [snd]. rewrite Ha.
  cbn [Fusion.smoothedStressData initialFusion]. lra.
Qed.

(** ** Today record *)

Lemma land_255 (x : Z) : 0 <= x -> u8 (Z.land x 255) = x mod 256.
Proof.
  intros Hx. change 255 with (Z.ones 8). rewrite Z.land_ones by lia.
  change (2 ^ 8) with 256. apply u8_small. apply Z.mod_pos_bound. lia.
Qed.

Lemma high_byte (x : Z) :
  is_u16 x -> u8 (Z.land (Z.shiftr x 8) 255) = x / 256.
Proof.
  unfold is_u16. intros Hx. rewrite Z.shiftr_div_pow2 by lia.
  change (2 ^ 8) with 256.
  assert (H : 0 <= x / 256 < 256)
    by (split; [apply Z.div_pos; lia | apply Z.div_lt_upper_bound; lia]).
  rewrite land_255 by lia. apply Z.mod_small. exact H.
Qed.

Lemma flags_byte (valid : bool) (activity : Z) :
  0 <= activity <= 3 ->
  let flags := u8 (Z.lor (if valid then 1 else 0)
                         (Z.shiftl (Z.land activity 3) 1)) in
  flags = (if valid then 1 else 0) + 2 * activity /\
  Z.testbit flags 0 = valid /\
  Z.land (Z.shiftr flags 1) 3 = activity.
Proof.
  intros Ha.
  assert (Hcases : activity = 0 \/ activity = 1 \/ activity = 2 \/ activity = 3)
    by lia.
  destruct valid; destruct Hcases as [-> | [-> | [-> | ->]]];
    cbv zeta; repeat split; reflexivity.
Qed.

Lemma set_index_next (done post : list Z) (x v i : Z) :
  i = Z.of_nat (length done) ->
  set_index (done ++ x :: post) i v = (done ++ [v]) ++ post.
Proof.
  intros ->. unfold set_index. rewrite Nat2Z.id.
  rewrite insert_app_r_alt by lia. rewrite Nat.sub_diag.
  rewrite <- app_assoc. reflexivity.
Qed.

(** One iteration overwrites the ten bytes at [offset] with the layout of
    the record. *)
Lemma packTodayEntry_block (pre old post : list Z) (offset : Z)
    (rec : HourlySummary.t) :
  offset = Z.of_nat (length pre) -> length old = 10%nat ->
  HourlySummary.wf rec ->
  0 <= HourlySummary.avgActivityLevel rec <= 3 ->
  packTodayEntry (pre ++ old ++ post) offset rec
  = pre ++ today_layout rec ++ post.
Proof.
  intros Hoff Hlen Hwf Hact.
  destruct Hwf as (_ & _ & _ & _ & _ & Hhrv & Hgsr & _).
  do 10 (destruct old as [| ? old]; [discriminate Hlen |]).
  destruct old; [| discriminate Hlen]. clear Hlen.
  unfold packTodayEntry, today_layout. cbv zeta.
  pose proof Hhrv as Hhrv'. pose proof Hgsr as Hgsr'.
  unfold is_u16 in Hhrv', Hgsr'.
  rewrite !high_byte by assumption. rewrite !land_255 by lia.
  destruct (flags_byte (0 <? HourlySummary.sampleCount rec)
                       (HourlySummary.avgActivityLevel rec) Hact) as (Ef & _).
  rewrite Ef. clear Ef. cbn [app].
  do 10 (rewrite set_index_next by (rewrite ?length_app; cbn [length]; lia)).
  rewrite <- !app_assoc. reflexivity.
Qed.

Lemma today_layout_length (rec : HourlySummary.t) :
  length (today_layout rec) = 10%nat.
Proof. reflexivity. Qed.

Lemma at_index_app_mid {A : Type} (d : A) (pre mid post : list A) (i k : Z) :
  i = Z.of_nat (length pre) -> 0 <= k < Z.of_nat (length mid) ->
  at_index d (pre ++ mid ++ post) (i + k) = at_index d mid k.
Proof.
  intros -> Hk. unfold at_index.
  rewrite lookup_app_r by lia.
  replace (Z.to_nat (Z.of_nat (length pre) + k) - length pre)%nat
    with (Z.to_nat k) by lia.
  rewrite lookup_app_l by lia. reflexivity.
Qed.

(** The loop of [packTodayData], started at hour [length done]. *)
Lemma packTodayData_loop (recs done : list HourlySummary.t) (pre rest : list Z) :
  Forall today_ok recs ->
  length pre = (10 * length done)%nat ->
  length rest = (10 * length recs)%nat ->
  fold_left
    (fun buffer i =>
       packTodayEntry buffer (i * 10)
         (at_index (HourlySummary.empty 0) (done ++ recs) i))
    (seqZ (Z.of_nat (length done)) (Z.of_nat (length recs))) (pre ++ rest)
  = pre ++ concat (map today_layout recs).
Proof.
  revert done pre rest.
  induction recs as [| rec recs IH]; intros done pre rest Hok Hpre Hrest.
  - destruct rest; [| discriminate Hrest]. reflexivity.
  - rewrite seqZ_cons by (cbn [length]; lia). cbn [fold_left].
    apply Forall_cons in Hok. destruct Hok as [[Hwf Hact] Hok].
    replace (at_index (HourlySummary.empty 0) (done ++ rec :: recs)
                      (Z.of_nat (length done))) with rec
      by (unfold at_index; rewrite Nat2Z.id, list_lookup_middle; reflexivity).
    rewrite <- (take_drop 10 rest).
    rewrite (packTodayEntry_block pre (take 10 rest) (drop 10 rest));
      [| lia | rewrite length_take; cbn [length] in Hrest; lia
       | exact Hwf | exact Hact].
    replace (Z.succ (Z.of_nat (length done)))
      with (Z.of_nat (length (done ++ [rec])))
      by (rewrite length_app; cbn [length]; lia).
    replace (Z.pred (Z.of_nat (length (rec :: recs))))
      with (Z.of_nat (length recs)) by (cbn [length]; lia).
    replace (done ++ rec :: recs) with ((done ++ [rec]) ++ recs)
      by (rewrite <- app_assoc; reflexivity).
    rewrite app_assoc.
    rewrite (IH (done ++ [rec]) (pre ++ today_layout rec) (drop 10 rest)).
    + cbn [map concat]. rewrite <- app_assoc. reflexivity.
    + exact Hok.
    + rewrite !length_app, today_layout_length. cbn [length]. lia.
    + rewrite length_drop. cbn [length] in Hrest. lia.
Qed.

Lemma packTodayData_concat (todayData : list HourlySummary.t) (buffer : list Z) :
  length todayData = 24%nat -> Forall today_ok todayData ->
  length buffer = 240%nat ->
  packTodayData todayData buffer = concat (map today_layout todayData).
Proof.
  intros Hlen Hok Hbuf. unfold packTodayData, HOURS_PER_DAY.
  pose proof (packTodayData_loop todayData [] [] buffer Hok) as H.
  cbn [length app] in H. rewrite Hlen in H. apply H; [reflexivity | lia].
Qed.

Lemma flags_decode (valid : bool) (activity : Z) :
  0 <= activity <= 3 ->
  let flags := (if valid then 1 else 0) + 2 * activity in
  Z.testbit flags 0 = valid /\ Z.land (Z.shiftr flags 1) 3 = activity.
Proof.
  intros Ha.
  assert (Hcases : activity = 0 \/ activity = 1 \/ activity = 2 \/ activity = 3)
    by lia.
  destruct valid; destruct Hcases as [-> | [-> | [-> | ->]]];
    cbv zeta; split; reflexivity.
Qed.

(** Decoding the ten bytes of a layout gives back the fields. *)
Lemma decodeTodayEntry_layout (pre post : list Z) (offset : Z)
    (rec : HourlySummary.t) :
  offset = Z.of_nat (length pre) -> today_ok rec ->
  decodeTodayEntry (pre ++ today_layout rec ++ post) offset = today_view rec.
Proof.
  intros Hoff [Hwf Hact]. unfold decodeTodayEntry. cbv zeta.
  rewrite !(at_index_app_mid 0 pre (today_layout rec) post offset)
    by (assumption || (rewrite today_layout_length; lia)).
  unfold today_layout, today_view.
  replace (at_index 0 _ 0) with (HourlySummary.hour rec) by reflexivity.
  replace (at_index 0 _ 1) with (HourlySummary.avgStress rec) by reflexivity.
  replace (at_index 0 _ 2) with (HourlySummary.peakStress rec) by reflexivity.
  replace (at_index 0 _ 3) with (HourlySummary.highStressMins rec) by reflexivity.
  replace (at_index 0 _ 4) with (HourlySummary.avgHR rec) by reflexivity.
  replace (at_index 0 _ 5) with (HourlySummary.avgHRV rec mod 256) by reflexivity.
  replace (at_index 0 _ 6) with (HourlySummary.avgHRV rec / 256) by reflexivity.
  replace (at_index 0 _ 7) with (HourlySummary.avgGSR rec mod 256) by reflexivity.
  replace (at_index 0 _ 8) with (HourlySummary.avgGSR rec / 256) by reflexivity.
  replace (at_index 0 _ 9)
    with ((if 0 <? HourlySummary.sampleCount rec then 1 else 0)
          + 2 * HourlySummary.avgActivityLevel rec) by reflexivity.
  destruct (flags_decode (0 <? HourlySummary.sampleCount rec)
                         (HourlySummary.avgActivityLevel rec) Hact) as [Ev Ea].
  cbv zeta in Ev, Ea. rewrite Ev, Ea.
  f_equal.
  - pose proof (Z.div_mod (HourlySummary.avgHRV rec) 256). lia.
  - pose proof (Z.div_mod (HourlySummary.avgGSR rec) 256). lia.
Qed.

Lemma concat_layout_length (l : list HourlySummary.t) :
  length (concat (map today_layout l)) = (10 * length l)%nat.
Proof.
  induction l as [| r l IH]; [reflexivity |].
  cbn [map concat]. rewrite length_app, today_layout_length, IH.
  cbn [length]. lia.
Qed.

Lemma concat_layout_split (l : list HourlySummary.t) (i : nat)
    (rec : HourlySummary.t) :
  l !! i = Some rec ->
  concat (map today_layout l)
  = concat (map today_layout (take i l)) ++ today_layout rec
    ++ concat (map today_layout (drop (S i) l)) /\
  length (concat (map today_layout (take i l))) = (10 * i)%nat.
Proof.
  intros Hi. split.
  - rewrite <- (take_drop_middle l i rec Hi) at 1.
    rewrite map_app, concat_app. reflexivity.
  - apply lookup_lt_Some in Hi.
    rewrite concat_layout_length, length_take. lia.
Qed.

(** C8. For 24 hourly summaries whose fields fit their types and whose
    activity level is in [[0, 3]], [packTodayData] fills the 240-byte buffer
    with the 24 ten-byte layouts in hour order, and decoding the buffer
    entry by entry gives back hour, avgStress, peakStress, highStressMins,
    avgHR, avgHRV, avgGSR, the valid bit (sampleCount > 0) and the activity
    level of every record. *)
Theorem packTodayData_roundtrip (todayData : list HourlySummary.t)
    (buffer : list Z) :
  length todayData = 24%nat -> Forall today_ok todayData ->
  length buffer = 240%nat ->
  let packed := packTodayData todayData buffer in
  packed = concat (map today_layout todayData) /\
  length packed = 240%nat /\
  decodeToday packed = map today_view todayData.
Proof.
  intros Hlen Hok Hbuf packed.
  assert (Hp : packed = concat (map today_layout todayData))
    by (apply packTodayData_concat; assumption).
  split; [exact Hp |]. split.
  - rewrite Hp, concat_layout_length, Hlen. reflexivity.
  - rewrite Hp. unfold decodeToday, HOURS_PER_DAY.
    apply list_eq. intros i.
    rewrite !list_lookup_fmap.
    destruct (Nat.lt_ge_cases i 24) as [Hi | Hi].
    + rewrite lookup_seqZ_lt by lia. cbn [fmap option_fmap option_map].
      destruct (lookup_lt_is_Some_2 todayData i) as [rec Hrec]; [lia |].
      rewrite Hrec. cbn [fmap option_fmap option_map]. f_equal.
      destruct (concat_layout_split todayData i rec Hrec) as [Es El].
      rewrite Es. apply decodeTodayEntry_layout; [lia |].
      rewrite Forall_forall in Hok. apply Hok.
      apply list_elem_of_lookup_2 in Hrec. exact Hrec.
    + rewrite lookup_seqZ_ge by lia.
      rewrite lookup_ge_None_2 by lia. reflexivity.
Qed.

(** The theorem at [sampleDay] packed into a zeroed buffer. *)
Lemma packTodayData_roundtrip_witness :
  length sampleDay = 24%nat /\
  length (replicate 240 0) = 240%nat /\
  decodeToday (packTodayData sampleDay (replicate 240 0))
    = map today_view sampleDay.
Proof.
  split; [reflexivity |]. split; [reflexivity |].
  apply (packTodayData_roundtrip sampleDay (replicate 240 0)).
  - reflexivity.
  - let v := eval vm_compute in sampleDay in change sampleDay with v.
    repeat (apply List.Forall_cons;
            [unfold today_ok, HourlySummary.wf, is_u8, is_u16; cbn; lia |]).
    apply List.Forall_nil.
  - reflexivity.
Defined.

(** ** Week record *)

(** C9 (the code departs from the claim). A stored day with five valid
    hours of 60 high-stress minutes each has 300 high-stress minutes, but
    the week entry reports 44: the running total is kept in a [uint8_t] and
    wraps at 256. The other fields of the entry are the day index, the mean
    stress, the peak and its hour, the mean HR, the mean HRV and the valid
    flag. *)
Theorem week_high_stress_minutes_wrap :
  let packed := packWeekData stressfulWeek (replicate 70 0) in
  length (valid_hours stressfulDay) = 5%nat /\
  sum_over HourlySummary.highStressMins stressfulDay = 300 /\
  at_index 0 packed 4 = 44 /\
  take 10 packed = [0; 75; 90; 8; 44; 80; 30; 0; 0; 1].
Proof. vm_compute. repeat split. Qed.

Lemma valid_hours_snoc (done : list HourlySummary.t) (rec : HourlySummary.t) :
  valid_hours (done ++ [rec])
  = valid_hours done ++ (if hour_valid rec then [rec] else []).
Proof. unfold valid_hours. rewrite List.filter_app. reflexivity. Qed.

Lemma sum_over_snoc (f : HourlySummary.t -> Z) (done : list HourlySummary.t)
    (rec : HourlySummary.t) :
  sum_over f (done ++ [rec])
  = sum_over f done + (if hour_valid rec then f rec else 0).
Proof.
  unfold sum_over. rewrite valid_hours_snoc, map_app, sum_list_app.
  destruct (hour_valid rec); cbn; lia.
Qed.

Lemma sum_over_bound (f : HourlySummary.t -> Z) (bound : Z)
    (done : list HourlySummary.t) :
  Forall (fun rec => 0 <= f rec < bound) done ->
  0 <= sum_over f done <= bound * Z.of_nat (length done).
Proof.
  induction done as [| rec done IH] using rev_ind; intros Hall.
  - cbn. lia.
  - apply Forall_app in Hall. destruct Hall as [Hdone Hrec].
    apply Forall_inv in Hrec. cbv beta in Hrec. specialize (IH Hdone).
    rewrite sum_over_snoc, length_app. cbn [length].
    destruct (hour_valid rec); nia.
Qed.

(** One more hour keeps the loop's statistics in step with the hours gone
    through. *)
Lemma stats_of_step (done rest : list HourlySummary.t) (rec : HourlySummary.t)
    (s : DayStats.t) :
  Forall HourlySummary.wf (done ++ [rec]) -> (length done < 24)%nat ->
  stats_of done s ->
  stats_of (done ++ [rec])
           (aggregate_hour (done ++ rec :: rest) s (Z.of_nat (length done))).
Proof.
  intros Hwf Hlen (Es & Eh & Ev & En & Em & Hmax & Hpk).
  unfold aggregate_hour.
  replace (at_index (HourlySummary.empty 0) (done ++ rec :: rest)
                    (Z.of_nat (length done))) with rec
    by (unfold at_index; rewrite Nat2Z.id, list_lookup_middle; reflexivity).
  assert (Hb1 : 0 <= sum_over HourlySummary.avgStress (done ++ [rec])
                <= 65536 * Z.of_nat (length (done ++ [rec]))).
  { apply sum_over_bound. eapply Forall_impl; [exact Hwf |].
    intros r Hr. destruct Hr as (_ & H & _). unfold is_u8 in H. lia. }
  assert (Hb2 : 0 <= sum_over HourlySummary.avgHR (done ++ [rec])
                <= 65536 * Z.of_nat (length (done ++ [rec]))).
  { apply sum_over_bound. eapply Forall_impl; [exact Hwf |].
    intros r Hr. destruct Hr as (_ & _ & _ & _ & H & _). unfold is_u8 in H. lia. }
  assert (Hb3 : 0 <= sum_over HourlySummary.avgHRV (done ++ [rec])
                <= 65536 * Z.of_nat (length (done ++ [rec]))).
  { apply sum_over_bound. eapply Forall_impl; [exact Hwf |].
    intros r Hr. destruct Hr as (_ & _ & _ & _ & _ & H & _).
    unfold is_u16 in H. lia. }
  rewrite length_app in Hb1, Hb2, Hb3. cbn [length] in Hb1, Hb2, Hb3.
  unfold stats_of. rewrite !sum_over_snoc in *. rewrite valid_hours_snoc.
  fold (hour_valid rec). destruct (hour_valid rec) eqn:Hvalid.
  - cbn [DayStats.stressSum DayStats.hrSum DayStats.hrvSum DayStats.validHours
         DayStats.highMins DayStats.peakStress DayStats.peakHour].
    rewrite Es, Eh, Ev, En, Em. rewrite !u32_small by lia.
    rewrite length_app. cbn [length].
    split; [reflexivity |]. split; [reflexivity |]. split; [reflexivity |].
    split; [lia |]. split.
    { unfold u8. rewrite Zplus_mod_idemp_l. reflexivity. }
    destruct (Z.ltb_spec (DayStats.peakStress s) (HourlySummary.peakStress rec))
      as [Hhigher | Hnot].
    + split.
      * intros r Hr. apply in_app_or in Hr. destruct Hr as [Hr | [<- | []]];
          [specialize (Hmax r Hr) |]; lia.
      * right. exists rec. rewrite u8_small by lia. rewrite Nat2Z.id.
        rewrite list_lookup_middle by reflexivity.
        repeat split; try reflexivity; try exact Hvalid.
        intros h' rec' Hh' Hl Hv'.
        rewrite lookup_app_l in Hl by lia.
        assert (Hin : In rec' (valid_hours done)).
        { unfold valid_hours. apply filter_In. split; [| exact Hv'].
          apply list_elem_of_In. eapply list_elem_of_lookup_2. exact Hl. }
        specialize (Hmax rec' Hin). lia.
    + split.
      * intros r Hr. apply in_app_or in Hr. destruct Hr as [Hr | [<- | []]];
          [apply Hmax, Hr | lia].
      * destruct Hpk as [[Hz1 Hz2] | (r & Hl & Hv & Hp & Hfirst)];
          [left; split; assumption | right].
        exists r. pose proof (lookup_lt_Some _ _ _ Hl) as Hlt.
        rewrite lookup_app_l by lia.
        repeat split; try assumption.
        intros h' rec' Hh' Hl' Hv'.
        rewrite lookup_app_l in Hl' by lia. eapply Hfirst; eassumption.
  - rewrite !Z.add_0_r, app_nil_r in *.
    split; [exact Es |]. split; [exact Eh |]. split; [exact Ev |].
    split; [exact En |]. split; [exact Em |]. split; [exact Hmax |].
    destruct Hpk as [Hz | (r & Hl & Hv & Hp & Hfirst)]; [left; exact Hz | right].
    exists r. pose proof (lookup_lt_Some _ _ _ Hl) as Hlt.
    rewrite lookup_app_l by lia.
    repeat split; try assumption.
    intros h' rec' Hh' Hl' Hv'.
    rewrite lookup_app_l in Hl' by lia. eapply Hfirst; eassumption.
Qed.

Lemma stats_of_zero : stats_of [] DayStats.zero.
Proof.
  unfold stats_of. cbn. repeat split; try reflexivity.
  - intros rec [].
  - left. split; reflexivity.
Qed.

Lemma aggregate_fold (recs done : list HourlySummary.t) (s : DayStats.t) :
  Forall HourlySummary.wf (done ++ recs) ->
  (length (done ++ recs) <= 24)%nat ->
  stats_of done s ->
  stats_of (done ++ recs)
           (fold_left (aggregate_hour (done ++ recs))
                      (seqZ (Z.of_nat (length done)) (Z.of_nat (length recs))) s).
Proof.
  revert done s. induction recs as [| rec recs IH]; intros done s Hwf Hlen Hs.
  - rewrite app_nil_r. exact Hs.
  - rewrite seqZ_cons by (cbn [length]; lia). cbn [fold_left].
    replace (Z.succ (Z.of_nat (length done)))
      with (Z.of_nat (length (done ++ [rec])))
      by (rewrite length_app; cbn [length]; lia).
    replace (Z.pred (Z.of_nat (length (rec :: recs))))
      with (Z.of_nat (length recs)) by (cbn [length]; lia).
    assert (E : done ++ rec :: recs = (done ++ [rec]) ++ recs)
      by (rewrite <- app_assoc; reflexivity).
    rewrite E at 1 2. rewrite E in Hwf, Hlen.
    apply IH; [exact Hwf | exact Hlen |].
    apply stats_of_step.
    + apply Forall_app in Hwf. tauto.
    + rewrite !length_app in Hlen. cbn [length] in Hlen. lia.
    + exact Hs.
Qed.

(** The statistics of a stored day are those of its 24 hours. *)
Lemma aggregate_day_stats (dayData : list HourlySummary.t) :
  length dayData = 24%nat -> Forall HourlySummary.wf dayData ->
  stats_of dayData (aggregate_day (Some dayData)).
Proof.
  intros Hlen Hwf. unfold aggregate_day, HOURS_PER_DAY.
  pose proof (aggregate_fold dayData [] DayStats.zero) as H.
  cbn [app length] in H. rewrite Hlen in H.
  apply H; [exact Hwf | lia | apply stats_of_zero].
Qed.

(** A day without a stored blob, or with a blob of another size, has
    all-zero statistics. *)
Lemma aggregate_day_missing (preferences : Preferences) (d : Z) :
  (forall blob, pref_days preferences !! d = Some blob ->
                length blob <> 24%nat) ->
  aggregate_day (getBytes_day preferences d) = DayStats.zero /\
  week_layout d DayStats.zero = [u8 d; 0; 0; 0; 0; 0; 0; 0; 0; 0].
Proof.
  intros Hmiss. split; [| reflexivity].
  unfold getBytes_day.
  destruct (pref_days preferences !! d) as [blob |] eqn:E; [| reflexivity].
  specialize (Hmiss blob eq_refl). unfold HOURS_PER_DAY.
  destruct (Z.eqb_spec (Z.of_nat (length blob)) 24); [lia | reflexivity].
Qed.

(** One iteration overwrites the ten bytes at [offset]. *)
Lemma packWeekEntry_block (pre old post : list Z) (offset d : Z)
    (s : DayStats.t) :
  offset = Z.of_nat (length pre) -> length old = 10%nat ->
  packWeekEntry (pre ++ old ++ post) offset d s = pre ++ week_layout d s ++ post.
Proof.
  intros Hoff Hlen.
  do 10 (destruct old as [| ? old]; [discriminate Hlen |]).
  destruct old; [| discriminate Hlen]. clear Hlen.
  unfold packWeekEntry, week_layout. cbv zeta. cbn [app].
  do 10 (rewrite set_index_next by (rewrite ?length_app; cbn [length]; lia)).
  rewrite <- !app_assoc. reflexivity.
Qed.

Lemma packWeekData_loop (preferences : Preferences) (n : nat) (k : Z)
    (pre rest : list Z) :
  Z.of_nat (length pre) = 10 * k -> length rest = (10 * n)%nat ->
  fold_left
    (fun buffer d =>
       packWeekEntry buffer (d * 10) d
                     (aggregate_day (getBytes_day preferences d)))
    (seqZ k (Z.of_nat n)) (pre ++ rest)
  = pre ++ concat (map (fun d => week_layout d
                                   (aggregate_day (getBytes_day preferences d)))
                       (seqZ k (Z.of_nat n))).
Proof.
  revert k pre rest. induction n as [| n IH]; intros k pre rest Hpre Hrest.
  - destruct rest; [| discriminate Hrest]. reflexivity.
  - rewrite seqZ_cons by lia. cbn [fold_left map concat].
    replace (Z.pred (Z.of_nat (S n))) with (Z.of_nat n) by lia.
    rewrite <- (take_drop 10 rest).
    rewrite (packWeekEntry_block pre (take 10 rest) (drop 10 rest));
      [| lia | rewrite length_take; lia].
    rewrite app_assoc. rewrite IH.
    + rewrite <- app_assoc. reflexivity.
    + rewrite length_app. cbn [week_layout length]. lia.
    + rewrite length_drop. lia.
Qed.

(** The week record is the seven day entries in day order. *)
Lemma packWeekData_concat (preferences : Preferences) (buffer : list Z) :
  length buffer = 70%nat ->
  packWeekData preferences buffer
  = concat (map (fun d => week_layout d
                            (aggregate_day (getBytes_day preferences d)))
                (seqZ 0 DAYS_TO_STORE)).
Proof.
  intros Hbuf. unfold packWeekData, DAYS_TO_STORE. cbv zeta.
  apply (packWeekData_loop preferences 7 0 [] buffer); [reflexivity | exact Hbuf].
Qed.

Lemma sum_over_valid_bound (f : HourlySummary.t -> Z) (bound : Z)
    (dayData : list HourlySummary.t) :
  Forall (fun rec => 0 <= f rec < bound) dayData ->
  0 <= sum_over f dayData
  <= (bound - 1) * Z.of_nat (length (valid_hours dayData)).
Proof.
  induction dayData as [| rec done IH] using rev_ind; intros Hall.
  - cbn. lia.
  - apply Forall_app in Hall. destruct Hall as [Hdone Hrec].
    apply Forall_inv in Hrec. cbv beta in Hrec. specialize (IH Hdone).
    rewrite sum_over_snoc, valid_hours_snoc, length_app.
    destruct (hour_valid rec); cbn [length]; nia.
Qed.

Lemma mean_bound (total n bound : Z) :
  0 < n -> 0 <= total <= (bound - 1) * n -> 0 <= total / n < bound.
Proof.
  intros Hn Ht. split.
  - apply Z.div_pos; lia.
  - apply Z.div_lt_upper_bound; nia.
Qed.

(** The entry of a stored day, in terms of its valid hours: means of
    stress, HR and HRV, the largest peak and its hour, the high-stress
    minutes modulo 256, and the valid flag. *)
Lemma week_entry_of_stored_day (d : Z) (dayData : list HourlySummary.t) :
  length dayData = 24%nat -> Forall HourlySummary.wf dayData -> is_u8 d ->
  let s := aggregate_day (Some dayData) in
  let n := Z.of_nat (length (valid_hours dayData)) in
  stats_of dayData s /\
  week_layout d s
  = if 0 <? n then
      [d; sum_over HourlySummary.avgStress dayData / n;
       DayStats.peakStress s; DayStats.peakHour s;
       sum_over HourlySummary.highStressMins dayData mod 256;
       sum_over HourlySummary.avgHR dayData / n;
       (sum_over HourlySummary.avgHRV dayData / n) mod 256;
       (sum_over HourlySummary.avgHRV dayData / n) / 256;
       0; 1]
    else [d; 0; 0; 0; 0; 0; 0; 0; 0; 0].
Proof.
  intros Hlen Hwf Hd s n.
  pose proof (aggregate_day_stats dayData Hlen Hwf) as Hs. fold s in Hs.
  split; [exact Hs |].
  destruct Hs as (Es & Eh & Ev & En & Em & Hmax & Hpk).
  fold n in En. unfold week_layout. rewrite Es, Eh, Ev, En, Em.
  rewrite (u8_small d) by exact Hd.
  destruct (Z.ltb_spec 0 n) as [Hn | Hn].
  - assert (B1 : 0 <= sum_over HourlySummary.avgStress dayData / n < 256).
    { apply mean_bound; [exact Hn |]. apply sum_over_valid_bound.
      eapply Forall_impl; [exact Hwf |].
      intros r (_ & H & _). exact H. }
    assert (B2 : 0 <= sum_over HourlySummary.avgHR dayData / n < 256).
    { apply mean_bound; [exact Hn |]. apply sum_over_valid_bound.
      eapply Forall_impl; [exact Hwf |].
      intros r (_ & _ & _ & _ & H & _). exact H. }
    assert (B3 : is_u16 (sum_over HourlySummary.avgHRV dayData / n)).
    { apply mean_bound; [exact Hn |]. apply sum_over_valid_bound.
      eapply Forall_impl; [exact Hwf |].
      intros r (_ & _ & _ & _ & _ & H & _). exact H. }
    rewrite high_byte by exact B3.
    rewrite land_255 by (unfold is_u16 in B3; lia).
    rewrite !u8_small by lia. reflexivity.
  - assert (Hnil : valid_hours dayData = []).
    { apply nil_length_inv. subst n. lia. }
    assert (Hz : forall f, sum_over f dayData = 0)
      by (intros f; unfold sum_over; rewrite Hnil; reflexivity).
    rewrite Hz. change (0 mod 256) with 0.
    destruct Hpk as [[Hp1 Hp2] | (r & Hl & Hv & _)].
    + rewrite Hp1, Hp2. reflexivity.
    + exfalso.
      assert (Hin : In r (valid_hours dayData)).
      { unfold valid_hours. apply filter_In. split; [| exact Hv].
        apply list_elem_of_In. eapply list_elem_of_lookup_2. exact Hl. }
      rewrite Hnil in Hin. destruct Hin.
Qed.

(** ** Clock fields *)

Lemma getCurrentTime_fields (t : SyncedTime.t) (millis : Z) :
  exists h m s,
    getCurrentTime t millis = (h, m, s) /\
    0 <= h < 24 /\ 0 <= m < 60 /\ 0 <= s < 60.
Proof.
  unfold getCurrentTime.
  destruct (negb (SyncedTime.isValid t)).
  - exists 0, 0, 0. repeat split; lia.
  - cbv zeta. eexists _, _, _. split; [reflexivity |].
    repeat match goal with
    | |- context [u8 (?x mod ?k)] =>
        let H := fresh in
        pose proof (Z.mod_pos_bound x k ltac:(lia)) as H;
        rewrite (u8_small (x mod k)) by lia
    end.
    repeat split; lia.
Qed.

(** ** Storage invariants *)

Lemma emptyDay_shape : day_shape emptyDay.
Proof.
  split; [reflexivity |].
  intros i rec H. unfold emptyDay in H.
  rewrite list_lookup_fmap in H.
  destruct (seq 0 24 !! i) as [k |] eqn:E; [| discriminate].
  apply lookup_seq in E. destruct E as [-> _]. cbn in H.
  injection H as <-. reflexivity.
Qed.

Lemma day_shape_set (day : list HourlySummary.t) (h : Z) (rec : HourlySummary.t) :
  day_shape day -> 0 <= h -> HourlySummary.hour rec = h ->
  day_shape (set_index day h rec).
Proof.
  intros [Hl Hh] H0 Hr. unfold set_index. split.
  - rewrite length_insert. exact Hl.
  - intros i r Hi.
    destruct (decide (i = Z.to_nat h)) as [-> | Hne].
    + destruct (decide (Z.to_nat h < length day)%nat) as [Hlt | Hge].
      * rewrite list_lookup_insert_eq in Hi by exact Hlt.
        injection Hi as <-. lia.
      * rewrite list_insert_ge in Hi by lia. apply Hh. exact Hi.
    + rewrite list_lookup_insert_ne in Hi by congruence. apply Hh. exact Hi.
Qed.

Lemma saveHourlyData_other_days (h : Z) (dev : Device) (d : Z) :
  d <> currentDay dev ->
  pref_days (preferences (saveHourlyData h dev)) !! d
  = pref_days (preferences dev) !! d.
Proof.
  intros Hd. unfold saveHourlyData.
  destruct ((h <? 0) || (HOURS_PER_DAY <=? h)); [reflexivity |].
  destruct (HourlyAccumulator.sampleCount (hourAccum dev) =? 0);
    [reflexivity |].
  cbn. apply lookup_insert_ne. congruence.
Qed.

Lemma sampleDay_shape : day_shape sampleDay.
Proof.
  split; [reflexivity |].
  intros i rec H. unfold sampleDay in H.
  rewrite list_lookup_fmap in H.
  destruct (seq 0 24 !! i) as [k |] eqn:E; [| discriminate].
  apply lookup_seq in E. destruct E as [-> _]. cbn in H.
  injection H as <-. reflexivity.
Qed.

Lemma storage_ok_save (h : Z) (dev : Device) :
  storage_ok dev -> storage_ok (saveHourlyData h dev).
Proof.
  intros Hok. unfold saveHourlyData.
  destruct ((h <? 0) || (HOURS_PER_DAY <=? h)) eqn:Eh; [exact Hok |].
  destruct (HourlyAccumulator.sampleCount (hourAccum dev) =? 0); [exact Hok |].
  destruct Hok as (Hd & Hc & Ht & Hp & Hf).
  apply orb_false_iff in Eh. destruct Eh as [E1 E2].
  apply Z.ltb_ge in E1. apply Z.leb_gt in E2. unfold HOURS_PER_DAY in E2.
  assert (Hs : day_shape
                 (set_index (todayData dev) h
                    (HourlySummary.mk (u8 h)
                       (u8 (HourlyAccumulator.stressSum (hourAccum dev)
                            / HourlyAccumulator.sampleCount (hourAccum dev)))
                       (HourlyAccumulator.peakStress (hourAccum dev))
                       (HourlyAccumulator.highStressMins (hourAccum dev))
                       (u8 (if 0 <? HourlyAccumulator.hrSampleCount (hourAccum dev)
                            then HourlyAccumulator.hrSum (hourAccum dev)
                                 / HourlyAccumulator.hrSampleCount (hourAccum dev)
                            else 0))
                       (u16 (if 0 <? HourlyAccumulator.hrSampleCount (hourAccum dev)
                             then HourlyAccumulator.hrvSum (hourAccum dev)
                                  / HourlyAccumulator.hrSampleCount (hourAccum dev)
                             else 0))
                       (u16 (HourlyAccumulator.gsrSum (hourAccum dev)
                             / HourlyAccumulator.sampleCount (hourAccum dev)))
                       (HourlyAccumulator.sampleCount (hourAccum dev))
                       (u8 (HourlyAccumulator.activitySum (hourAccum dev)
                            / HourlyAccumulator.sampleCount (hourAccum dev)))))).
  { apply day_shape_set; [exact Ht | exact E1 |]. cbn. apply u8_small. lia. }
  cbv zeta. unfold storage_ok. cbn.
  split; [exact Hd |]. split; [exact Hc |]. split; [exact Hs |].
  split; [exact Hp |].
  intros d blob Hl.
  destruct (decide (d = currentDay dev)) as [-> | Hne].
  - rewrite lookup_insert_eq in Hl. injection Hl as <-.
    split; [exact Hd | exact Hs].
  - rewrite lookup_insert_ne in Hl by congruence. apply Hf. exact Hl.
Qed.

Lemma storage_ok_check (m : Z) (dev : Device) :
  storage_ok dev -> storage_ok (checkHourChange m dev).
Proof.
  intros Hok. unfold checkHourChange.
  set (newHour := if SyncedTime.isValid (syncedTime dev) then _ else _).
  assert (Hn : 0 <= newHour < 24).
  { subst newHour. destruct (SyncedTime.isValid (syncedTime dev)).
    - destruct (getCurrentTime_fields (syncedTime dev) m)
        as (h & mi & s & -> & Hh & _). exact Hh.
    - apply Z.mod_pos_bound. lia. }
  destruct (currentHour dev =? -1).
  { destruct Hok as (Hd & Hc & Ht & Hp & Hf).
    unfold storage_ok, HOURS_PER_DAY. cbn.
    split; [exact Hd |]. split; [lia |]. tauto. }
  destruct (newHour =? currentHour dev); cbn [negb]; [exact Hok |].
  pose proof (storage_ok_save (currentHour dev) dev Hok) as Hs.
  destruct Hs as (Hd & Hc & Ht & Hp & Hf).
  match goal with
  | |- context [let '(_, _) := ?c in _] => destruct c as [roll last]
  end.
  destruct roll.
  - unfold storage_ok, DAYS_TO_STORE, HOURS_PER_DAY in *. cbn.
    pose proof (Z.mod_pos_bound (currentDay (saveHourlyData (currentHour dev) dev) + 1) 7
                  ltac:(lia)) as Hb.
    rewrite u8_small by lia.
    split; [lia |]. split; [lia |]. split; [apply emptyDay_shape |].
    split; [reflexivity |]. exact Hf.
  - unfold storage_ok, DAYS_TO_STORE, HOURS_PER_DAY in *. cbn.
    split; [lia |]. split; [lia |]. tauto.
Qed.

Lemma storage_ok_onWrite (value : list Z) (m1 m2 : Z) (dev : Device) :
  storage_ok dev -> storage_ok (onWrite value m1 m2 dev).
Proof.
  intros Hok. unfold onWrite.
  repeat match goal with
  | |- context [if ?c then _ else _] => destruct c
  end; try exact Hok.
  destruct (getCurrentTime_fields
              (SyncedTime.mk (u8 (at_index 0 value 5)) (u8 (at_index 0 value 6))
                 (u8 (at_index 0 value 7)) (u8 (at_index 0 value 4))
                 (u8 (at_index 0 value 3))
                 (u16 (Z.lor (Z.shiftl (u16 (at_index 0 value 2)) 8)
                             (u16 (at_index 0 value 1)))) m1 true) m2)
    as (h & mi & s & E & Hh & _).
  cbv zeta. rewrite E.
  destruct Hok as (Hd & Hc & Ht & Hp & Hf).
  unfold storage_ok, HOURS_PER_DAY. cbn.
  split; [exact Hd |]. split; [lia |]. tauto.
Qed.

Lemma loaded_day_shape (p : Preferences) (d : Z) :
  (forall d blob, pref_days p !! d = Some blob ->
                  0 <= d < DAYS_TO_STORE /\ day_shape blob) ->
  day_shape (match getBytes_day p d with
             | Some blob => blob
             | None => emptyDay
             end).
Proof.
  intros Hf. unfold getBytes_day.
  destruct (pref_days p !! d) as [blob |] eqn:E; [| apply emptyDay_shape].
  destruct (Z.of_nat (length blob) =? HOURS_PER_DAY); [| apply emptyDay_shape].
  apply (Hf _ _ E).
Qed.

Lemma storage_ok_powerOn (dev : Device) :
  storage_ok dev -> storage_ok (powerOn (preferences dev)).
Proof.
  intros (Hd & Hc & Ht & Hp & Hf).
  unfold powerOn, initStorage, loadTodayData, with_hourAccum, storage_ok.
  cbn -[emptyDay getBytes_day].
  rewrite Hp. split; [exact Hd |]. unfold HOURS_PER_DAY. split; [lia |].
  split; [apply loaded_day_shape, Hf |]. split; [reflexivity | exact Hf].
Qed.

Lemma storage_ok_operate (dev : Device) (op : Operation) :
  storage_ok dev -> storage_ok (operate dev op).
Proof.
  intros Hok. destruct op as [value m1 m2 | r | m | |]; cbn.
  - apply storage_ok_onWrite, Hok.
  - unfold accumulate, updateHourlyAccumulator.
    destruct (negb (Reading.calibrationComplete r)); exact Hok.
  - apply storage_ok_check, Hok.
  - unfold enterPowerOff. destruct (0 <=? currentHour dev);
      [apply storage_ok_save |]; exact Hok.
  - apply storage_ok_powerOn, Hok.
Qed.

Lemma storage_ok_initial : storage_ok initialDevice.
Proof.
  unfold storage_ok, DAYS_TO_STORE, HOURS_PER_DAY. cbn.
  split; [lia |]. split; [lia |]. split; [apply emptyDay_shape |].
  split; [reflexivity |]. intros d blob H. rewrite lookup_empty in H. discriminate.
Qed.

Lemma run_device_snoc (ops : list Operation) (op : Operation) (dev : Device) :
  run_device (ops ++ [op]) dev = operate (run_device ops dev) op.
Proof. unfold run_device. rewrite fold_left_app. reflexivity. Qed.

Lemma storage_ok_run (ops : list Operation) (dev : Device) :
  storage_ok dev -> storage_ok (run_device ops dev).
Proof.
  intros Hok. induction ops as [| op ops IH] using rev_ind; [exact Hok |].
  rewrite run_device_snoc. apply storage_ok_operate, IH.
Qed.

(** X1. Whatever the clock record holds and whatever the tick is,
    [getCurrentTime] returns an hour below 24, a minute below 60 and a
    second below 60. *)
Theorem getCurrentTime_in_range (t : SyncedTime.t) (millis : Z) :
  let '(h, m, s) := getCurrentTime t millis in
  0 <= h < 24 /\ 0 <= m < 60 /\ 0 <= s < 60.
Proof.
  destruct (getCurrentTime_fields t millis) as (h & m & s & -> & H).
  exact H.
Qed.

(** X2. In every state the firmware reaches by command writes, accumulator
    updates, hour checks, power-offs and power cycles, the day index is
    within [[0, 6]] and equals the persisted one, the hour is -1 or within
    [[0, 23]], the day buffer holds 24 records with record [i] carrying hour
    [i], and every blob in flash sits under one of the seven day keys and has
    that same shape. *)
Theorem storage_invariant (ops : list Operation) :
  storage_ok (run_device ops initialDevice).
Proof. apply storage_ok_run, storage_ok_initial. Qed.

(** X3. No operation writes a day blob other than that of the day that is
    current when it starts: the six other slots of the flash keep their
    content, also across a day rollover, which therefore leaves the slot it
    moves to as it was a week before. *)
Theorem other_days_untouched (op : Operation) (dev : Device) (d : Z) :
  d <> currentDay dev ->
  pref_days (preferences (operate dev op)) !! d
  = pref_days (preferences dev) !! d.
Proof.
  intros Hd.
  pose proof (fun h => saveHourlyData_other_days h dev d Hd) as Hsave.
  destruct op as [value m1 m2 | r | m | |]; cbn.
  - unfold onWrite.
    repeat match goal with
    | |- context [if ?c then _ else _] => destruct c
    end; reflexivity.
  - unfold accumulate, updateHourlyAccumulator.
    destruct (negb (Reading.calibrationComplete r)); reflexivity.
  - unfold checkHourChange.
    set (newHour := if SyncedTime.isValid (syncedTime dev) then _ else _).
    destruct (currentHour dev =? -1); [reflexivity |].
    destruct (newHour =? currentHour dev); cbn [negb]; [reflexivity |].
    match goal with
    | |- context [let '(_, _) := ?c in _] => destruct c as [roll last]
    end.
    destruct roll; cbn; apply Hsave.
  - unfold enterPowerOff.
    destruct (0 <=? currentHour dev); [apply Hsave | reflexivity].
  - reflexivity.
Qed.

Lemma other_days_untouched_witness :
  1 <> currentDay initialDevice /\
  pref_days (preferences (operate initialDevice (HourCheck 3600000))) !! 1
  = pref_days (preferences initialDevice) !! 1.
Proof.
  assert (H : 1 <> currentDay initialDevice) by (cbn; lia).
  split; [exact H |].
  apply (other_days_untouched (HourCheck 3600000) initialDevice 1 H).
Defined.

(** X4. An hour saved to flash survives a power cycle: after
    [saveHourlyData] has stored an hour, [setup()] on that flash restores
    the day index and the whole day buffer, the saved hour included. *)
Theorem saved_hour_survives_restart (h : Z) (dev : Device) :
  storage_ok dev ->
  0 <= h < 24 ->
  HourlyAccumulator.sampleCount (hourAccum dev) <> 0 ->
  let saved := saveHourlyData h dev in
  let dev' := powerOn (preferences saved) in
  currentDay dev' = currentDay dev /\
  todayData dev' = todayData saved /\
  HourlySummary.sampleCount (at_index (HourlySummary.empty 0) (todayData dev') h)
  = HourlyAccumulator.sampleCount (hourAccum dev).
Proof.
  intros (Hd & Hc & [Hl Hh] & Hp & Hf) Hr Hn. cbv zeta.
  unfold saveHourlyData.
  replace ((h <? 0) || (HOURS_PER_DAY <=? h)) with false
    by (unfold HOURS_PER_DAY; symmetry; apply orb_false_iff; split;
        [apply Z.ltb_ge | apply Z.leb_gt]; lia).
  replace (HourlyAccumulator.sampleCount (hourAccum dev) =? 0) with false
    by (symmetry; apply Z.eqb_neq; exact Hn).
  cbv zeta.
  match goal with
  | |- context [set_index (todayData dev) h ?r] =>
      set (today := set_index (todayData dev) h r)
  end.
  assert (Hlen : (Z.of_nat (length today) =? HOURS_PER_DAY) = true).
  { subst today. unfold set_index. rewrite length_insert, Hl. reflexivity. }
  unfold powerOn, initStorage, loadTodayData, with_hourAccum.
  cbn -[emptyDay getBytes_day].
  unfold getUChar_currentDay in Hp. rewrite Hp.
  unfold getBytes_day. cbn -[emptyDay].
  rewrite lookup_insert_eq, Hlen.
  split; [reflexivity |]. split; [reflexivity |].
  subst today. unfold at_index, set_index.
  rewrite list_lookup_insert_eq by lia. reflexivity.
Qed.

Lemma saved_hour_survives_restart_witness :
  let dev := with_hourAccum
               (HourlyAccumulator.mk 3000 4200 2400 120000 60 60 80 1 30 false 0)
               (checkHourChange 3600000 initialDevice) in
  let saved := saveHourlyData 1 dev in
  let dev' := powerOn (preferences saved) in
  storage_ok dev /\ 0 <= 1 < 24 /\
  HourlyAccumulator.sampleCount (hourAccum dev) <> 0 /\
  currentDay dev' = currentDay dev /\
  todayData dev' = todayData saved /\
  HourlySummary.sampleCount (at_index (HourlySummary.empty 0) (todayData dev') 1)
  = HourlyAccumulator.sampleCount (hourAccum dev).
Proof.
  cbv zeta.
  assert (H1 : storage_ok
                 (with_hourAccum
                    (HourlyAccumulator.mk 3000 4200 2400 120000 60 60 80 1 30 false 0)
                    (checkHourChange 3600000 initialDevice))).
  { pose proof (storage_ok_check 3600000 initialDevice storage_ok_initial) as H.
    exact H. }
  assert (H2 : 0 <= 1 < 24) by lia.
  assert (H3 : HourlyAccumulator.sampleCount
                 (hourAccum
                    (with_hourAccum
                       (HourlyAccumulator.mk 3000 4200 2400 120000 60 60 80 1 30 false 0)
                       (checkHourChange 3600000 initialDevice))) <> 0)
    by (cbn; lia).
  split; [exact H1 |]. split; [exact H2 |]. split; [exact H3 |].
  apply (saved_hour_survives_restart 1 _ H1 H2 H3).
Defined.

(** X5. A day rollover empties the day buffer in memory, but not the flash
    slot of the new day: a power cycle before the first hour of the new day
    is saved brings the blob stored there a week earlier back as today's
    data. *)
Theorem restart_after_rollover_loads_old_day (m : Z) (dev : Device)
    (blob : list HourlySummary.t) :
  storage_ok dev ->
  SyncedTime.isValid (syncedTime dev) = false ->
  currentHour dev = 23 ->
  (m / 3600000) mod 24 = 0 ->
  pref_days (preferences dev) !! ((currentDay dev + 1) mod 7) = Some blob ->
  let dev' := checkHourChange m dev in
  currentDay dev' = (currentDay dev + 1) mod 7 /\
  todayData dev' = emptyDay /\
  todayData (powerOn (preferences dev')) = blob.
Proof.
  intros Hok Hv Hh Hm Hb dev'.
  destruct Hok as (Hd & Hc & Ht & Hp & Hf). unfold DAYS_TO_STORE in Hd.
  pose proof (Z.mod_pos_bound (currentDay dev + 1) 7 ltac:(lia)) as Hr.
  assert (Hne : (currentDay dev + 1) mod 7 <> currentDay dev).
  { pose proof (Z.div_mod (currentDay dev + 1) 7 ltac:(lia)). lia. }
  destruct (saveHourlyData_frame 23 dev) as (Es & El & Ec & Ep).
  pose proof (saveHourlyData_other_days 23 dev _ Hne) as Eo.
  assert (E : dev' =
              mkDevice (syncedTime dev) (lastSyncedDay dev) 0
                       ((currentDay dev + 1) mod 7) emptyDay
                       HourlyAccumulator.reset
                       (putUChar_currentDay (preferences (saveHourlyData 23 dev))
                                            ((currentDay dev + 1) mod 7))
                       true).
  { subst dev'. unfold checkHourChange.
    rewrite Hv, Hh, Hm. cbn [Z.eqb negb andb].
    rewrite Es, Hv, Ec, El. cbv iota beta. unfold DAYS_TO_STORE.
    rewrite u8_small by lia. reflexivity. }
  rewrite E. cbn [currentDay todayData preferences].
  split; [reflexivity |]. split; [reflexivity |].
  generalize dependent (saveHourlyData 23 dev). intros saved _ _ _ _ Eo _.
  unfold powerOn, initStorage, loadTodayData, with_hourAccum.
  cbn -[emptyDay getBytes_day].
  unfold getBytes_day. cbn -[emptyDay]. rewrite Eo, Hb.
  destruct (Hf _ _ Hb) as [_ [Hl _]]. rewrite Hl. reflexivity.
Qed.

Lemma restart_after_rollover_loads_old_day_witness :
  storage_ok weekOldDevice /\
  SyncedTime.isValid (syncedTime weekOldDevice) = false /\
  currentHour weekOldDevice = 23 /\
  (86400000 / 3600000) mod 24 = 0 /\
  pref_days (preferences weekOldDevice) !! ((currentDay weekOldDevice + 1) mod 7)
  = Some sampleDay /\
  currentDay (checkHourChange 86400000 weekOldDevice)
  = (currentDay weekOldDevice + 1) mod 7 /\
  todayData (checkHourChange 86400000 weekOldDevice) = emptyDay /\
  todayData (powerOn (preferences (checkHourChange 86400000 weekOldDevice)))
  = sampleDay.
Proof.
  assert (H1 : storage_ok weekOldDevice).
  { unfold storage_ok, weekOldDevice, DAYS_TO_STORE, HOURS_PER_DAY.
    cbn -[emptyDay sampleDay].
    split; [lia |]. split; [lia |]. split; [apply emptyDay_shape |].
    split; [reflexivity |].
    intros d blob H.
    destruct (decide (d = 1)) as [-> | Hne].
    - rewrite lookup_insert_eq in H. injection H as <-.
      split; [lia | apply sampleDay_shape].
    - rewrite lookup_insert_ne, lookup_empty in H by congruence. discriminate. }
  assert (H2 : SyncedTime.isValid (syncedTime weekOldDevice) = false)
    by reflexivity.
  assert (H3 : currentHour weekOldDevice = 23) by reflexivity.
  assert (H4 : (86400000 / 3600000) mod 24 = 0) by reflexivity.
  assert (H5 : pref_days (preferences weekOldDevice)
                 !! ((currentDay weekOldDevice + 1) mod 7) = Some sampleDay).
  { unfold weekOldDevice. cbn -[sampleDay]. apply lookup_insert_eq. }
  split; [exact H1 |]. split; [exact H2 |]. split; [exact H3 |].
  split; [exact H4 |]. split; [exact H5 |].
  apply (restart_after_rollover_loads_old_day 86400000 weekOldDevice sampleDay
           H1 H2 H3 H4 H5).
Defined.

Lemma remove_days_lookup (l : list Z) (p : Preferences) (d : Z) :
  pref_days (fold_left remove_day l p) !! d
  = if decide (d ∈ l) then None else pref_days p !! d.
Proof.
  revert p. induction l as [| a l IH]; intros p.
  - cbn. destruct (decide (d ∈ [])) as [H | H]; [| reflexivity].
    apply elem_of_nil in H. destruct H.
  - cbn [fold_left]. rewrite IH.
    destruct (decide (d ∈ l)) as [Hl | Hl].
    + rewrite decide_True by (apply elem_of_cons; right; exact Hl). reflexivity.
    + destruct (decide (d = a)) as [-> | Hne].
      * rewrite decide_True by (apply elem_of_cons; left; reflexivity).
        cbn. apply lookup_delete_eq.
      * rewrite decide_False
          by (intros H; apply elem_of_cons in H; destruct H; congruence).
        cbn. apply lookup_delete_ne. congruence.
Qed.

Lemma remove_days_currentDay (l : list Z) (p : Preferences) :
  pref_currentDay (fold_left remove_day l p) = pref_currentDay p.
Proof.
  revert p. induction l as [| a l IH]; intros p; [reflexivity |].
  cbn [fold_left]. rewrite IH. reflexivity.
Qed.

(** X6. [clearAllData] leaves no readable blob under any of the seven day
    keys, empties the day buffer and the accumulator, and keeps the day
    index; the week record packed afterwards consists of seven entries that
    carry the day number and nothing else. *)
Theorem clearAllData_erases_week (dev : Device) (buffer : list Z) :
  length buffer = 70%nat ->
  let dev' := clearAllData dev in
  (forall d, 0 <= d < DAYS_TO_STORE ->
             getBytes_day (preferences dev') d = None) /\
  todayData dev' = emptyDay /\
  hourAccum dev' = HourlyAccumulator.reset /\
  currentDay dev' = currentDay dev /\
  pref_currentDay (preferences dev') = pref_currentDay (preferences dev) /\
  packWeekData (preferences dev') buffer
  = concat (map (fun d => [d; 0; 0; 0; 0; 0; 0; 0; 0; 0])
                (seqZ 0 DAYS_TO_STORE)).
Proof.
  intros Hbuf dev'.
  assert (Hnone : forall d, 0 <= d < DAYS_TO_STORE ->
                            getBytes_day (preferences dev') d = None).
  { intros d Hd. subst dev'. unfold getBytes_day, clearAllData.
    cbn [preferences]. rewrite remove_days_lookup.
    rewrite decide_True; [reflexivity |].
    apply elem_of_seqZ. lia. }
  split; [exact Hnone |].
  split; [reflexivity |]. split; [reflexivity |]. split; [reflexivity |].
  split; [apply remove_days_currentDay |].
  rewrite packWeekData_concat by exact Hbuf. f_equal.
  apply map_ext_in. intros d Hd.
  apply list_elem_of_In, elem_of_seqZ in Hd.
  rewrite Hnone by lia. unfold DAYS_TO_STORE in Hd.
  unfold aggregate_day, week_layout. cbn -[u8].
  rewrite u8_small by lia. reflexivity.
Qed.

Lemma clearAllData_erases_week_witness :
  let dev' := clearAllData weekOldDevice in
  length (replicate 70 255) = 70%nat /\
  (forall d, 0 <= d < DAYS_TO_STORE ->
             getBytes_day (preferences dev') d = None) /\
  todayData dev' = emptyDay /\
  hourAccum dev' = HourlyAccumulator.reset /\
  currentDay dev' = currentDay weekOldDevice /\
  pref_currentDay (preferences dev') = pref_currentDay (preferences weekOldDevice) /\
  packWeekData (preferences dev') (replicate 70 255)
  = concat (map (fun d => [d; 0; 0; 0; 0; 0; 0; 0; 0; 0])
                (seqZ 0 DAYS_TO_STORE)).
Proof.
  cbv zeta. split; [reflexivity |].
  apply (clearAllData_erases_week weekOldDevice (replicate 70 255)).
  reflexivity.
Defined.

Lemma clock_ok_operate (dev : Device) (op : Operation) :
  clock_ok (syncedTime dev) -> clock_ok (syncedTime (operate dev op)).
Proof.
  intros Hok. destruct op as [value m1 m2 | r | m | |]; cbn.
  - unfold onWrite.
    destruct (0 <? Z.of_nat (length value)); [| exact Hok].
    destruct (u8 (at_index 0 value 0) =? 1).
    + destruct (8 <=? Z.of_nat (length value)); [| exact Hok].
      cbv zeta.
      match goal with
      | |- context [if ?c then _ else _] => destruct c eqn:Ec
      end; [| exact Hok].
      destruct (getCurrentTime _ m2) as [[h mi] s].
      repeat (apply andb_true_iff in Ec; destruct Ec as [Ec ?]).
      unfold clock_ok. cbn. intros _.
      repeat match goal with
      | H : (_ <=? _) = true |- _ => apply Z.leb_le in H
      | H : (_ <? _) = true |- _ => apply Z.ltb_lt in H
      end.
      lia.
    + destruct (u8 (at_index 0 value 0) =? 2); exact Hok.
  - unfold accumulate, updateHourlyAccumulator.
    destruct (negb (Reading.calibrationComplete r)); exact Hok.
  - unfold checkHourChange.
    destruct (saveHourlyData_frame (currentHour dev) dev) as (Es & _).
    set (newHour := if SyncedTime.isValid (syncedTime dev) then _ else _).
    destruct (currentHour dev =? -1); [exact Hok |].
    destruct (newHour =? currentHour dev); cbn [negb]; [exact Hok |].
    match goal with
    | |- context [let '(_, _) := ?c in _] => destruct c as [roll last]
    end.
    destruct roll; cbn; rewrite Es; exact Hok.
  - unfold enterPowerOff.
    destruct (saveHourlyData_frame (currentHour dev) dev) as (Es & _).
    destruct (0 <=? currentHour dev); [rewrite Es |]; exact Hok.
  - unfold clock_ok. cbn. discriminate.
Qed.

(** X7. The clock record never holds an invalid time: in every state the
    firmware reaches, a clock marked valid has an hour below 24, minute and
    second below 60, a day in [[1, 31]], a month in [[1, 12]] and a year in
    [[2024, 2100]]. *)
Theorem clock_stays_valid (ops : list Operation) :
  clock_ok (syncedTime (run_device ops initialDevice)).
Proof.
  induction ops as [| op ops IH] using rev_ind.
  - unfold clock_ok. cbn. discriminate.
  - rewrite run_device_snoc. apply clock_ok_operate, IH.
Qed.

(** ** Hourly accumulator *)

Lemma trunc_range (x : R) (a b : Z) :
  0 <= a -> (IZR a <= x <= IZR b)%R -> a <= trunc x <= b.
Proof.
  intros Ha [Hlo Hhi]. unfold trunc.
  assert (H0 : (0 <= x)%R).
  { apply Rle_trans with (IZR a); [apply IZR_le; exact Ha | exact Hlo]. }
  destruct (Rle_dec 0 x) as [_ | Hn]; [| contradiction].
  destruct (base_Int_part x) as [H1 H2]. split.
  - assert (H : (IZR (a - 1) < IZR (Int_part x))%R).
    { rewrite minus_IZR. lra. }
    apply lt_IZR in H. lia.
  - apply le_IZR. lra.
Qed.

Lemma trunc_IZR (z : Z) : 0 <= z -> trunc (IZR z) = z.
Proof.
  intros Hz. unfold trunc.
  destruct (Rle_dec 0 (IZR z)) as [_ | Hn].
  - symmetry. apply Int_part_spec. lra.
  - exfalso. apply Hn. apply IZR_le. exact Hz.
Qed.

Lemma accum_ok_reset : accum_ok HourlyAccumulator.reset.
Proof. unfold accum_ok, is_u8. cbn. lia. Qed.

Lemma activity_code_range (a : ActivityLevel) : 0 <= activity_code a <= 3.
Proof. destruct a; cbn; lia. Qed.

(** One update keeps the sums within the bounds of the counts, and counts
    one more sample. *)
Lemma accumulate_step (dev : Device) (r : Reading.t) :
  accum_ok (hourAccum dev) ->
  HourlyAccumulator.sampleCount (hourAccum dev) < 65535 ->
  reading_ok r ->
  accum_ok (hourAccum (accumulate dev r)) /\
  HourlyAccumulator.sampleCount (hourAccum (accumulate dev r))
  = HourlyAccumulator.sampleCount (hourAccum dev)
    + (if Reading.calibrationComplete r then 1 else 0).
Proof.
  intros Hok Hn (Hs & Hv & Hg & Hh).
  unfold accumulate, updateHourlyAccumulator.
  destruct (Reading.calibrationComplete r); cbn [negb];
    [| split; [exact Hok | lia]].
  cbv zeta. cbn [hourAccum with_hourAccum].
  destruct Hok as (Hc & Hc' & Hp & Hss & Hhs & Hvs & Hgs & Has & Hm).
  pose proof (trunc_range (Reading.stressIndex r) 0 100 ltac:(lia) Hs) as Ts.
  pose proof (trunc_range (Sensors.currentHRV (Reading.sensors r)) 0 65535
                ltac:(lia) Hv) as Tv.
  pose proof (trunc_range (Sensors.currentGSR (Reading.sensors r)) 0 65535
                ltac:(lia) Hg) as Tg.
  pose proof (activity_code_range (Sensors.currentActivity (Reading.sensors r)))
    as Ta.
  unfold is_u8 in Hh, Hm.
  unfold u8_of_float, u32_of_float.
  rewrite (u8_small (trunc (Reading.stressIndex r))) by lia.
  rewrite (u32_small (trunc (Reading.stressIndex r))) by lia.
  rewrite (u32_small (trunc (Sensors.currentGSR (Reading.sensors r)))) by lia.
  rewrite (u32_small (trunc (Sensors.currentHRV (Reading.sensors r)))) by lia.
  rewrite (u32_small (Sensors.currentHR (Reading.sensors r))) by lia.
  rewrite (u32_small (activity_code _)) by lia.
  rewrite (u16_small (HourlyAccumulator.sampleCount (hourAccum dev) + 1)) by lia.
  rewrite (u16_small (HourlyAccumulator.hrSampleCount (hourAccum dev) + 1)) by lia.
  rewrite (u32_small (HourlyAccumulator.stressSum (hourAccum dev) + _)) by nia.
  rewrite (u32_small (HourlyAccumulator.gsrSum (hourAccum dev) + _)) by nia.
  rewrite (u32_small (HourlyAccumulator.hrSum (hourAccum dev) + _)) by nia.
  rewrite (u32_small (HourlyAccumulator.hrvSum (hourAccum dev) + _)) by nia.
  rewrite (u32_small (HourlyAccumulator.activitySum (hourAccum dev) + _)) by nia.
  split; [| reflexivity].
  unfold accum_ok. cbn.
  assert (Hmins : is_u8
            (if negb
                  ((if SyncedTime.isValid (syncedTime dev)
                    then let '(_, m, _) :=
                           getCurrentTime (syncedTime dev) (Reading.millis r) in m
                    else u8 ((Reading.millis r / 60000) mod 60))
                   =? HourlyAccumulator.lastMinute (hourAccum dev))
                && HourlyAccumulator.highStressThisMinute (hourAccum dev)
             then u8 (HourlyAccumulator.highStressMins (hourAccum dev) + 1)
             else HourlyAccumulator.highStressMins (hourAccum dev))).
  { destruct (_ && _); [| exact Hm]. unfold is_u8, u8. apply Z.mod_pos_bound. lia. }
  destruct Hmins as [Hmins0 Hmins1].
  destruct (Sensors.hrSensorActive (Reading.sensors r)
            && (0 <? Sensors.currentHR (Reading.sensors r)));
    destruct (Z.ltb_spec (HourlyAccumulator.peakStress (hourAccum dev))
                         (trunc (Reading.stressIndex r)));
    repeat split; try exact Hmins0; try exact Hmins1; try lia; try nia.
Qed.

Lemma accumulate_frame (dev : Device) (r : Reading.t) :
  todayData (accumulate dev r) = todayData dev /\
  currentDay (accumulate dev r) = currentDay dev /\
  preferences (accumulate dev r) = preferences dev.
Proof.
  unfold accumulate, updateHourlyAccumulator.
  destruct (negb (Reading.calibrationComplete r)); repeat split.
Qed.

Lemma accumulate_run (readings : list Reading.t) (dev : Device) :
  hourAccum dev = HourlyAccumulator.reset ->
  Forall reading_ok readings ->
  Z.of_nat (length readings) <= 65535 ->
  let dev' := fold_left accumulate readings dev in
  accum_ok (hourAccum dev') /\
  HourlyAccumulator.sampleCount (hourAccum dev')
  = Z.of_nat (length (List.filter Reading.calibrationComplete readings)) /\
  todayData dev' = todayData dev /\
  currentDay dev' = currentDay dev /\
  preferences dev' = preferences dev.
Proof.
  intros Hr. cbv zeta.
  induction readings as [| r readings IH] using rev_ind; intros Hall Hlen.
  - cbn. rewrite Hr. split; [apply accum_ok_reset |]. repeat split.
  - apply Forall_app in Hall. destruct Hall as [Hall Hlast].
    apply Forall_inv in Hlast.
    rewrite length_app in Hlen. cbn [length] in Hlen.
    destruct (IH Hall ltac:(lia)) as (Hok & Hcount & Ht & Hd & Hp).
    rewrite fold_left_app. cbn [fold_left].
    pose proof (filter_length Reading.calibrationComplete readings) as Hfl.
    destruct (accumulate_step (fold_left accumulate readings dev) r Hok
                ltac:(lia) Hlast) as [Hok' Hcount'].
    destruct (accumulate_frame (fold_left accumulate readings dev) r)
      as (Ft & Fd & Fp).
    split; [exact Hok' |].
    split.
    { rewrite Hcount', Hcount, List.filter_app, length_app. cbn [List.filter].
      destruct (Reading.calibrationComplete r); cbn [length]; lia. }
    rewrite Ft, Fd, Fp. tauto.
Qed.

(** X8. The summary of an hour is within the ranges of its fields: when
    the accumulator starts from its reset state and takes up to 65535
    readings with a stress index in percent and HRV and GSR values that fit
    16 bits, the record [saveHourlyData] stores carries the hour, counts
    the calibrated readings, has an average stress no larger than the peak
    stress, a peak of at most 100, and fits the field widths of the today
    record with an activity level of at most 3. *)
Theorem hourly_summary_within_ranges (readings : list Reading.t) (h : Z)
    (dev : Device) :
  hourAccum dev = HourlyAccumulator.reset ->
  length (todayData dev) = 24%nat ->
  Forall reading_ok readings ->
  Z.of_nat (length readings) <= 65535 ->
  0 <= h < 24 ->
  let n := Z.of_nat (length (List.filter Reading.calibrationComplete readings)) in
  0 < n ->
  let dev' := saveHourlyData h (fold_left accumulate readings dev) in
  let rec := at_index (HourlySummary.empty 0) (todayData dev') h in
  HourlySummary.hour rec = h /\
  HourlySummary.sampleCount rec = n /\
  HourlySummary.avgStress rec <= HourlySummary.peakStress rec <= 100 /\
  today_ok rec.
Proof.
  intros Hr Hlen Hall Hmax Hh n Hn dev' rec.
  destruct (accumulate_run readings dev Hr Hall Hmax)
    as (Hok & Hcount & Ht & _ & _).
  fold n in Hcount.
  subst rec dev'. unfold saveHourlyData.
  set (run := fold_left accumulate readings dev) in *.
  replace ((h <? 0) || (HOURS_PER_DAY <=? h)) with false
    by (unfold HOURS_PER_DAY; symmetry; apply orb_false_iff; split;
        [apply Z.ltb_ge | apply Z.leb_gt]; lia).
  replace (HourlyAccumulator.sampleCount (hourAccum run) =? 0) with false
    by (symmetry; apply Z.eqb_neq; lia).
  cbv zeta. cbn [todayData]. unfold at_index, set_index.
  rewrite list_lookup_insert_eq by (rewrite Ht; lia).
  cbv [default from_option Datatypes.id].
  destruct Hok as (Hc & Hc' & Hp & Hss & Hhs & Hvs & Hgs & Has & Hm).
  rewrite Hcount in *.
  set (acc := hourAccum run) in *.
  assert (Bs : 0 <= HourlyAccumulator.stressSum acc / n
               <= HourlyAccumulator.peakStress acc).
  { split; [apply Z.div_pos; lia |].
    apply Z.div_le_upper_bound; [lia | nia]. }
  assert (Bg : 0 <= HourlyAccumulator.gsrSum acc / n <= 65535).
  { split; [apply Z.div_pos; lia |].
    apply Z.div_le_upper_bound; [lia | nia]. }
  assert (Ba : 0 <= HourlyAccumulator.activitySum acc / n <= 3).
  { split; [apply Z.div_pos; lia |].
    apply Z.div_le_upper_bound; [lia | nia]. }
  assert (Bh : 0 <= (if 0 <? HourlyAccumulator.hrSampleCount acc
                     then HourlyAccumulator.hrSum acc
                          / HourlyAccumulator.hrSampleCount acc
                     else 0) <= 255).
  { destruct (Z.ltb_spec 0 (HourlyAccumulator.hrSampleCount acc)); [| lia].
    split; [apply Z.div_pos; lia |].
    apply Z.div_le_upper_bound; [lia | nia]. }
  assert (Bv : 0 <= (if 0 <? HourlyAccumulator.hrSampleCount acc
                     then HourlyAccumulator.hrvSum acc
                          / HourlyAccumulator.hrSampleCount acc
                     else 0) <= 65535).
  { destruct (Z.ltb_spec 0 (HourlyAccumulator.hrSampleCount acc)); [| lia].
    split; [apply Z.div_pos; lia |].
    apply Z.div_le_upper_bound; [lia | nia]. }
  cbn [HourlySummary.hour HourlySummary.sampleCount HourlySummary.avgStress
       HourlySummary.peakStress].
  rewrite (u8_small h) by lia.
  rewrite (u8_small (HourlyAccumulator.stressSum acc / n)) by lia.
  split; [reflexivity |]. split; [reflexivity |]. split; [lia |].
  unfold today_ok, HourlySummary.wf, is_u8, is_u16 in *. cbn.
  rewrite !u8_small, !u16_small by lia.
  repeat split; lia.
Qed.

Lemma hourly_summary_within_ranges_witness :
  let readings := [sampleReading; sampleReading] in
  let dev' := saveHourlyData 9 (fold_left accumulate readings initialDevice) in
  let rec := at_index (HourlySummary.empty 0) (todayData dev') 9 in
  hourAccum initialDevice = HourlyAccumulator.reset /\
  length (todayData initialDevice) = 24%nat /\
  Forall reading_ok readings /\
  Z.of_nat (length readings) <= 65535 /\
  0 <= 9 < 24 /\
  0 < Z.of_nat (length (List.filter Reading.calibrationComplete readings)) /\
  HourlySummary.hour rec = 9 /\
  HourlySummary.sampleCount rec
  = Z.of_nat (length (List.filter Reading.calibrationComplete readings)) /\
  HourlySummary.avgStress rec <= HourlySummary.peakStress rec <= 100 /\
  today_ok rec.
Proof.
  cbv zeta.
  assert (H1 : hourAccum initialDevice = HourlyAccumulator.reset) by reflexivity.
  assert (H2 : length (todayData initialDevice) = 24%nat) by reflexivity.
  assert (Hr : reading_ok sampleReading).
  { unfold reading_ok, sampleReading, is_u8. cbn. repeat split; try lra; lia. }
  assert (H3 : Forall reading_ok [sampleReading; sampleReading]).
  { apply List.Forall_cons; [exact Hr |].
    apply List.Forall_cons; [exact Hr | apply List.Forall_nil]. }
  assert (H4 : Z.of_nat (length [sampleReading; sampleReading]) <= 65535)
    by (cbn; lia).
  assert (H5 : 0 <= 9 < 24) by lia.
  assert (H6 : 0 < Z.of_nat (length (List.filter Reading.calibrationComplete
                                       [sampleReading; sampleReading])))
    by (cbn; lia).
  split; [exact H1 |]. split; [exact H2 |]. split; [exact H3 |].
  split; [exact H4 |]. split; [exact H5 |]. split; [exact H6 |].
  apply (hourly_summary_within_ranges [sampleReading; sampleReading] 9
           initialDevice H1 H2 H3 H4 H5 H6).
Defined.

(** ** History characteristics *)

Lemma packWeekData_record (p : Preferences) (buffer : list Z) :
  length buffer = 70%nat -> packWeekData p buffer = week_record p.
Proof. apply packWeekData_concat. Qed.

Lemma week_record_length (p : Preferences) : length (week_record p) = 70%nat.
Proof. reflexivity. Qed.

(** Every operation but the power-off either raises the dirty flag or
    leaves both the flash and the flag as they were. *)
Lemma operate_announces (dev : Device) (op : Operation) :
  op <> PowerOff ->
  bleHistoryDirty (operate dev op) = true \/
  (preferences (operate dev op) = preferences dev /\
   bleHistoryDirty (operate dev op) = bleHistoryDirty dev).
Proof.
  intros Hop. destruct op as [value m1 m2 | r | m | |]; cbn.
  - unfold onWrite.
    destruct (0 <? Z.of_nat (length value)); [| right; tauto].
    destruct (u8 (at_index 0 value 0) =? 1).
    + destruct (8 <=? Z.of_nat (length value)); [| right; tauto].
      cbv zeta.
      match goal with
      | |- context [if ?c then _ else _] => destruct c
      end; [| right; tauto].
      destruct (getCurrentTime _ m2) as [[h mi] s]. right. cbn. tauto.
    + destruct (u8 (at_index 0 value 0) =? 2); [left; reflexivity | right; tauto].
  - right. destruct (accumulate_frame dev r) as (_ & _ & Ep).
    split; [exact Ep |].
    unfold accumulate, updateHourlyAccumulator.
    destruct (negb (Reading.calibrationComplete r)); reflexivity.
  - unfold checkHourChange.
    set (newHour := if SyncedTime.isValid (syncedTime dev) then _ else _).
    destruct (currentHour dev =? -1); [right; cbn; tauto |].
    destruct (newHour =? currentHour dev); cbn [negb]; [right; tauto |].
    match goal with
    | |- context [let '(_, _) := ?c in _] => destruct c as [roll last]
    end.
    destruct roll; left; reflexivity.
  - contradiction.
  - left. reflexivity.
Qed.

Lemma cache_ok_step (st : History.t) (ev : HistoryEvent) :
  ev <> Storage PowerOff -> cache_ok st -> cache_ok (history_step st ev).
Proof.
  intros Hev [Hlen Hc]. destruct ev as [op |]; cbn [history_step].
  - assert (Hkeep : cache_ok
                      (History.mk (operate (History.device st) op)
                                  (History.bleTodayBuffer st)
                                  (History.bleWeekBuffer st))).
    { unfold cache_ok. cbn [History.device History.bleWeekBuffer].
      split; [exact Hlen |].
      destruct (operate_announces (History.device st) op) as [Hd | [Ep Ed]].
      - congruence.
      - rewrite Hd. discriminate.
      - rewrite Ep, Ed. exact Hc. }
    destruct op; try exact Hkeep.
    split; [reflexivity |]. cbn. discriminate.
  - unfold weekOnRead.
    destruct (bleHistoryDirty (History.device st)) eqn:Ed.
    + unfold cache_ok. cbn.
      rewrite (packWeekData_record _ _ Hlen).
      split; [apply week_record_length |].
      intros _. symmetry. apply packWeekData_record, week_record_length.
    + cbn. split; [exact Hlen |]. intros _. apply Hc. reflexivity.
Qed.

Lemma run_history_snoc (evs : list HistoryEvent) (ev : HistoryEvent)
    (st : History.t) :
  run_history (evs ++ [ev]) st = history_step (run_history evs st) ev.
Proof. unfold run_history. rewrite fold_left_app. reflexivity. Qed.

Lemma cache_ok_run (evs : list HistoryEvent) :
  Forall (fun ev => ev <> Storage PowerOff) evs ->
  cache_ok (run_history evs initialHistory).
Proof.
  induction evs as [| ev evs IH] using rev_ind; intros Hall.
  - split; [reflexivity |]. cbn. discriminate.
  - apply Forall_app in Hall. destruct Hall as [Hall Hev].
    apply Forall_inv in Hev.
    rewrite run_history_snoc. apply cache_ok_step; [exact Hev | apply IH, Hall].
Qed.

(** X9. As long as the device is not powered off by the button, a read
    of the week characteristic returns the week record of the flash as it
    is at that moment, whether the handler rebuilds the buffer or serves
    the bytes it cached at an earlier read. *)
Theorem week_read_is_current (evs : list HistoryEvent) :
  Forall (fun ev => ev <> Storage PowerOff) evs ->
  let st := run_history evs initialHistory in
  snd (weekOnRead st) = week_record (preferences (History.device st)).
Proof.
  intros Hall st. destruct (cache_ok_run evs Hall) as [Hlen Hc]. fold st in Hlen, Hc.
  unfold weekOnRead.
  destruct (bleHistoryDirty (History.device st)) eqn:Ed; cbn.
  - apply packWeekData_record, Hlen.
  - rewrite Hc by reflexivity. apply packWeekData_record, Hlen.
Qed.

Lemma week_read_is_current_witness :
  let evs := [Storage (HourCheck 60000); WeekRead;
              Storage (Accumulate sampleReading);
              Storage (HourCheck 3600000); WeekRead; WeekRead] in
  Forall (fun ev => ev <> Storage PowerOff) evs /\
  snd (weekOnRead (run_history evs initialHistory))
  = week_record (preferences (History.device (run_history evs initialHistory))).
Proof.
  cbv zeta.
  assert (H : Forall (fun ev => ev <> Storage PowerOff)
                [Storage (HourCheck 60000); WeekRead;
                 Storage (Accumulate sampleReading);
                 Storage (HourCheck 3600000); WeekRead; WeekRead]).
  { repeat (apply List.Forall_cons; [discriminate |]). apply List.Forall_nil. }
  split; [exact H |].
  apply (week_read_is_current _ H).
Defined.

(** X10. A power-off by the button stores the current hour in flash
    without raising the dirty flag: when the flag was clear, the next read
    of the week characteristic returns the buffer of the previous read
    unchanged, although the blob of the current day has been rewritten. *)
Theorem power_off_save_not_announced (st : History.t) :
  let dev := History.device st in
  storage_ok dev ->
  bleHistoryDirty dev = false ->
  0 <= currentHour dev ->
  HourlyAccumulator.sampleCount (hourAccum dev) <> 0 ->
  let st' := history_step st (Storage PowerOff) in
  getBytes_day (preferences (History.device st')) (currentDay dev)
  = Some (todayData (saveHourlyData (currentHour dev) dev)) /\
  bleHistoryDirty (History.device st') = false /\
  snd (weekOnRead st') = History.bleWeekBuffer st.
Proof.
  intros dev (Hd & Hc & [Hl Hh] & Hp & Hf) Hdirty Hhour Hn st'.
  subst st'. cbn [history_step operate History.device].
  unfold enterPowerOff. fold dev.
  replace (0 <=? currentHour dev) with true by (symmetry; apply Z.leb_le; exact Hhour).
  unfold weekOnRead. cbn [History.device History.bleWeekBuffer].
  unfold saveHourlyData.
  unfold HOURS_PER_DAY in *.
  replace ((currentHour dev <? 0) || (24 <=? currentHour dev)) with false
    by (symmetry; apply orb_false_iff; split;
        [apply Z.ltb_ge | apply Z.leb_gt]; lia).
  replace (HourlyAccumulator.sampleCount (hourAccum dev) =? 0) with false
    by (symmetry; apply Z.eqb_neq; exact Hn).
  cbv zeta. cbn [preferences bleHistoryDirty todayData]. rewrite Hdirty.
  split; [| split; reflexivity].
  unfold getBytes_day, putBytes_day. cbn [pref_days].
  rewrite lookup_insert_eq. unfold set_index. rewrite length_insert, Hl.
  reflexivity.
Qed.

Lemma power_off_save_not_announced_witness :
  let st := cachedHistory in
  let dev := History.device st in
  let st' := history_step st (Storage PowerOff) in
  storage_ok dev /\
  bleHistoryDirty dev = false /\
  0 <= currentHour dev /\
  HourlyAccumulator.sampleCount (hourAccum dev) <> 0 /\
  getBytes_day (preferences (History.device st')) (currentDay dev)
  = Some (todayData (saveHourlyData (currentHour dev) dev)) /\
  bleHistoryDirty (History.device st') = false /\
  snd (weekOnRead st') = History.bleWeekBuffer st.
Proof.
  cbv zeta.
  assert (H1 : storage_ok (History.device cachedHistory)).
  { unfold storage_ok, cachedHistory, DAYS_TO_STORE, HOURS_PER_DAY.
    cbn -[emptyDay].
    split; [lia |]. split; [lia |]. split; [apply emptyDay_shape |].
    split; [reflexivity |].
    intros d blob H. rewrite lookup_empty in H. discriminate. }
  assert (H2 : bleHistoryDirty (History.device cachedHistory) = false)
    by reflexivity.
  assert (H3 : 0 <= currentHour (History.device cachedHistory)) by (cbn; lia).
  assert (H4 : HourlyAccumulator.sampleCount
                 (hourAccum (History.device cachedHistory)) <> 0)
    by (cbn; lia).
  split; [exact H1 |]. split; [exact H2 |]. split; [exact H3 |].
  split; [exact H4 |].
  apply (power_off_save_not_announced cachedHistory H1 H2 H3 H4).
Defined.

(** ** Hour checks *)

Lemma checkHourChange_hour (m : Z) (dev : Device) :
  let newHour :=
    if SyncedTime.isValid (syncedTime dev)
    then let '(h, _, _) := getCurrentTime (syncedTime dev) m in h
    else (m / 3600000) mod 24 in
  0 <= newHour < 24 /\
  syncedTime (checkHourChange m dev) = syncedTime dev /\
  currentHour (checkHourChange m dev) = newHour.
Proof.
  cbv zeta.
  set (newHour := if SyncedTime.isValid (syncedTime dev) then _ else _).
  assert (Hn : 0 <= newHour < 24).
  { subst newHour. destruct (SyncedTime.isValid (syncedTime dev)).
    - destruct (getCurrentTime_fields (syncedTime dev) m)
        as (h & mi & s & -> & Hh & _). exact Hh.
    - apply Z.mod_pos_bound. lia. }
  split; [exact Hn |].
  unfold checkHourChange. fold newHour.
  destruct (saveHourlyData_frame (currentHour dev) dev) as (Es & _).
  destruct (currentHour dev =? -1); [cbn; tauto |].
  destruct (Z.eqb_spec newHour (currentHour dev)) as [E | Hne]; cbn [negb].
  - split; [reflexivity | symmetry; exact E].
  - match goal with
    | |- context [let '(_, _) := ?c in _] => destruct c as [roll last]
    end.
    destruct roll; cbn; rewrite Es; tauto.
Qed.

(** X11. An hour check is idempotent: repeated at the same tick it
    changes nothing, so an hour is saved, the accumulator reset and the day
    advanced at most once per transition. *)
Theorem hour_check_idempotent (m : Z) (dev : Device) :
  checkHourChange m (checkHourChange m dev) = checkHourChange m dev.
Proof.
  destruct (checkHourChange_hour m dev) as (Hn & Es & Eh).
  set (dev1 := checkHourChange m dev) in *.
  unfold checkHourChange at 1. rewrite Es, Eh.
  set (newHour := if SyncedTime.isValid (syncedTime dev) then _ else _) in *.
  destruct (Z.eqb_spec newHour (-1)) as [E | _]; [lia |].
  rewrite Z.eqb_refl. reflexivity.
Qed.

Lemma checkHourChange_synced (m : Z) (dev : Device) :
  SyncedTime.isValid (syncedTime (checkHourChange m dev))
  = SyncedTime.isValid (syncedTime dev).
Proof.
  destruct (checkHourChange_hour m dev) as (_ & Es & _). rewrite Es. reflexivity.
Qed.

(** X12. With a synced clock the day never advances: from any reachable
    state whose clock is valid, no sequence of hour checks, whatever the
    ticks and however many midnights they span, changes the day index or
    the persisted one. *)
Theorem synced_clock_freezes_day (ticks : list Z) (dev : Device) :
  reachable dev ->
  SyncedTime.isValid (syncedTime dev) = true ->
  Forall is_u32 ticks ->
  currentDay (run_checks ticks dev) = currentDay dev /\
  pref_currentDay (preferences (run_checks ticks dev))
  = pref_currentDay (preferences dev).
Proof.
  intros Hr Hv Hall.
  assert (H : reachable (run_checks ticks dev) /\
              SyncedTime.isValid (syncedTime (run_checks ticks dev)) = true /\
              currentDay (run_checks ticks dev) = currentDay dev /\
              pref_currentDay (preferences (run_checks ticks dev))
              = pref_currentDay (preferences dev)).
  { induction ticks as [| m ticks IH] using rev_ind.
    - cbn. tauto.
    - apply Forall_app in Hall. destruct Hall as [Hall Hm].
      apply Forall_inv in Hm.
      destruct (IH Hall) as (IHr & IHv & IHd & IHp).
      unfold run_checks in *. rewrite fold_left_app. cbn [fold_left].
      destruct (checkHourChange_synced_day_fixed m _ IHr IHv) as [Ed Ep].
      split; [apply reach_check; assumption |].
      split; [rewrite checkHourChange_synced; exact IHv |].
      split; congruence. }
  tauto.
Qed.

Lemma synced_clock_freezes_day_witness :
  reachable syncedBeforeMidnight /\
  SyncedTime.isValid (syncedTime syncedBeforeMidnight) = true /\
  Forall is_u32 (hourlyTicks 1801000 3) /\
  currentDay (run_checks (hourlyTicks 1801000 3) syncedBeforeMidnight)
  = currentDay syncedBeforeMidnight /\
  pref_currentDay (preferences (run_checks (hourlyTicks 1801000 3)
                                           syncedBeforeMidnight))
  = pref_currentDay (preferences syncedBeforeMidnight).
Proof.
  assert (H1 : reachable syncedBeforeMidnight).
  { unfold syncedBeforeMidnight. apply reach_accum, reach_write.
    - apply reach_init.
    - unfold is_u32. lia.
    - unfold is_u32. lia. }
  assert (H2 : SyncedTime.isValid (syncedTime syncedBeforeMidnight) = true)
    by reflexivity.
  assert (H3 : Forall is_u32 (hourlyTicks 1801000 3)).
  { unfold hourlyTicks. cbn.
    repeat (apply List.Forall_cons; [unfold is_u32; lia |]).
    apply List.Forall_nil. }
  split; [exact H1 |]. split; [exact H2 |]. split; [exact H3 |].
  apply (synced_clock_freezes_day (hourlyTicks 1801000 3) syncedBeforeMidnight
           H1 H2 H3).
Defined.

(** ** Command writes *)


(** ** Heart-rate sampling *)

Lemma bpm_from_peaks_ok (peakTimes : list Z) (peakIndex peakCount : Z)
    (currentBPM : R) :
  bpm_ok currentBPM ->
  bpm_ok (bpm_from_peaks peakTimes peakIndex peakCount currentBPM).
Proof.
  intros Hok. unfold bpm_from_peaks.
  destruct (3 <=? peakCount); [| exact Hok].
  destruct (sum_valid_intervals peakTimes peakIndex peakCount) as [total valid].
  destruct (0 <? valid); [| exact Hok].
  cbv zeta. unfold bpm_ok.
  destruct (Rlt_dec (60000 / (IZR total / IZR valid)) 40) as [Hlow | Hlow].
  - destruct (Rgt_dec 0 200); left; reflexivity.
  - destruct (Rgt_dec (60000 / (IZR total / IZR valid)) 200) as [Hhigh | Hhigh].
    + left. reflexivity.
    + right. lra.
Qed.

Lemma detect_bpm_ok (irValue currentTime minValue maxValue : Z) (st : Beat.t) :
  bpm_ok (Beat.currentBPM st) ->
  bpm_ok (Beat.currentBPM
            (detectPeakAndCalculateBPM irValue currentTime minValue maxValue st)).
Proof.
  intros Hok. unfold detectPeakAndCalculateBPM.
  destruct (is_peak _ _ _ st); cbn [Beat.currentBPM]; [| exact Hok].
  apply bpm_from_peaks_ok, Hok.
Qed.

Lemma bpm_ok_zero : bpm_ok 0.
Proof. left. reflexivity. Qed.

Lemma bpm_byte (bpm : R) :
  bpm_ok bpm ->
  u8_of_float bpm = trunc bpm /\ (trunc bpm = 0 \/ 40 <= trunc bpm <= 200).
Proof.
  intros [-> | H]; unfold u8_of_float.
  - rewrite (trunc_IZR 0) by lia. split; [reflexivity | left; reflexivity].
  - pose proof (trunc_range bpm 40 200 ltac:(lia) H) as Ht.
    rewrite u8_small by lia. split; [reflexivity | right; exact Ht].
Qed.

Lemma run_heart_rate_snoc (evs : list HeartTick) (ev : HeartTick) (st : Heart.t) :
  run_heart_rate (evs ++ [ev]) st = heart_tick (run_heart_rate evs st) ev.
Proof. unfold run_heart_rate. rewrite fold_left_app. reflexivity. Qed.

(** X14. In every state of the heart-rate sampling, [currentBPM] is 0
    or lies in [[40, 200]], and the byte [currentHR] is its integer part,
    taken without wrap-around: 0, or a value in [[40, 200]]. *)
Theorem heart_rate_byte (evs : list HeartTick) :
  let st := run_heart_rate evs initialHeart in
  bpm_ok (Beat.currentBPM (Heart.beat st)) /\
  Heart.currentHR st = trunc (Beat.currentBPM (Heart.beat st)) /\
  (Heart.currentHR st = 0 \/ 40 <= Heart.currentHR st <= 200).
Proof.
  cbv zeta.
  assert (H : bpm_ok (Beat.currentBPM (Heart.beat (run_heart_rate evs initialHeart)))
              /\ Heart.currentHR (run_heart_rate evs initialHeart)
                 = u8_of_float
                     (Beat.currentBPM (Heart.beat (run_heart_rate evs initialHeart)))).
  { induction evs as [| ev evs IH] using rev_ind.
    - cbn. split; [apply bpm_ok_zero |].
      destruct (bpm_byte 0 bpm_ok_zero) as [E _]. rewrite E.
      symmetry. apply (trunc_IZR 0). lia.
    - rewrite run_heart_rate_snoc. destruct IH as [IHb IHc].
      destruct ev as [currentMillis irValue currentTime |]; cbn [heart_tick].
      + unfold updateHeartRate.
        destruct (20 <=? u32 (currentMillis - _)); [| split; assumption].
        cbv zeta. cbn [Heart.beat Heart.currentHR].
        split; [apply detect_bpm_ok, IHb | reflexivity].
      + cbn. split; [apply bpm_ok_zero |].
        destruct (bpm_byte 0 bpm_ok_zero) as [E _]. rewrite E.
        symmetry. apply (trunc_IZR 0). lia. }
  destruct H as [Hb Hc]. destruct (bpm_byte _ Hb) as [E Hr].
  rewrite Hc, E. split; [exact Hb |]. split; [reflexivity | exact Hr].
Qed.

(** The scan over any list of indices: bounds on what it returns. *)
Lemma ir_scan_bounds (buf : list Z) (l : list Z) (mx mn : Z) :
  let r := fold_left
             (fun (acc : Z * Z) i =>
                let v := at_index 0 buf i in
                let maxValue := if fst acc <? v then v else fst acc in
                let minValue :=
                  if (v <? snd acc) && (0 <? v) then v else snd acc in
                (maxValue, minValue))
             l (mx, mn) in
  mx <= fst r /\ snd r <= mn /\
  (forall i, i ∈ l -> at_index 0 buf i <= fst r) /\
  (forall i, i ∈ l -> 0 < at_index 0 buf i -> snd r <= at_index 0 buf i) /\
  (fst r = mx \/ exists i, i ∈ l /\ fst r = at_index 0 buf i) /\
  (snd r = mn \/ exists i, i ∈ l /\ snd r = at_index 0 buf i /\ 0 < snd r).
Proof.
  revert mx mn. induction l as [| k l IH]; intros mx mn; cbv zeta.
  - cbn. split; [lia |]. split; [lia |].
    split; [intros i H; apply elem_of_nil in H; destruct H |].
    split; [intros i H; apply elem_of_nil in H; destruct H |].
    split; left; reflexivity.
  - cbn [fold_left]. cbv zeta. cbn [fst snd].
    set (v := at_index 0 buf k).
    set (mx' := if mx <? v then v else mx).
    set (mn' := if (v <? mn) && (0 <? v) then v else mn).
    specialize (IH mx' mn'). cbv zeta in IH.
    destruct IH as (H1 & H2 & H3 & H4 & H5 & H6).
    assert (Hmx : mx <= mx' /\ v <= mx' /\ (mx' = mx \/ mx' = v)).
    { subst mx'. destruct (Z.ltb_spec mx v); lia. }
    assert (Hmn : mn' <= mn /\ (0 < v -> mn' <= v)
                  /\ (mn' = mn \/ (mn' = v /\ 0 < v))).
    { subst mn'. destruct (Z.ltb_spec v mn); destruct (Z.ltb_spec 0 v);
        cbn [andb]; lia. }
    split; [lia |]. split; [lia |].
    split.
    { intros i Hi. apply elem_of_cons in Hi. destruct Hi as [-> | Hi].
      - fold v. lia.
      - apply H3, Hi. }
    split.
    { intros i Hi Hpos. apply elem_of_cons in Hi. destruct Hi as [-> | Hi].
      - fold v in Hpos |- *. lia.
      - apply H4; assumption. }
    split.
    { destruct H5 as [E | (i & Hi & E)].
      - destruct Hmx as (_ & _ & [E' | E']).
        + left. lia.
        + right. exists k. split; [apply elem_of_cons; left; reflexivity |].
          fold v. lia.
      - right. exists i. split; [apply elem_of_cons; right; exact Hi | exact E]. }
    { destruct H6 as [E | (i & Hi & E & Hp)].
      - destruct Hmn as (_ & _ & [E' | [E' Hv]]).
        + left. lia.
        + right. exists k. split; [apply elem_of_cons; left; reflexivity |].
          fold v. lia.
      - right. exists i.
        split; [apply elem_of_cons; right; exact Hi | split; assumption]. }
Qed.

Lemma ir_range_bounds (buf : list Z) :
  at_index 0 buf 0 <= fst (ir_range buf) /\
  snd (ir_range buf) <= at_index 0 buf 0 /\
  (forall i, i ∈ seqZ 0 128 -> at_index 0 buf i <= fst (ir_range buf)) /\
  (forall i, i ∈ seqZ 0 128 ->
             0 < at_index 0 buf i -> snd (ir_range buf) <= at_index 0 buf i) /\
  (fst (ir_range buf) = at_index 0 buf 0 \/
   exists i, i ∈ seqZ 0 128 /\ fst (ir_range buf) = at_index 0 buf i) /\
  (snd (ir_range buf) = at_index 0 buf 0 \/
   exists i, i ∈ seqZ 0 128 /\ snd (ir_range buf) = at_index 0 buf i
             /\ 0 < snd (ir_range buf)).
Proof.
  exact (ir_scan_bounds buf (seqZ 0 128) (at_index 0 buf 0) (at_index 0 buf 0)).
Qed.

Lemma ir_ok_initial : ir_ok initialHeart.
Proof. unfold ir_ok, IR_BUFFER_SIZE. cbn. split; [reflexivity | lia]. Qed.

Lemma ir_ok_tick (st : Heart.t) (ev : HeartTick) :
  ir_ok st -> ir_ok (heart_tick st ev).
Proof.
  intros [Hl Hi]. unfold IR_BUFFER_SIZE in Hi.
  destruct ev as [currentMillis irValue currentTime |]; cbn [heart_tick].
  - unfold updateHeartRate.
    destruct (20 <=? u32 (currentMillis - _)); [| split; assumption].
    cbv zeta. unfold ir_ok, IR_BUFFER_SIZE, set_index. cbn.
    rewrite length_insert. split; [exact Hl |].
    rewrite rem_succ by lia.
    destruct (Z.ltb_spec (Heart.irBufferIndex st + 1) 128); lia.
  - apply ir_ok_initial.
Qed.

Lemma ir_ok_run (evs : list HeartTick) :
  ir_ok (run_heart_rate evs initialHeart).
Proof.
  induction evs as [| ev evs IH] using rev_ind.
  - apply ir_ok_initial.
  - rewrite run_heart_rate_snoc. apply ir_ok_tick, IH.
Qed.

(** X15. Each time [updateHeartRate] takes a sample, the range it hands
    to the beat detector is proper: [minValue < maxValue], no entry of the
    IR buffer, the new sample included, exceeds [maxValue], and no positive
    entry is below [minValue]. Unless the guard against equal bounds has
    fired, [maxValue] is an entry of the buffer. *)
Theorem updateHeartRate_range (evs : list HeartTick)
    (currentMillis irValue currentTime : Z) :
  let st := run_heart_rate evs initialHeart in
  20 <= u32 (currentMillis - Heart.lastIRRead st) ->
  let st' := updateHeartRate currentMillis irValue currentTime st in
  Heart.minValue st' < Heart.maxValue st' /\
  irValue <= Heart.maxValue st' /\
  (forall i, 0 <= i < IR_BUFFER_SIZE ->
             at_index 0 (Heart.irBuffer st') i <= Heart.maxValue st') /\
  (forall i, 0 <= i < IR_BUFFER_SIZE ->
             0 < at_index 0 (Heart.irBuffer st') i ->
             Heart.minValue st' <= at_index 0 (Heart.irBuffer st') i) /\
  (Heart.maxValue st' = Heart.minValue st' + 1 \/
   exists i, 0 <= i < IR_BUFFER_SIZE /\
             Heart.maxValue st' = at_index 0 (Heart.irBuffer st') i).
Proof.
  intros st Hdue st'.
  destruct (ir_ok_run evs) as [Hl Hi]. fold st in Hl, Hi. unfold IR_BUFFER_SIZE in *.
  subst st'. unfold updateHeartRate.
  replace (20 <=? u32 (currentMillis - Heart.lastIRRead st)) with true
    by (symmetry; apply Z.leb_le; exact Hdue).
  cbv zeta. cbn [Heart.minValue Heart.maxValue Heart.irBuffer].
  set (buf := set_index (Heart.irBuffer st) (Heart.irBufferIndex st) irValue).
  destruct (ir_range_bounds buf) as (H1 & H2 & H3 & H4 & H5 & H6).
  assert (Hnew : at_index 0 buf (Heart.irBufferIndex st) = irValue).
  { subst buf. apply at_index_set_same. lia. }
  assert (Hin : forall i, 0 <= i < 128 -> i ∈ seqZ 0 128).
  { intros i Hr. apply elem_of_seqZ. lia. }
  assert (Hbound : forall i, 0 <= i < 128 -> at_index 0 buf i <= fst (ir_range buf)).
  { intros i Hr. apply H3, Hin, Hr. }
  assert (Hle : snd (ir_range buf) <= fst (ir_range buf)) by lia.
  destruct (Z.eqb_spec (fst (ir_range buf)) (snd (ir_range buf))) as [E | Hne].
  - split; [lia |].
    split; [rewrite <- Hnew; specialize (Hbound _ Hi); lia |].
    split; [intros i Hr; specialize (Hbound i Hr); lia |].
    split; [intros i Hr Hp; apply H4; [apply Hin, Hr | exact Hp] |].
    left. reflexivity.
  - split; [lia |].
    split; [rewrite <- Hnew; apply Hbound, Hi |].
    split; [exact Hbound |].
    split; [intros i Hr Hp; apply H4; [apply Hin, Hr | exact Hp] |].
    right. destruct H5 as [E | (i & Hi' & E)].
    + exists 0. split; [lia | exact E].
    + exists i. apply elem_of_seqZ in Hi'. split; [lia | exact E].
Qed.

Lemma updateHeartRate_range_witness :
  let st := run_heart_rate [IRSample 20 50000 20; IRSample 40 51000 40]
                           initialHeart in
  let st' := updateHeartRate 60 50500 60 st in
  20 <= u32 (60 - Heart.lastIRRead st) /\
  Heart.minValue st' < Heart.maxValue st' /\
  50500 <= Heart.maxValue st' /\
  (forall i, 0 <= i < IR_BUFFER_SIZE ->
             at_index 0 (Heart.irBuffer st') i <= Heart.maxValue st') /\
  (forall i, 0 <= i < IR_BUFFER_SIZE ->
             0 < at_index 0 (Heart.irBuffer st') i ->
             Heart.minValue st' <= at_index 0 (Heart.irBuffer st') i) /\
  (Heart.maxValue st' = Heart.minValue st' + 1 \/
   exists i, 0 <= i < IR_BUFFER_SIZE /\
             Heart.maxValue st' = at_index 0 (Heart.irBuffer st') i).
Proof.
  cbv zeta.
  assert (H : 20 <= u32 (60 - Heart.lastIRRead
                                (run_heart_rate
                                   [IRSample 20 50000 20; IRSample 40 51000 40]
                                   initialHeart))).
  { assert (E : Heart.lastIRRead
                  (run_heart_rate [IRSample 20 50000 20; IRSample 40 51000 40]
                                  initialHeart) = 40) by reflexivity.
    rewrite E. vm_compute. discriminate. }
  split; [exact H |].
  apply (updateHeartRate_range [IRSample 20 50000 20; IRSample 40 51000 40]
           60 50500 60 H).
Defined.

(** While the samples do not fall, the flag raised by a beat stays up and
    the detector records nothing. *)
Lemma no_beat_while_flag (irValue currentTime minValue maxValue : Z) (st : Beat.t) :
  Beat.peakDetected st = true ->
  Beat.lastValue st <= irValue ->
  let st' := detectPeakAndCalculateBPM irValue currentTime minValue maxValue st in
  Beat.peakDetected st' = true /\ Beat.lastValue st' = irValue /\
  Beat.peakTimes st' = Beat.peakTimes st /\
  Beat.peakIndex st' = Beat.peakIndex st /\
  Beat.peakCount st' = Beat.peakCount st /\
  Beat.lastPeakTime st' = Beat.lastPeakTime st /\
  Beat.lastBeatTime st' = Beat.lastBeatTime st /\
  Beat.currentBPM st' = Beat.currentBPM st /\
  Beat.hrv st' = Beat.hrv st.
Proof.
  intros Hflag Hle. cbv zeta. unfold detectPeakAndCalculateBPM, is_peak.
  rewrite Hflag. cbn [negb]. rewrite andb_false_r. cbn [andb].
  cbn. destruct (Z.ltb_spec irValue (Beat.lastValue st)); [lia |].
  repeat split.
Qed.

(** X16. One beat per rising edge: after a sample has been taken for a
    beat, no further beat is recorded for as long as the samples do not
    fall, however long that lasts; the peak ring, the BPM and the HRV
    globals stay as the beat left them. *)
Theorem one_beat_per_rise (irValue currentTime minValue maxValue : Z)
    (st : Beat.t) (evs : list HeartEvent) :
  is_peak irValue currentTime (peak_threshold minValue maxValue) st = true ->
  non_falling irValue evs ->
  let st1 := detectPeakAndCalculateBPM irValue currentTime minValue maxValue st in
  let st2 := run_heart evs st1 in
  Beat.peakTimes st2 = Beat.peakTimes st1 /\
  Beat.peakCount st2 = Beat.peakCount st1 /\
  Beat.lastPeakTime st2 = currentTime /\
  Beat.currentBPM st2 = Beat.currentBPM st1 /\
  Beat.hrv st2 = Beat.hrv st1.
Proof.
  intros Hp Hrise st1 st2.
  assert (H1 : Beat.peakDetected st1 = true /\ Beat.lastValue st1 = irValue /\
               Beat.lastPeakTime st1 = currentTime).
  { subst st1. unfold detectPeakAndCalculateBPM. rewrite Hp. cbn.
    unfold is_peak in Hp. repeat (apply andb_true_iff in Hp; destruct Hp as [Hp ?]).
    apply Z.ltb_lt in Hp.
    destruct (Z.ltb_spec irValue (Beat.lastValue st)); [lia |]. repeat split. }
  destruct H1 as (Hflag & Hlast & Htime).
  subst st2. clearbody st1. clear Hp st.
  revert st1 irValue Hflag Hlast Htime Hrise.
  induction evs as [| ev evs IH]; intros st1 level Hflag Hlast Htime Hrise.
  - cbn. repeat split. exact Htime.
  - destruct ev as [ir t mn mx |]; [| destruct Hrise].
    destruct Hrise as [Hle Hrest].
    change (run_heart (Sample ir t mn mx :: evs) st1)
      with (run_heart evs (detectPeakAndCalculateBPM ir t mn mx st1)).
    destruct (no_beat_while_flag ir t mn mx st1 Hflag ltac:(lia))
      as (F1 & F2 & F3 & F4 & F5 & F6 & F7 & F8 & F9).
    destruct (IH _ ir F1 F2 ltac:(congruence) Hrest) as (G1 & G2 & G3 & G4 & G5).
    repeat split; congruence.
Qed.

Lemma one_beat_per_rise_witness :
  let evs := [Sample 60000 1020 50000 60001; Sample 60500 1040 50000 60500] in
  let st1 := detectPeakAndCalculateBPM 60000 1000 50000 60001 initialBeat in
  let st2 := run_heart evs st1 in
  is_peak 60000 1000 (peak_threshold 50000 60001) initialBeat = true /\
  non_falling 60000 evs /\
  Beat.peakTimes st2 = Beat.peakTimes st1 /\
  Beat.peakCount st2 = Beat.peakCount st1 /\
  Beat.lastPeakTime st2 = 1000 /\
  Beat.currentBPM st2 = Beat.currentBPM st1 /\
  Beat.hrv st2 = Beat.hrv st1.
Proof.
  cbv zeta.
  assert (H1 : is_peak 60000 1000 (peak_threshold 50000 60001) initialBeat = true)
    by (vm_compute; reflexivity).
  assert (H2 : non_falling 60000
                 [Sample 60000 1020 50000 60001; Sample 60500 1040 50000 60500])
    by (cbn; lia).
  split; [exact H1 |]. split; [exact H2 |].
  apply (one_beat_per_rise 60000 1000 50000 60001 initialBeat _ H1 H2).
Defined.

(** ** Beat detector: recorded peaks *)

(** X17. The refractory period holds in every state of the detector: the
    peak ring never holds more than ten times, neighbouring recorded peaks
    are more than 300 ms apart, and the newest recorded peak is
    [lastPeakTime]. *)
Theorem recorded_peaks_spaced (evs : list HeartEvent) :
  let st := run_heart evs initialBeat in
  0 <= Beat.peakCount st <= PEAK_BUFFER_SIZE /\
  length (peak_window st) = Z.to_nat (Beat.peakCount st) /\
  Forall (fun x => 300 < x) (successive_intervals (peak_window st)) /\
  (0 < Beat.peakCount st -> last (peak_window st) = Some (Beat.lastPeakTime st)).
Proof.
  cbv zeta. destruct (peaks_ok_run evs) as ((_ & _ & Hc & _) & Hs & Hl).
  split; [exact Hc |].
  split; [apply ring_window_length |].
  split; [exact Hs | exact Hl].
Qed.

(** ** Range of the HRV estimate *)

Lemma sum_sq_diffs_pairs (l : list Z) :
  Forall rr_in_range l ->
  0 <= sum_sq_diffs l <= 2890000 * (Z.of_nat (length l) - 1) \/ l = [].
Proof.
  induction 1 as [| x l Hx Hl IH]; [right; reflexivity |]. left.
  destruct l as [| y l]; [cbn; lia |].
  destruct IH as [IH | IH]; [| discriminate IH].
  apply Forall_inv in Hl. unfold rr_in_range in Hx, Hl.
  change (sum_sq_diffs (x :: y :: l))
    with ((y - x) * (y - x) + sum_sq_diffs (y :: l)).
  assert (Hsq : 0 <= (y - x) * (y - x) <= 2890000).
  { pose proof (Z.mul_nonneg_nonneg (1700 - (y - x)) (1700 + (y - x))
                  ltac:(lia) ltac:(lia)).
    pose proof (Z.square_nonneg (y - x)). lia. }
  rewrite !length_cons, !Nat2Z.inj_succ in *. lia.
Qed.

(** The RMSSD of a ring of in-range intervals is at most the width of the
    range. *)
Lemma calculateRMSSD_bound (h : HRV.t) :
  rr_ring_inv h -> (0 <= calculateRMSSD h <= 1700)%R.
Proof.
  intros [Hok Hall]. split; [apply calculateRMSSD_nonneg |].
  unfold calculateRMSSD.
  destruct (Z.ltb_spec (HRV.count h) 2) as [Hlt | Hge]; [lra |].
  rewrite rr_sumSq_window by lia.
  destruct (sum_sq_diffs_pairs _ Hall) as [Hb | Hnil].
  - rewrite rr_window_length, Z2Nat.id in Hb by lia.
    replace 1700%R with (sqrt (1700 * 1700)) by (apply sqrt_square; lra).
    apply sqrt_le_1_alt.
    assert (Hpos : (0 < IZR (HRV.count h - 1))%R) by (apply IZR_lt; lia).
    apply Rmult_le_reg_r with (IZR (HRV.count h - 1)); [exact Hpos |].
    unfold Rdiv. rewrite Rmult_assoc, Rinv_l, Rmult_1_r by lra.
    replace (1700 * 1700)%R with (IZR 2890000) by (simpl; lra).
    rewrite <- mult_IZR. apply IZR_le. lia.
  - apply (f_equal length) in Hnil. rewrite rr_window_length in Hnil.
    cbn in Hnil. lia.
Qed.

Lemma hrv_range_add (rr : Z) (h : HRV.t) :
  rr_in_range rr -> rr_ring_inv h -> hrv_range h ->
  hrv_range (addRRInterval rr h).
Proof.
  intros Hrr Hinv [Hc Hb].
  pose proof (rr_ring_inv_add rr h Hrr Hinv) as Hinv'.
  pose proof (calculateRMSSD_bound _ Hinv') as Hr.
  destruct (addRRInterval_hrv rr h) as [Hcold Hwarm].
  unfold hrv_range.
  destruct (Z.lt_ge_cases (HRV.count (addRRInterval rr h)) HRV_WARMUP_COUNT)
    as [Hlt | Hge].
  - destruct (Hcold Hlt) as [-> ->]. split; assumption.
  - destruct (Hwarm Hge) as [E1 E2]. rewrite E2, E1.
    unfold hrvLearningRate. split; lra.
Qed.

Lemma hrv_range_run (evs : list HeartEvent) :
  hrv_range (Beat.hrv (run_heart evs initialBeat)).
Proof.
  induction evs as [| ev evs IH] using rev_ind.
  - unfold hrv_range. cbn. lra.
  - rewrite run_heart_snoc.
    destruct ev as [irValue currentTime minValue maxValue |]; cbn [heart_step].
    + destruct (detect_hrv_cases irValue currentTime minValue maxValue
                  (run_heart evs initialBeat)) as [E | (rr & Hrr & E)];
        rewrite E; [exact IH |].
      apply hrv_range_add; [exact Hrr | apply rr_ring_inv_run | exact IH].
    + exact IH.
Qed.

(** X18. In every state of the beat detector the HRV estimate lies in
    [[0, 1700]] milliseconds, so that it fits 16 bits, and the adaptive
    baseline [longTermHRV] is positive and at most 1700; whatever the
    activity level, the divisor [in_max - in_min] of the interpolation in the
    HRV score, 60 % of the activity-adjusted baseline, is positive. *)
Theorem hrv_estimate_range (evs : list HeartEvent) :
  let h := Beat.hrv (run_heart evs initialBeat) in
  (0 <= HRV.currentHRV h <= 1700)%R /\
  (0 < HRV.longTermHRV h <= 1700)%R /\
  forall a : ActivityLevel,
    let b := (HRV.longTermHRV h * HRV_ACTIVITY_MULTIPLIER a)%R in
    (0 < b - b * 0.4)%R.
Proof.
  cbv zeta. destruct (hrv_range_run evs) as [Hc Hb].
  split; [exact Hc |]. split; [exact Hb |].
  intros a. destruct a; cbn; lra.
Qed.

(** ** Outlier guard on reachable states *)

(** X19. On every state the detector reaches, for an in-range interval
    that follows a stored one, the guard stores the predecessor instead of
    the new interval exactly when the new interval deviates from it by 20
    percent or more, that is when [prev <= 5 * |rr - prev|]. *)
Theorem outlier_guard_threshold (evs : list HeartEvent) (rr : Z) :
  let h := Beat.hrv (run_heart evs initialBeat) in
  rr_in_range rr ->
  0 < HRV.count h ->
  at_index 0 (HRV.rrBuffer (addRRInterval rr h)) (HRV.head h)
  = if rr_previous h <=? 5 * Z.abs (rr - rr_previous h)
    then rr_previous h else rr.
Proof.
  intros h Hrr Hc.
  pose proof (rr_ring_inv_run evs) as Hinv. fold h in Hinv.
  destruct (addRRInterval_ring rr h) as (Eb & _).
  rewrite Eb, at_index_set_same.
  - apply stored_value_in_range; assumption.
  - destruct Hinv as [(Hl & Hh & _) _]. unfold BUFFER_SIZE in *. lia.
Qed.

Lemma outlier_guard_threshold_witness :
  let evs := [Sample 1000 1000 0 500; Sample 900 1020 0 500;
              Sample 1000 1800 0 500; Sample 900 1820 0 500] in
  let h := Beat.hrv (run_heart evs initialBeat) in
  rr_in_range 960 /\
  0 < HRV.count h /\
  at_index 0 (HRV.rrBuffer (addRRInterval 960 h)) (HRV.head h)
  = if rr_previous h <=? 5 * Z.abs (960 - rr_previous h)
    then rr_previous h else 960.
Proof.
  cbv zeta.
  assert (H1 : rr_in_range 960) by (unfold rr_in_range; lia).
  assert (H2 : 0 < HRV.count
                     (Beat.hrv
                        (run_heart
                           [Sample 1000 1000 0 500; Sample 900 1020 0 500;
                            Sample 1000 1800 0 500; Sample 900 1820 0 500]
                           initialBeat)))
    by (vm_compute; reflexivity).
  split; [exact H1 |]. split; [exact H2 |].
  apply (outlier_guard_threshold
           [Sample 1000 1000 0 500; Sample 900 1020 0 500;
            Sample 1000 1800 0 500; Sample 900 1820 0 500] 960 H1 H2).
Defined.

(** X20. The integer arithmetic of [calculateRMSSD] stays far inside 32
    bits on every state the detector reaches: each squared difference is at
    most 1700 squared, and the sum of at most 29 of them is at most
    83810000. *)
Theorem rr_sumSq_bound (evs : list HeartEvent) :
  let h := Beat.hrv (run_heart evs initialBeat) in
  0 <= rr_sumSq h <= 83810000 /\
  Forall (fun d => 0 <= d * d <= 2890000) (successive_differences (rr_window h)).
Proof.
  cbv zeta.
  destruct (rr_ring_inv_run evs) as [Hok Hall].
  set (h := Beat.hrv (run_heart evs initialBeat)) in *.
  split.
  - destruct Hok as (_ & _ & Hc & _). unfold BUFFER_SIZE in Hc.
    destruct (Z.lt_ge_cases (HRV.count h) 1) as [Hz | Hpos].
    + unfold rr_sumSq. rewrite seqZ_nil by lia. cbn. lia.
    + rewrite rr_sumSq_window by exact Hpos.
      destruct (sum_sq_diffs_pairs _ Hall) as [Hb | Hnil].
      * rewrite rr_window_length in Hb. lia.
      * rewrite Hnil. cbn. lia.
  - induction Hall as [| x l Hx Hl IH]; [apply Forall_nil_2 |].
    destruct l as [| y l]; [apply Forall_nil_2 |].
    cbn [successive_differences]. apply List.Forall_cons; [| exact IH].
    apply Forall_inv in Hl. unfold rr_in_range in Hx, Hl.
    pose proof (Z.mul_nonneg_nonneg (1700 - (y - x)) (1700 + (y - x))
                  ltac:(lia) ltac:(lia)).
    pose proof (Z.square_nonneg (y - x)). lia.
Qed.

(** ** Skin-conductance sampling *)

Lemma fold_sum_map (f : Z -> Z) (l : list Z) (a : Z) :
  fold_left (fun sum i => sum + f i) l a = a + sum_list (map f l).
Proof.
  revert a. induction l as [| x l IH]; intros a; cbn; [lia |].
  rewrite IH. unfold sum_list. lia.
Qed.

Lemma map_at_index_take (buf : list Z) (n : Z) :
  0 <= n <= Z.of_nat (length buf) ->
  map (at_index 0 buf) (seqZ 0 n) = take (Z.to_nat n) buf.
Proof.
  intros Hn. apply list_eq. intros i.
  rewrite list_lookup_fmap.
  destruct (Nat.lt_ge_cases i (Z.to_nat n)) as [Hi | Hi].
  - rewrite lookup_seqZ_lt by lia. cbn. rewrite lookup_take_lt by lia.
    rewrite Z.add_0_l. unfold at_index. rewrite Nat2Z.id.
    destruct (lookup_lt_is_Some_2 buf i) as [x Hx]; [lia |].
    rewrite Hx. reflexivity.
  - rewrite lookup_seqZ_ge by lia. cbn.
    symmetry. apply lookup_ge_None_2. rewrite length_take. lia.
Qed.

(** The live entries of a ring, read off the array: a prefix while the
    ring fills up, a rotation of the whole array once it is full. *)
Lemma ring_window_rotation (size : Z) (buf : list Z) (head count : Z) :
  0 < size ->
  ring_shape size buf head count ->
  ring_window size buf head count
  = if count <? size then take (Z.to_nat count) buf
    else drop (Z.to_nat head) buf ++ take (Z.to_nat head) buf.
Proof.
  intros Hsize (Hl & Hh & Hc & Hw).
  destruct (Z.ltb_spec count size) as [Hlt | Hge].
  - specialize (Hw Hlt). subst head.
    rewrite <- map_at_index_take by lia. unfold ring_window.
    apply map_ext_in. intros i Hi.
    apply list_elem_of_In, elem_of_seqZ in Hi.
    rewrite ring_index_fresh by lia. reflexivity.
  - assert (count = size) by lia. subst count.
    apply list_eq. intros i.
    destruct (Nat.lt_ge_cases i (Z.to_nat size)) as [Hi | Hi].
    + rewrite (ring_window_lookup size) by exact Hi.
      rewrite ring_index_full by lia.
      destruct (Z.ltb_spec (head + Z.of_nat i) size) as [Hin | Hout].
      * rewrite lookup_app_l by (rewrite length_drop; lia).
        rewrite lookup_drop. unfold at_index.
        replace (Z.to_nat (head + Z.of_nat i)) with (Z.to_nat head + i)%nat by lia.
        destruct (lookup_lt_is_Some_2 buf (Z.to_nat head + i)) as [x Hx]; [lia |].
        rewrite Hx. reflexivity.
      * rewrite lookup_app_r by (rewrite length_drop; lia).
        rewrite length_drop, lookup_take_lt by lia. unfold at_index.
        replace (Z.to_nat (head + Z.of_nat i - size))
          with (i - (length buf - Z.to_nat head))%nat by lia.
        destruct (lookup_lt_is_Some_2 buf (i - (length buf - Z.to_nat head)))
          as [x Hx]; [lia |].
        rewrite Hx. reflexivity.
    + rewrite !lookup_ge_None_2; [reflexivity | |].
      * rewrite length_app, length_drop, length_take. lia.
      * rewrite (ring_window_length size). lia.
Qed.

(** The sum formed by the loop of [updateGSR] is the sum of the live
    entries of the ring. *)
Lemma gsr_loop_sum (buf : list Z) (head count : Z) :
  ring_shape GSR_BUFFER_SIZE buf head count ->
  fold_left (fun sum i => sum + at_index 0 buf i) (seqZ 0 count) 0
  = sum_list (ring_window GSR_BUFFER_SIZE buf head count).
Proof.
  intros Hs. rewrite (ring_window_rotation GSR_BUFFER_SIZE) by (reflexivity || exact Hs).
  destruct Hs as (Hl & Hh & Hc & Hw). unfold GSR_BUFFER_SIZE in *.
  rewrite fold_sum_map, map_at_index_take by lia. rewrite Z.add_0_l.
  destruct (Z.ltb_spec count 50) as [Hlt | Hge]; [reflexivity |].
  rewrite sum_list_app, Z.add_comm, <- sum_list_app, take_drop.
  rewrite take_ge by lia. reflexivity.
Qed.

Lemma updateGSR_fields (reading : Z) (st : GSR.t) :
  let st' := updateGSR reading st in
  GSR.gsrBuffer st' = set_index (GSR.gsrBuffer st) (GSR.gsrHead st) reading /\
  GSR.gsrHead st' = Z.rem (GSR.gsrHead st + 1) GSR_BUFFER_SIZE /\
  GSR.gsrCount st'
  = (if GSR.gsrCount st <? GSR_BUFFER_SIZE then GSR.gsrCount st + 1
     else GSR.gsrCount st) /\
  GSR.currentGSR st'
  = Rdiv (IZR (fold_left (fun sum i => sum + at_index 0 (GSR.gsrBuffer st') i)
                         (seqZ 0 (GSR.gsrCount st')) 0))
         (IZR (GSR.gsrCount st')) /\
  GSR.baselineGSR st'
  = (GSR_ALPHA * GSR.currentGSR st' + (1.0 - GSR_ALPHA) * GSR.baselineGSR st)%R.
Proof. cbv zeta. unfold updateGSR. cbn. repeat split. Qed.

Lemma feed_gsr_snoc (readings : list Z) (r : Z) (st : GSR.t) :
  feed_gsr (readings ++ [r]) st = updateGSR r (feed_gsr readings st).
Proof. unfold feed_gsr. rewrite fold_left_app. reflexivity. Qed.

Lemma feed_gsr_window (readings : list Z) (baseline : R) :
  let st := feed_gsr readings (initialGSR baseline) in
  ring_shape GSR_BUFFER_SIZE (GSR.gsrBuffer st) (GSR.gsrHead st) (GSR.gsrCount st) /\
  ring_window GSR_BUFFER_SIZE (GSR.gsrBuffer st) (GSR.gsrHead st) (GSR.gsrCount st)
  = last_n 50 readings.
Proof.
  cbv zeta. induction readings as [| r readings IH] using rev_ind.
  - split; [| reflexivity].
    unfold ring_shape, GSR_BUFFER_SIZE. cbn. repeat split; lia.
  - destruct IH as [Hs Hw]. rewrite feed_gsr_snoc.
    destruct (updateGSR_fields r (feed_gsr readings (initialGSR baseline)))
      as (Eb & Eh & Ec & _).
    rewrite Eb, Eh, Ec. split.
    + apply ring_shape_push; [reflexivity | exact Hs].
    + rewrite (ring_window_push GSR_BUFFER_SIZE) by (reflexivity || exact Hs).
      rewrite Hw. apply last_n_snoc. lia.
Qed.

Lemma currentGSR_mean_snoc (readings : list Z) (r : Z) (baseline : R) :
  GSR.currentGSR (feed_gsr (readings ++ [r]) (initialGSR baseline))
  = mean (last_n 50 (readings ++ [r])).
Proof.
  destruct (feed_gsr_window (readings ++ [r]) baseline) as [Hs Hw].
  rewrite feed_gsr_snoc in *.
  destruct (updateGSR_fields r (feed_gsr readings (initialGSR baseline)))
    as (_ & _ & _ & Eg & _).
  rewrite Eg. rewrite (gsr_loop_sum _ _ _ Hs), Hw. unfold mean.
  do 2 f_equal. rewrite <- Hw, (ring_window_length GSR_BUFFER_SIZE).
  destruct Hs as (_ & _ & Hc & _). lia.
Qed.

(** X21. [currentGSR] is a rolling average: after every call of
    [updateGSR] it is the arithmetic mean of the newest 50 readings, or of
    all of them while there are fewer; the ring then holds exactly those
    readings, oldest first. *)
Theorem currentGSR_is_rolling_mean (readings : list Z) (r : Z) (baseline : R) :
  let st := feed_gsr (readings ++ [r]) (initialGSR baseline) in
  ring_window GSR_BUFFER_SIZE (GSR.gsrBuffer st) (GSR.gsrHead st) (GSR.gsrCount st)
  = last_n 50 (readings ++ [r]) /\
  GSR.currentGSR st = mean (last_n 50 (readings ++ [r])).
Proof.
  cbv zeta. split.
  - apply (feed_gsr_window (readings ++ [r]) baseline).
  - apply currentGSR_mean_snoc.
Qed.

Lemma sum_list_range (hi : Z) (l : list Z) :
  Forall (fun r => 0 <= r <= hi) l ->
  0 <= sum_list l <= hi * Z.of_nat (length l).
Proof.
  induction 1 as [| x l Hx Hl IH]; [cbn; lia |].
  change (sum_list (x :: l)) with (x + sum_list l).
  rewrite length_cons, Nat2Z.inj_succ. lia.
Qed.

Lemma mean_range (hi : Z) (l : list Z) :
  Forall (fun r => 0 <= r <= hi) l -> l <> [] ->
  (0 <= mean l <= IZR hi)%R.
Proof.
  intros Hall Hne. pose proof (sum_list_range hi l Hall) as Hs.
  assert (Hn : (0 < IZR (Z.of_nat (length l)))%R).
  { apply IZR_lt. destruct l; [contradiction | cbn [length]; lia]. }
  unfold mean. split.
  - apply Rmult_le_reg_r with (IZR (Z.of_nat (length l))); [exact Hn |].
    unfold Rdiv. rewrite Rmult_assoc, Rinv_l, Rmult_1_r, Rmult_0_l by lra.
    apply IZR_le. lia.
  - apply Rmult_le_reg_r with (IZR (Z.of_nat (length l))); [exact Hn |].
    unfold Rdiv. rewrite Rmult_assoc, Rinv_l, Rmult_1_r by lra.
    rewrite <- mult_IZR. apply IZR_le. lia.
Qed.

(** X22. The smoothed GSR and its baseline stay within the range of the
    converter: when every reading and the calibrated baseline lie in
    [[0, hi]], so do [currentGSR] and [baselineGSR] after any number of
    updates. *)
Theorem gsr_within_converter_range (hi : Z) (readings : list Z) (baseline : R) :
  Forall (fun r => 0 <= r <= hi) readings ->
  (0 <= baseline <= IZR hi)%R ->
  let st := feed_gsr readings (initialGSR baseline) in
  (0 <= GSR.currentGSR st <= IZR hi)%R /\
  (0 <= GSR.baselineGSR st <= IZR hi)%R.
Proof.
  intros Hall Hb. cbv zeta.
  induction readings as [| r readings IH] using rev_ind.
  - cbn. lra.
  - pose proof (currentGSR_mean_snoc readings r baseline) as Ec.
    assert (Hm : (0 <= mean (last_n 50 (readings ++ [r])) <= IZR hi)%R).
    { apply mean_range; [apply Forall_last_n, Hall |].
      intros E. apply (f_equal length) in E.
      rewrite last_n_length, length_app in E. cbn [length] in E. lia. }
    apply Forall_app in Hall. destruct Hall as [Hall _].
    destruct (IH Hall) as [_ Hbase].
    rewrite feed_gsr_snoc in *.
    destruct (updateGSR_fields r (feed_gsr readings (initialGSR baseline)))
      as (_ & _ & _ & _ & Eb).
    rewrite Eb, Ec. unfold GSR_ALPHA. split; lra.
Qed.

Lemma gsr_within_converter_range_witness :
  let st := feed_gsr [2000; 2100; 1900] (initialGSR 2050) in
  Forall (fun r => 0 <= r <= 4095) [2000; 2100; 1900] /\
  (0 <= 2050 <= IZR 4095)%R /\
  (0 <= GSR.currentGSR st <= IZR 4095)%R /\
  (0 <= GSR.baselineGSR st <= IZR 4095)%R.
Proof.
  cbv zeta.
  assert (H1 : Forall (fun r => 0 <= r <= 4095) [2000; 2100; 1900]).
  { repeat (apply List.Forall_cons; [lia |]). apply List.Forall_nil. }
  assert (H2 : (0 <= 2050 <= IZR 4095)%R) by lra.
  split; [exact H1 |]. split; [exact H2 |].
  apply (gsr_within_converter_range 4095 [2000; 2100; 1900] 2050 H1 H2).
Defined.

(** ** Calibration *)

Lemma ratio_range (total n hi : Z) :
  0 < n -> 0 <= total <= hi * n -> (0 <= IZR total / IZR n <= IZR hi)%R.
Proof.
  intros Hn Ht. assert (Hr : (0 < IZR n)%R) by (apply IZR_lt; exact Hn).
  split.
  - apply Rmult_le_reg_r with (IZR n); [exact Hr |].
    unfold Rdiv. rewrite Rmult_assoc, Rinv_l, Rmult_1_r, Rmult_0_l by lra.
    apply IZR_le. lia.
  - apply Rmult_le_reg_r with (IZR n); [exact Hr |].
    unfold Rdiv. rewrite Rmult_assoc, Rinv_l, Rmult_1_r by lra.
    rewrite <- mult_IZR. apply IZR_le. lia.
Qed.

Lemma calibrate_ok (hi prev tick reading : Z) (st : Calibration.t) :
  calibration_ok hi prev st ->
  prev <= tick < 4294967296 -> 0 <= reading <= hi ->
  calibration_ok hi tick (calibrate st (tick, reading)).
Proof.
  intros (Hs & Hl & Hn & Hsum & Hsp & Hb) Ht Hr.
  assert (Hsame : calibration_ok hi tick st).
  { unfold calibration_ok.
    split; [lia |]. split; [lia |]. split; [exact Hn |].
    split; [exact Hsum |]. split; [exact Hsp | exact Hb]. }
  unfold calibrate.
  destruct (Calibration.calibrationComplete st); [exact Hsame |].
  rewrite !u32_small by lia.
  destruct (Z.ltb_spec (tick - Calibration.calibrationStartTime st) 5000)
    as [Hin | Hout].
  - destruct (Z.leb_spec 20 (tick - Calibration.lastGSRSampleTime st))
      as [Hdue | Hnot]; [| exact Hsame].
    assert (Hcount : Calibration.calibrationReadings st < 250).
    { destruct (Z.lt_ge_cases 0 (Calibration.calibrationReadings st)) as [Hp | Hz];
        [specialize (Hsp Hp) |]; lia. }
    assert (Hspaced :
              Calibration.calibrationStartTime st
              + 20 * (Calibration.calibrationReadings st + 1 - 1) <= tick).
    { destruct (Z.lt_ge_cases 0 (Calibration.calibrationReadings st)) as [Hp | Hz];
        [specialize (Hsp Hp) |]; lia. }
    unfold calibration_ok. cbn.
    split; [lia |]. split; [lia |]. split; [lia |]. split; [nia |].
    split; [intros _; lia | exact Hb].
  - unfold calibration_ok. cbn.
    split; [lia |]. split; [lia |]. split; [exact Hn |].
    split; [exact Hsum |]. split; [exact Hsp |].
    destruct (Z.ltb_spec 0 (Calibration.calibrationReadings st)) as [Hp | Hz];
      [apply (ratio_range _ _ hi Hp Hsum) | exact Hb].
Qed.

Lemma run_calibration_ok (hi : Z) (passes : list (Z * Z)) (prev : Z)
    (st : Calibration.t) :
  calibration_ok hi prev st -> ascending hi prev passes ->
  exists now, calibration_ok hi now (run_calibration passes st).
Proof.
  revert prev st.
  induction passes as [| [tick reading] passes IH]; intros prev st H0 Hasc.
  - exists prev. exact H0.
  - cbn [ascending] in Hasc. destruct Hasc as (Ht & Hr & Hrest).
    cbn [run_calibration fold_left].
    apply (IH tick); [| exact Hrest].
    apply (calibrate_ok hi prev); assumption.
Qed.

(** X23. The calibration phase of [loop()], on ticks that neither go
    back nor wrap: at most 250 readings are summed, so the sum is at most
    250 times the largest reading, far inside a [long]; and the baseline
    it leaves, the mean of those readings, lies within the range of the
    readings. *)
Theorem calibration_bounded (hi start : Z) (passes : list (Z * Z)) :
  0 <= hi -> 0 <= start ->
  ascending hi start passes ->
  let st := run_calibration passes (initialCalibration start) in
  0 <= Calibration.calibrationReadings st <= 250 /\
  0 <= Calibration.calibrationSum st <= hi * 250 /\
  (0 <= Calibration.baselineGSR st <= IZR hi)%R.
Proof.
  intros Hhi Hstart Hasc. cbv zeta.
  assert (H0 : calibration_ok hi start (initialCalibration start)).
  { unfold calibration_ok. cbn.
    split; [lia |]. split; [lia |]. split; [lia |]. split; [lia |].
    split; [lia |]. split; [lra | apply IZR_le; exact Hhi]. }
  destruct (run_calibration_ok hi passes start _ H0 Hasc)
    as (now & _ & _ & Hn & Hsum & _ & Hb).
  split; [exact Hn |]. split; [nia | exact Hb].
Qed.

Lemma calibration_bounded_witness :
  let passes := [(1000, 2000); (1010, 2100); (1020, 2200); (6000, 2300)] in
  let st := run_calibration passes (initialCalibration 990) in
  0 <= 4095 /\ 0 <= 990 /\
  ascending 4095 990 passes /\
  0 <= Calibration.calibrationReadings st <= 250 /\
  0 <= Calibration.calibrationSum st <= 4095 * 250 /\
  (0 <= Calibration.baselineGSR st <= IZR 4095)%R.
Proof.
  cbv zeta.
  assert (H1 : 0 <= 4095) by lia.
  assert (H2 : 0 <= 990) by lia.
  assert (H3 : ascending 4095 990
                 [(1000, 2000); (1010, 2100); (1020, 2200); (6000, 2300)])
    by (cbn; lia).
  split; [exact H1 |]. split; [exact H2 |]. split; [exact H3 |].
  apply (calibration_bounded 4095 990 _ H1 H2 H3).
Defined.

(** ** Stress fusion engine: scores and weights *)

Lemma fabs_nonneg (x : R) : (0 <= fabs x)%R.
Proof. unfold fabs. destruct (Rgt_dec x 0); lra. Qed.

(** X24. The adaptive swing only grows and starts at 100: after any
    number of cycles [gsrMaxSwing] is at least 100, so the quotient of the
    GSR score never has a zero divisor, and a further cycle does not lower
    it. *)
Theorem gsrMaxSwing_floor (inputs : list Sensors.t) (inp : Sensors.t) :
  let st := run_fusion inputs initialFusion in
  (100 <= Fusion.gsrMaxSwing st)%R /\
  (Fusion.gsrMaxSwing st <= Fusion.gsrMaxSwing (fusion_cycle st inp))%R /\
  (100 <= gsr_swing inp st)%R.
Proof.
  cbv zeta.
  assert (Hstep : forall st i,
            (Fusion.gsrMaxSwing st <= Fusion.gsrMaxSwing (fusion_cycle st i))%R).
  { intros st i. unfold fusion_cycle, calculateStressIndex.
    cbn [Fusion.gsrMaxSwing]. unfold gsr_swing.
    destruct (Rgt_dec _ (Fusion.gsrMaxSwing st)); lra. }
  assert (Hfloor : (100 <= Fusion.gsrMaxSwing (run_fusion inputs initialFusion))%R).
  { induction inputs as [| i inputs IH] using rev_ind.
    - cbn. lra.
    - unfold run_fusion in *. rewrite fold_left_app. cbn [fold_left].
      eapply Rle_trans; [exact IH | apply Hstep]. }
  split; [exact Hfloor |]. split; [apply Hstep |].
  specialize (Hstep (run_fusion inputs initialFusion) inp).
  unfold fusion_cycle, calculateStressIndex in Hstep.
  cbn [Fusion.gsrMaxSwing] in Hstep. lra.
Qed.





(** X26. The HRV score falls linearly from 100 to 0 as the HRV estimate
    rises from 40 % of the activity-adjusted baseline to the baseline
    itself, and is clamped outside: with the sensor active, the warm-up done
    and a positive baseline, it is 100 at or below 40 %, 0 at or above the
    baseline, and [100 * (b - hrv) / (0.6 * b)] in between. *)
Theorem hrv_score_profile (inp : Sensors.t) :
  Sensors.hrSensorActive inp = true ->
  HRV_WARMUP_COUNT <= Sensors.count inp ->
  (0 < Sensors.longTermHRV inp)%R ->
  let b := (Sensors.longTermHRV inp
            * HRV_ACTIVITY_MULTIPLIER (Sensors.currentActivity inp))%R in
  let hrv := Sensors.currentHRV inp in
  ((hrv <= 0.4 * b)%R -> hrv_score inp = 100%R) /\
  ((b <= hrv)%R -> hrv_score inp = 0%R) /\
  ((0.4 * b <= hrv <= b)%R ->
   hrv_score inp = (100 * (b - hrv) / (0.6 * b))%R).
Proof.
  intros Ha Hw Hpos b hrv. unfold hrv_score. rewrite Ha.
  replace (HRV_WARMUP_COUNT <=? Sensors.count inp) with true
    by (symmetry; apply Z.leb_le; exact Hw).
  cbn [andb]. fold b. fold hrv.
  assert (Hb : (0 < b)%R).
  { subst b. apply Rmult_lt_0_compat; [exact Hpos |].
    destruct (Sensors.currentActivity inp); cbn; lra. }
  assert (Hmap : mapFloat hrv (b * 0.4) b 100 0
                 = (100 * (b - hrv) / (0.6 * b))%R).
  { unfold mapFloat. clearbody b hrv.
    replace (b - b * 0.4)%R with (0.6 * b)%R by lra.
    unfold Rdiv.
    assert (Hk : (0.6 * b * / (0.6 * b) = 1)%R) by (apply Rinv_r; lra).
    set (k := (/ (0.6 * b))%R) in *. nra. }
  rewrite Hmap.
  assert (Hden : (0 < / (0.6 * b))%R) by (apply Rinv_0_lt_compat; lra).
  assert (Hscale : forall x y, (x <= y)%R ->
            (x / (0.6 * b) <= y / (0.6 * b))%R).
  { intros x y Hxy. unfold Rdiv. apply Rmult_le_compat_r; lra. }
  assert (H100 : (100 * (0.6 * b) / (0.6 * b) = 100)%R) by (field; lra).
  assert (H0 : (0 / (0.6 * b) = 0)%R) by (field; lra).
  unfold constrain.
  split; [| split].
  - intros Hlow.
    pose proof (Hscale (100 * (0.6 * b))%R (100 * (b - hrv))%R ltac:(lra)) as H.
    rewrite H100 in H.
    destruct (Rlt_dec (100 * (b - hrv) / (0.6 * b)) 0); [lra |].
    destruct (Rgt_dec (100 * (b - hrv) / (0.6 * b)) 100); lra.
  - intros Hhigh.
    pose proof (Hscale (100 * (b - hrv))%R 0%R ltac:(lra)) as H.
    rewrite H0 in H.
    destruct (Rlt_dec (100 * (b - hrv) / (0.6 * b)) 0); [reflexivity |].
    destruct (Rgt_dec (100 * (b - hrv) / (0.6 * b)) 100); lra.
  - intros [Hlow Hhigh].
    pose proof (Hscale 0%R (100 * (b - hrv))%R ltac:(lra)) as H1.
    pose proof (Hscale (100 * (b - hrv))%R (100 * (0.6 * b))%R ltac:(lra)) as H2.
    rewrite H0 in H1. rewrite H100 in H2.
    destruct (Rlt_dec (100 * (b - hrv) / (0.6 * b)) 0); [lra |].
    destruct (Rgt_dec (100 * (b - hrv) / (0.6 * b)) 100); lra.
Qed.

Lemma hrv_score_profile_witness :
  let inp := Sensors.mk true 25 40 50 LIGHT 2000 2000 72 0 in
  let b := (Sensors.longTermHRV inp
            * HRV_ACTIVITY_MULTIPLIER (Sensors.currentActivity inp))%R in
  let hrv := Sensors.currentHRV inp in
  Sensors.hrSensorActive inp = true /\
  HRV_WARMUP_COUNT <= Sensors.count inp /\
  (0 < Sensors.longTermHRV inp)%R /\
  ((hrv <= 0.4 * b)%R -> hrv_score inp = 100%R) /\
  ((b <= hrv)%R -> hrv_score inp = 0%R) /\
  ((0.4 * b <= hrv <= b)%R ->
   hrv_score inp = (100 * (b - hrv) / (0.6 * b))%R).
Proof.
  cbv zeta.
  assert (H1 : Sensors.hrSensorActive
                 (Sensors.mk true 25 40 50 LIGHT 2000 2000 72 0) = true)
    by reflexivity.
  assert (H2 : HRV_WARMUP_COUNT
               <= Sensors.count (Sensors.mk true 25 40 50 LIGHT 2000 2000 72 0))
    by (unfold HRV_WARMUP_COUNT; cbn; lia).
  assert (H3 : (0 < Sensors.longTermHRV
                      (Sensors.mk true 25 40 50 LIGHT 2000 2000 72 0))%R)
    by (cbn; lra).
  split; [exact H1 |]. split; [exact H2 |]. split; [exact H3 |].
  apply (hrv_score_profile (Sensors.mk true 25 40 50 LIGHT 2000 2000 72 0)
           H1 H2 H3).
Defined.

(** ** Motion *)

Lemma activity_of_flag (variance : R) :
  ((if Rgt_dec variance 0.02 then true else false) = true ->
   activity_of variance <> STILL) /\
  (2 <= activity_code (activity_of variance) ->
   (if Rgt_dec variance 0.02 then true else false) = true) /\
  (activity_of variance = STILL ->
   (if Rgt_dec variance 0.02 then true else false) = false).
Proof.
  unfold activity_of.
  destruct (Rgt_dec variance 0.02) as [Hm | Hm];
    destruct (Rlt_dec variance 0.005);
    [lra | | |];
    destruct (Rlt_dec variance 0.03); try lra;
    try destruct (Rlt_dec variance 0.15); try lra;
    cbn; repeat split; intros; try discriminate; try reflexivity; lia.
Qed.

Lemma motion_flag_step (st : Motion.t) (sample : Z * (R * R * R)) :
  Motion.motionDetected st
  = (if Rgt_dec (Motion.motionVariance st) 0.02 then true else false) ->
  let st' := motion_cycle st sample in
  Motion.motionDetected st'
  = (if Rgt_dec (Motion.motionVariance st') 0.02 then true else false) /\
  Motion.currentActivity st' = activity_of (Motion.motionVariance st').
Proof.
  intros Hinv. destruct sample as [currentMillis [[ax ay] az]].
  cbv zeta. unfold motion_cycle, updateActivityLevel, updateMotion.
  destruct (u32 (currentMillis - Motion.lastMotionUpdate st) <? 20).
  - cbn. split; [exact Hinv | reflexivity].
  - cbv zeta. cbn [Motion.motionDetected Motion.motionVariance
                   Motion.currentActivity]. split; reflexivity.
Qed.

(** X27. The motion flag and the activity level never contradict each
    other: after every pass of the loop, whether the rate limit let the
    sample through or not, the level is the classification of the current
    variance; the flag is set at levels ACTIVE and EXERCISE and clear at
    level STILL. *)
Theorem motion_flag_matches_activity (samples : list (Z * (R * R * R)))
    (sample : Z * (R * R * R)) :
  let st := motion_cycle (run_motion samples initialMotion) sample in
  Motion.currentActivity st = activity_of (Motion.motionVariance st) /\
  (Motion.motionDetected st = true -> Motion.currentActivity st <> STILL) /\
  (2 <= activity_code (Motion.currentActivity st) ->
   Motion.motionDetected st = true) /\
  (Motion.currentActivity st = STILL -> Motion.motionDetected st = false).
Proof.
  cbv zeta.
  assert (Hinv : Motion.motionDetected (run_motion samples initialMotion)
                 = (if Rgt_dec (Motion.motionVariance
                                  (run_motion samples initialMotion)) 0.02
                    then true else false)).
  { induction samples as [| s samples IH] using rev_ind.
    - cbn. destruct (Rgt_dec 0 0.02); [lra | reflexivity].
    - unfold run_motion in *. rewrite fold_left_app. cbn [fold_left].
      apply (motion_flag_step _ s IH). }
  destruct (motion_flag_step _ sample Hinv) as [Hf Ha].
  rewrite Hf, Ha. split; [reflexivity |].
  apply activity_of_flag.
Qed.

(** ** Live packet *)

Lemma status_byte_bits (st : Live.t) :
  is_u8 (status_byte st) /\
  Z.testbit (status_byte st) 0 = Live.hrSensorActive st /\
  Z.testbit (status_byte st) 1 = Live.calibrationComplete st /\
  Z.testbit (status_byte st) 2 = Live.motionDetected st /\
  Z.land (Z.shiftr (status_byte st) 3) 3 = activity_code (Live.currentActivity st) /\
  Z.testbit (status_byte st) 5 = false /\
  Z.testbit (status_byte st) 6 = false /\
  Z.testbit (status_byte st) 7 = Live.mpuReady st.
Proof.
  unfold status_byte, is_u8.
  destruct (Live.hrSensorActive st), (Live.calibrationComplete st),
    (Live.motionDetected st), (Live.currentActivity st), (Live.mpuReady st);
    vm_compute; repeat split; intros; congruence.
Qed.

Lemma u16_le_bytes (x : Z) :
  is_u16 x ->
  is_u8 (u8 (Z.land x 255)) /\ is_u8 (u8 (Z.land (Z.shiftr x 8) 255)) /\
  u8 (Z.land x 255) + 256 * u8 (Z.land (Z.shiftr x 8) 255) = x.
Proof.
  intros Hx. rewrite high_byte by exact Hx. unfold is_u16 in Hx.
  rewrite land_255 by lia. unfold is_u8.
  pose proof (Z.mod_pos_bound x 256 ltac:(lia)).
  pose proof (Z.div_mod x 256 ltac:(lia)).
  assert (0 <= x / 256 < 256)
    by (split; [apply Z.div_pos; lia | apply Z.div_lt_upper_bound; lia]).
  lia.
Qed.

(** X28. The live packet: nothing is sent without a client; with one,
    seven bytes are sent. Byte 0 is the integer part of the stress index
    clamped to [[0, 100]], whatever the index is; byte 1 is the heart rate;
    bytes 2-3 and 4-5 are the integer parts of HRV and GSR, little-endian,
    exact while the values are below 65536; byte 6 carries the sensor flags
    in bits 0, 1, 2 and 7 and the activity level in bits 3-4, bits 5 and 6
    being clear. *)
Theorem live_packet_layout (st : Live.t) :
  is_u8 (Live.currentHR st) ->
  (0 <= Live.currentHRV st <= 65535)%R ->
  (0 <= Live.currentGSR st <= 65535)%R ->
  (Live.deviceConnected st = false -> updateBLEData st = None) /\
  (Live.deviceConnected st = true ->
   exists b0 b2 b3 b4 b5 b6,
     updateBLEData st = Some [b0; Live.currentHR st; b2; b3; b4; b5; b6] /\
     Forall is_u8 [b0; Live.currentHR st; b2; b3; b4; b5; b6] /\
     b0 = trunc (constrain (Live.stressIndex st) 0 100) /\ 0 <= b0 <= 100 /\
     b2 + 256 * b3 = trunc (Live.currentHRV st) /\
     b4 + 256 * b5 = trunc (Live.currentGSR st) /\
     b6 = status_byte st /\
     Z.testbit b6 0 = Live.hrSensorActive st /\
     Z.testbit b6 1 = Live.calibrationComplete st /\
     Z.testbit b6 2 = Live.motionDetected st /\
     Z.land (Z.shiftr b6 3) 3 = activity_code (Live.currentActivity st) /\
     Z.testbit b6 5 = false /\ Z.testbit b6 6 = false /\
     Z.testbit b6 7 = Live.mpuReady st).
Proof.
  intros Hhr Hv Hg. unfold updateBLEData. split.
  - intros ->. reflexivity.
  - intros ->. cbn [negb].
    pose proof (constrain_range (Live.stressIndex st) 0 100 ltac:(lra)) as Hc.
    pose proof (trunc_range _ 0 100 ltac:(lia) Hc) as Ts.
    pose proof (trunc_range _ 0 65535 ltac:(lia) Hv) as Tv.
    pose proof (trunc_range _ 0 65535 ltac:(lia) Hg) as Tg.
    unfold u8_of_float, u16_of_float.
    rewrite (u8_small (trunc (constrain _ 0 100))) by lia.
    rewrite (u16_small (trunc (Live.currentHRV st))) by lia.
    rewrite (u16_small (trunc (Live.currentGSR st))) by lia.
    destruct (u16_le_bytes (trunc (Live.currentHRV st)))
      as (V1 & V2 & V3); [unfold is_u16; lia |].
    destruct (u16_le_bytes (trunc (Live.currentGSR st)))
      as (G1 & G2 & G3); [unfold is_u16; lia |].
    destruct (status_byte_bits st) as (S0 & S1 & S2 & S3 & S4 & S5 & S6 & S7).
    eexists _, _, _, _, _, _. split; [reflexivity |].
    split.
    { repeat (apply List.Forall_cons; [first [assumption | unfold is_u8; lia] |]).
      apply List.Forall_nil. }
    split; [reflexivity |]. split; [exact Ts |].
    split; [exact V3 |]. split; [exact G3 |]. split; [reflexivity |].
    tauto.
Qed.

Lemma live_packet_layout_witness :
  let st := Live.mk true 55 72 40 2000 true true false LIGHT true in
  is_u8 (Live.currentHR st) /\
  (0 <= Live.currentHRV st <= 65535)%R /\
  (0 <= Live.currentGSR st <= 65535)%R /\
  (Live.deviceConnected st = false -> updateBLEData st = None) /\
  (Live.deviceConnected st = true ->
   exists b0 b2 b3 b4 b5 b6,
     updateBLEData st = Some [b0; Live.currentHR st; b2; b3; b4; b5; b6] /\
     Forall is_u8 [b0; Live.currentHR st; b2; b3; b4; b5; b6] /\
     b0 = trunc (constrain (Live.stressIndex st) 0 100) /\ 0 <= b0 <= 100 /\
     b2 + 256 * b3 = trunc (Live.currentHRV st) /\
     b4 + 256 * b5 = trunc (Live.currentGSR st) /\
     b6 = status_byte st /\
     Z.testbit b6 0 = Live.hrSensorActive st /\
     Z.testbit b6 1 = Live.calibrationComplete st /\
     Z.testbit b6 2 = Live.motionDetected st /\
     Z.land (Z.shiftr b6 3) 3 = activity_code (Live.currentActivity st) /\
     Z.testbit b6 5 = false /\ Z.testbit b6 6 = false /\
     Z.testbit b6 7 = Live.mpuReady st).
Proof.
  cbv zeta.
  assert (H1 : is_u8 (Live.currentHR
                        (Live.mk true 55 72 40 2000 true true false LIGHT true)))
    by (unfold is_u8; cbn; lia).
  assert (H2 : (0 <= Live.currentHRV
                       (Live.mk true 55 72 40 2000 true true false LIGHT true)
                <= 65535)%R) by (cbn; lra).
  assert (H3 : (0 <= Live.currentGSR
                       (Live.mk true 55 72 40 2000 true true false LIGHT true)
                <= 65535)%R) by (cbn; lra).
  split; [exact H1 |]. split; [exact H2 |]. split; [exact H3 |].
  apply (live_packet_layout
           (Live.mk true 55 72 40 2000 true true false LIGHT true) H1 H2 H3).
Defined.

(** ** Week record of a stored day *)

Lemma concat_block {A : Type} (f : A -> list Z) (l : list A) (i : nat) (x : A) :
  (forall y, length (f y) = 10%nat) ->
  l !! i = Some x ->
  take 10 (drop (10 * i) (concat (map f l))) = f x.
Proof.
  intros Hlen. revert i. induction l as [| y l IH]; intros i Hi.
  - discriminate Hi.
  - cbn [map concat]. destruct i as [| i].
    + injection Hi as ->. replace (10 * 0)%nat with 0%nat by lia.
      rewrite drop_0. apply take_app_length'. symmetry. apply Hlen.
    + cbn [lookup] in Hi.
      replace (10 * S i)%nat with (length (f y) + 10 * i)%nat
        by (rewrite Hlen; lia).
      rewrite drop_app_add'; [| reflexivity].
      apply IH. exact Hi.
Qed.

(** X29. The ten bytes of the week record that belong to day [d], when a
    well-formed blob is stored for it: the day number, the means of stress
    and heart rate over the hours that hold data, the largest peak stress
    and the first hour that reaches it, the high-stress minutes modulo 256,
    the mean HRV in two bytes, a zero byte and the valid flag; all zero but
    the day number when no hour holds data. *)
Theorem week_read_stored_day (p : Preferences) (buffer : list Z) (d : Z)
    (dayData : list HourlySummary.t) :
  length buffer = 70%nat ->
  0 <= d < DAYS_TO_STORE ->
  pref_days p !! d = Some dayData ->
  length dayData = 24%nat ->
  Forall HourlySummary.wf dayData ->
  let s := aggregate_day (Some dayData) in
  let n := Z.of_nat (length (valid_hours dayData)) in
  stats_of dayData s /\
  take 10 (drop (Z.to_nat (10 * d)) (packWeekData p buffer))
  = if 0 <? n then
      [d; sum_over HourlySummary.avgStress dayData / n;
       DayStats.peakStress s; DayStats.peakHour s;
       sum_over HourlySummary.highStressMins dayData mod 256;
       sum_over HourlySummary.avgHR dayData / n;
       (sum_over HourlySummary.avgHRV dayData / n) mod 256;
       (sum_over HourlySummary.avgHRV dayData / n) / 256;
       0; 1]
    else [d; 0; 0; 0; 0; 0; 0; 0; 0; 0].
Proof.
  intros Hbuf Hd Hlook Hlen Hwf s n. unfold DAYS_TO_STORE in Hd.
  destruct (week_entry_of_stored_day d dayData Hlen Hwf
              ltac:(unfold is_u8; lia)) as [Hs Hl].
  split; [exact Hs |].
  fold s n in Hl. rewrite <- Hl.
  rewrite packWeekData_concat by exact Hbuf.
  replace (Z.to_nat (10 * d)) with (10 * Z.to_nat d)%nat by lia.
  rewrite (concat_block _ _ (Z.to_nat d) d).
  - unfold getBytes_day. rewrite Hlook, Hlen. reflexivity.
  - intros y. reflexivity.
  - unfold DAYS_TO_STORE. rewrite lookup_seqZ_lt by lia. f_equal. lia.
Qed.

Lemma week_read_stored_day_witness :
  let s := aggregate_day (Some stressfulDay) in
  let n := Z.of_nat (length (valid_hours stressfulDay)) in
  length (replicate 70 0) = 70%nat /\
  0 <= 0 < DAYS_TO_STORE /\
  pref_days stressfulWeek !! 0 = Some stressfulDay /\
  length stressfulDay = 24%nat /\
  Forall HourlySummary.wf stressfulDay /\
  stats_of stressfulDay s /\
  take 10 (drop (Z.to_nat (10 * 0)) (packWeekData stressfulWeek (replicate 70 0)))
  = if 0 <? n then
      [0; sum_over HourlySummary.avgStress stressfulDay / n;
       DayStats.peakStress s; DayStats.peakHour s;
       sum_over HourlySummary.highStressMins stressfulDay mod 256;
       sum_over HourlySummary.avgHR stressfulDay / n;
       (sum_over HourlySummary.avgHRV stressfulDay / n) mod 256;
       (sum_over HourlySummary.avgHRV stressfulDay / n) / 256;
       0; 1]
    else [0; 0; 0; 0; 0; 0; 0; 0; 0; 0].
Proof.
  cbv zeta.
  assert (H1 : length (replicate 70 0) = 70%nat) by reflexivity.
  assert (H2 : 0 <= 0 < DAYS_TO_STORE) by (unfold DAYS_TO_STORE; lia).
  assert (H3 : pref_days stressfulWeek !! 0 = Some stressfulDay)
    by (unfold stressfulWeek; cbn -[stressfulDay]; apply lookup_insert_eq).
  assert (H4 : length stressfulDay = 24%nat) by reflexivity.
  assert (H5 : Forall HourlySummary.wf stressfulDay).
  { let v := eval vm_compute in stressfulDay in change stressfulDay with v.
    repeat (apply List.Forall_cons;
            [unfold HourlySummary.wf, is_u8, is_u16; cbn; lia |]).
    apply List.Forall_nil. }
  split; [exact H1 |]. split; [exact H2 |]. split; [exact H3 |].
  split; [exact H4 |]. split; [exact H5 |].
  apply (week_read_stored_day stressfulWeek (replicate 70 0) 0 stressfulDay
           H1 H2 H3 H4 H5).
Defined.

(** ** Button and power state *)

(** What one pass of the button block can do to the power state and to
    the screen. *)
Lemma handleButton_cases (systemReady : bool) (currentMillis : Z)
    (reading : Level) (st : Button.t) :
  let st' := fst (handleButton systemReady currentMillis reading st) in
  let action := snd (handleButton systemReady currentMillis reading st) in
  let long_hold :=
    Button.buttonState st' = LOW /\
    10000 <= u32 (currentMillis - Button.buttonPressStartTime st') /\
    Button.buttonHeldForPowerOff st' = true in
  (action = Some CallEnterPowerOff ->
   Button.currentState st = INFO /\ Button.currentState st' = INFO /\
   Button.devicePoweredOff st = false /\ Button.devicePoweredOff st' = true /\
   long_hold) /\
  (action = Some CallWakeFromPowerOff ->
   Button.devicePoweredOff st = true /\ Button.devicePoweredOff st' = false /\
   Button.currentState st' = Button.currentState st /\ long_hold) /\
  (action = None ->
   Button.devicePoweredOff st' = Button.devicePoweredOff st /\
   (Button.devicePoweredOff st = true ->
    Button.currentState st' = Button.currentState st) /\
   (Button.currentState st' = INFO -> Button.currentState st <> INFO ->
    long_hold)).
Proof.
  cbv zeta. unfold handleButton.
  destruct systemReady; cbn [negb];
    [| cbn; repeat split; intros; congruence].
  destruct (50 <? u32 (currentMillis - _));
    [| cbn; repeat split; intros; congruence].
  cbv zeta.
  destruct reading, (Button.buttonState st), (Button.currentState st),
    (Button.devicePoweredOff st), (Button.buttonHeldForPowerOff st);
    cbn [level_eqb negb andb is_INFO];
    repeat match goal with
    | |- context [?a <? ?b] => destruct (Z.ltb_spec a b)
    | |- context [?a <=? ?b] => destruct (Z.leb_spec a b)
    end;
    cbn [level_eqb negb andb is_INFO fst snd Button.currentState
         Button.buttonState Button.devicePoweredOff
         Button.buttonPressStartTime Button.buttonHeldForPowerOff];
    repeat split; intros; try congruence; try lia.
Qed.

Lemma run_buttons_snoc (passes : list (bool * Z * Level))
    (pass : bool * Z * Level) (st : Button.t) :
  run_buttons (passes ++ [pass]) st = button_pass (run_buttons passes st) pass.
Proof. unfold run_buttons. rewrite fold_left_app. reflexivity. Qed.

Lemma off_only_on_info (start : Z) (passes : list (bool * Z * Level)) :
  Button.devicePoweredOff (run_buttons passes (initialButton start)) = true ->
  Button.currentState (run_buttons passes (initialButton start)) = INFO.
Proof.
  induction passes as [| [[ready now] reading] passes IH] using rev_ind.
  - cbn. discriminate.
  - rewrite run_buttons_snoc. unfold button_pass.
    set (st := run_buttons passes (initialButton start)) in *.
    destruct (handleButton_cases ready now reading st) as (He & Hw & Hn).
    destruct (snd (handleButton ready now reading st)) as [[|] |] eqn:Ea.
    + destruct (He eq_refl) as (_ & Hi & _). intros _. exact Hi.
    + destruct (Hw eq_refl) as (_ & Hoff & _). congruence.
    + destruct (Hn eq_refl) as (Hsame & Hkeep & _).
      intros Hoff. rewrite Hsame in Hoff.
      rewrite (Hkeep Hoff). apply IH, Hoff.
Qed.

(** X30. The power state follows the button as the screens promise: the
    device is switched off only from the INFO screen, and switched off or
    woken only by a press held for 10 seconds, once per press; a pass that
    calls neither power function leaves the power state alone, and opens the
    INFO screen only on such a hold. After any sequence of passes, a device
    that is powered off shows, once woken, the INFO screen it was switched
    off from. *)
Theorem power_follows_long_hold (start : Z) (passes : list (bool * Z * Level))
    (systemReady : bool) (currentMillis : Z) (reading : Level) :
  let st := run_buttons passes (initialButton start) in
  let st' := fst (handleButton systemReady currentMillis reading st) in
  let action := snd (handleButton systemReady currentMillis reading st) in
  let long_hold :=
    Button.buttonState st' = LOW /\
    10000 <= u32 (currentMillis - Button.buttonPressStartTime st') /\
    Button.buttonHeldForPowerOff st' = true in
  (Button.devicePoweredOff st = true -> Button.currentState st = INFO) /\
  (action = Some CallEnterPowerOff ->
   Button.currentState st = INFO /\ Button.devicePoweredOff st = false /\
   Button.devicePoweredOff st' = true /\ long_hold) /\
  (action = Some CallWakeFromPowerOff ->
   Button.devicePoweredOff st = true /\ Button.devicePoweredOff st' = false /\
   Button.currentState st' = INFO /\ long_hold) /\
  (action = None ->
   Button.devicePoweredOff st' = Button.devicePoweredOff st /\
   (Button.currentState st' = INFO -> Button.currentState st <> INFO ->
    long_hold)).
Proof.
  cbv zeta.
  pose proof (off_only_on_info start passes) as Hinv.
  set (st := run_buttons passes (initialButton start)) in *.
  destruct (handleButton_cases systemReady currentMillis reading st)
    as (He & Hw & Hn).
  split; [exact Hinv |].
  split; [intros Ha; destruct (He Ha) as (H1 & _ & H3 & H4 & H5); tauto |].
  split.
  - intros Ha. destruct (Hw Ha) as (H1 & H2 & H3 & H4).
    split; [exact H1 |]. split; [exact H2 |].
    split; [rewrite H3; apply Hinv, H1 | exact H4].
  - intros Ha. destruct (Hn Ha) as (H1 & _ & H3). split; [exact H1 | exact H3].
Qed.
